(** * Dash-Stats: the synchronisation engine of [server/dashService.ts]

    A shallow embedding of the block/epoch cache maintenance code:
    subsidy schedule, superblock handling, conflict-safe inserts, the
    source selector, forward sync, backfill and epoch sync.

    Conventions.
    - Integer-valued JavaScript numbers (heights, unix times, counters,
      milliseconds) are [Z].
    - Fractional currency amounts (fees, subsidy, reward) are IEEE-754
      binary64 values, as in JavaScript: Rocq's primitive [float].
    - [null] / a failed promise is [None].
    - What the outside world answers (HTTP, RPC, database errors) is an
      explicit oracle passed to the function that asks. *)

From Stdlib Require Import ZArith List Bool Lia String.
From Stdlib Require Import PrimFloat FloatOps SpecFloat Uint63.
From Stdlib Require Import Sorted Permutation.
From Stdlib Require FloatAxioms.
Import ListNotations.

Local Open Scope Z_scope.

(** ** Constants *)

Definition JAN_1_2026_UNIX : Z := 1767225600.

(** ** Subsidy schedule and superblocks *)

Module Subsidy.

Definition nSubsidyBase : float := 5%float.
Definition reductionInterval : Z := 210240.

(** One pass through the body of the reduction loop:
    [subsidy = subsidy - subsidy / 14]. *)
Definition reduce (subsidy : float) : float :=
  PrimFloat.sub subsidy (PrimFloat.div subsidy 14%float).

(** [for (let i = 0; i < reductions; i++) body]: the body runs
    [reductions] times, and not at all when [reductions <= 0]. *)
Fixpoint loop (n : nat) (subsidy : float) : float :=
  match n with
  | O => subsidy
  | S k => loop k (reduce subsidy)
  end.

(** [Math.floor(height / reductionInterval)] on an integer height is
    floor division, which is [Z.div] for a positive divisor. *)
Definition reductions (height : Z) : Z := height / reductionInterval.

Definition getBlockSubsidy (height : Z) : float :=
  loop (Z.to_nat (reductions height)) nSubsidyBase.

(** Every finite double is a whole number of units of [2^-1074], the
    smallest positive double; [units x] is that number, and [None] for
    NaN and the infinities. *)
Definition units (x : float) : option Z :=
  match Prim2SF x with
  | S754_zero _ => Some 0
  | S754_finite s m e =>
      if e + 1074 <? 0 then None
      else let n := Z.shiftl (Zpos m) (e + 1074) in
           Some (if s then - n else n)
  | S754_infinity _ => None
  | S754_nan => None
  end.

(** The absolute tolerance used to compare two subsidies is [2^-50],
    one unit in the last place of the starting value 5; that is
    [2^1024] units. *)
Definition tolerance : Z := Z.shiftl 1 1024.

(** [close_to_13_14 s s'] : [s'] is within the tolerance of the exact
    product [13/14 * s], that is [|s' - 13/14 * s| <= 2^-50]; in units,
    and with both sides multiplied by 14. *)
Definition close_to_13_14 (s s' : float) : bool :=
  match units s, units s' with
  | Some q, Some q' => Z.abs (14 * q' - 13 * q) <=? 14 * tolerance
  | _, _ => false
  end.

(** The JavaScript expression [s * 13 / 14]. *)
Definition thirteenFourteenths (s : float) : float :=
  PrimFloat.div (PrimFloat.mul s 13%float) 14%float.

(** [within_tolerance a b] : [|a - b| <= 2^-50]. *)
Definition within_tolerance (a b : float) : bool :=
  match units a, units b with
  | Some p, Some q => Z.abs (p - q) <=? tolerance
  | _, _ => false
  end.

End Subsidy.

Definition superblockCycle : Z := 16616.

(** [height % superblockCycle === 0]; JavaScript's [%] truncates
    towards zero, which is [Z.rem]. *)
Definition isSuperblock (height : Z) : bool :=
  Z.rem height superblockCycle =? 0.

(** ** Block payloads and rows *)

Record BlockData := mkBlockData {
  bd_hash : string;
  bd_height : Z;
  bd_time : Z;
  bd_txCount : Z;
  bd_totalFees : float;
  bd_subsidy : float
}.

Record BlockRow := mkBlockRow {
  hash : string;
  height : Z;
  time : Z;
  totalFees : float;
  reward : float;
  txCount : Z
}.

Definition blockDataToRow (block : BlockData) : BlockRow :=
  let fees := if isSuperblock (bd_height block) then 0%float
              else bd_totalFees block in
  {| hash := bd_hash block;
     height := bd_height block;
     time := bd_time block;
     totalFees := fees;
     reward := PrimFloat.add (bd_subsidy block) fees;
     txCount := bd_txCount block |}.

(** What a [real] column of [shared/schema.ts] keeps of a double: the
    nearest single-precision value, ties to even, given here as the
    double equal to it.  NaN, the infinities and the zeros are kept.
    A finite double beyond the single-precision range comes out as an
    infinity; a database that refuses such a value instead makes the
    statement throw, which the oracle of failing statements covers. *)
Definition toReal (x : float) : float :=
  match Prim2SF x with
  | S754_finite s m e => SF2Prim (binary_round 24 128 s m e)
  | _ => x
  end.

(** The row of [core_block_fees] that an insert of [row] stores:
    [total_fees] and [reward] are [real] columns, the others keep
    their value. *)
Definition storedRow (row : BlockRow) : BlockRow :=
  {| hash := hash row;
     height := height row;
     time := time row;
     totalFees := toReal (totalFees row);
     reward := toReal (reward row);
     txCount := txCount row |}.

(** ** Tables with a primary key

    The persistence layer is a row store; the two conflict clauses the
    code uses are modelled on a list of rows with a key projection. *)

Section Table.

Variables (Row Key : Type) (key : Row -> Key) (eqb : Key -> Key -> bool).

Definition rowsWith (k : Key) (t : list Row) : list Row :=
  filter (fun r => eqb (key r) k) t.

Definition hasKey (k : Key) (t : list Row) : bool :=
  existsb (fun r => eqb (key r) k) t.

(** [INSERT ... ON CONFLICT DO NOTHING] *)
Definition insertOnConflictDoNothing (r : Row) (t : list Row) : list Row :=
  if hasKey (key r) t then t else t ++ [r].

(** [INSERT ... ON CONFLICT (key) DO UPDATE SET ...]: [set] rewrites
    the columns named in the clause on the conflicting row. *)
Definition insertOnConflictDoUpdate (r : Row) (set : Row -> Row)
    (t : list Row) : list Row :=
  if hasKey (key r) t
  then map (fun old => if eqb (key old) (key r) then set old else old) t
  else t ++ [r].

End Table.

Arguments rowsWith {Row Key} key eqb k t.
Arguments hasKey {Row Key} key eqb k t.
Arguments insertOnConflictDoNothing {Row Key} key eqb r t.
Arguments insertOnConflictDoUpdate {Row Key} key eqb r set t.

Record EpochRow := mkEpochRow {
  epochNumber : Z;
  startTime : Z;
  endTime : Z;
  totalCollectedFees : Z;
  feeMultiplier : Z
}.

(** The three tables of [shared/schema.ts] that the service touches.
    [sync_state] values written under the backfill keys are [String(n)]
    of an integer and read back with [parseInt]; such a text is
    represented by the integer itself.  [stmtNo] counts the statements
    sent so far: it indexes the oracle that says which of them throw. *)
Record Db := mkDb {
  coreBlockFees : list BlockRow;
  platformEpochFees : list EpochRow;
  syncState : list (string * Z);
  stmtNo : nat
}.

Definition setBlocks (t : list BlockRow) (db : Db) : Db :=
  mkDb t (platformEpochFees db) (syncState db) (stmtNo db).

Definition setEpochs (t : list EpochRow) (db : Db) : Db :=
  mkDb (coreBlockFees db) t (syncState db) (stmtNo db).

Definition setSync (t : list (string * Z)) (db : Db) : Db :=
  mkDb (coreBlockFees db) (platformEpochFees db) t (stmtNo db).

(** Sending one statement: the oracle [dbThrows] decides whether it
    raises; the counter advances either way. *)
Definition stmt (dbThrows : nat -> bool) (db : Db) : bool * Db :=
  (dbThrows (stmtNo db),
   mkDb (coreBlockFees db) (platformEpochFees db) (syncState db)
        (S (stmtNo db))).

(** A computation inside a [try]: a value, or an exception. *)
Inductive Outcome (A : Type) : Type :=
| Ok (a : A)
| Threw.

Arguments Ok {A} a.
Arguments Threw {A}.

Definition getSyncValue (dbThrows : nat -> bool) (k : string) (db : Db)
  : Outcome (option Z) * Db :=
  let '(fails, db1) := stmt dbThrows db in
  if fails then (Threw, db1)
  else (Ok (option_map snd
              (find (fun kv => String.eqb (fst kv) k) (syncState db1))),
        db1).

Definition setSyncValue (dbThrows : nat -> bool) (k : string) (v : Z)
    (db : Db) : Outcome unit * Db :=
  let '(fails, db1) := stmt dbThrows db in
  if fails then (Threw, db1)
  else (Ok tt,
        setSync (insertOnConflictDoUpdate fst String.eqb (k, v)
                   (fun old => (fst old, v)) (syncState db1)) db1).

(** [try { await insert.onConflictDoNothing(); return true }
     catch { return false }] *)
Definition insertBlockRow (dbThrows : nat -> bool) (row : BlockRow)
    (db : Db) : bool * Db :=
  let '(fails, db1) := stmt dbThrows db in
  if fails then (false, db1)
  else (true,
        setBlocks (insertOnConflictDoNothing hash String.eqb (storedRow row)
                     (coreBlockFees db1)) db1).

(** [MIN(height)] and [MAX(height)]: [None] is SQL [NULL], the answer
    on an empty table. *)
Definition aggregate (pick : Z -> Z -> Z) (t : list BlockRow) : option Z :=
  fold_left (fun acc r => match acc with
                          | None => Some (height r)
                          | Some a => Some (pick a (height r))
                          end) t None.

Definition minHeight : list BlockRow -> option Z := aggregate Z.min.
Definition maxHeight : list BlockRow -> option Z := aggregate Z.max.

(** [x || 0] on a nullable number. *)
Definition orZero (x : option Z) : Z :=
  match x with Some v => v | None => 0 end.

(** Truthiness of a number. *)
Definition truthy (x : Z) : bool := negb (x =? 0).

(** ** Process state and the outside world *)

Inductive Status := idle | running | complete | paused | error.

Record BackfillProgress := mkProgress {
  totalNeeded : Z;
  totalDone : Z;
  oldestHeight : Z;
  targetHeight : Z;
  status : Status
}.

(** The module-level [let]s of the service. *)
Record Service := mkService {
  backfillRunning : bool;
  backfillProgress : BackfillProgress;
  rpcAvailable : option bool
}.

Definition initialService : Service :=
  mkService false (mkProgress 0 0 0 0 idle) None.

(** What the collaborators answer.  [fetchBlock n h] is the payload
    that [fetchBlock(h)] resolves to when issued in the [n]-th batch of
    a run ([None]: both sources failed); [now] is [Date.now()] in
    milliseconds. *)
Record Upstream := mkUpstream {
  rpcConfigured : bool;
  rpcProbe : bool;
  rpcBlockCount : option Z;
  insightBlocks : option Z;
  blockbookBest : option Z;
  fetchBlock : nat -> Z -> option BlockData;
  dbThrows : nat -> bool;
  now : Z
}.

(** What a run does to the outside, in order. *)
Inductive Event :=
| EvProbe
| EvFetch (h : Z)
| EvInsert (row : BlockRow)
| EvDelay (ms : Z)
| EvCheckpoint (k : string) (v : Z)
| EvFetchEpoch (n : Z).

Definition fetchedHeights (evs : list Event) : list Z :=
  flat_map (fun e => match e with EvFetch h => [h] | _ => [] end) evs.

Definition insertedRows (evs : list Event) : list BlockRow :=
  flat_map (fun e => match e with EvInsert r => [r] | _ => [] end) evs.

Definition delays (evs : list Event) : list Z :=
  flat_map (fun e => match e with EvDelay ms => [ms] | _ => [] end) evs.

(** ** Source selector *)

(** Result, new cached verdict, events. *)
Definition checkRpcAvailability (u : Upstream) (verdict : option bool)
  : bool * option bool * list Event :=
  match verdict with
  | Some b => (b, verdict, [])
  | None =>
      if negb (rpcConfigured u) then (false, Some false, [])
      else if rpcProbe u then (true, Some true, [EvProbe])
      else (false, Some false, [EvProbe])
  end.

(** The body of the 5-minute interval:
    [if (!rpcAvailable) rpcAvailable = null]. *)
Definition invalidate (verdict : option bool) : option bool :=
  let falsy := match verdict with Some true => false | _ => true end in
  if falsy then None else verdict.

Definition setVerdict (v : option bool) (sv : Service) : Service :=
  mkService (backfillRunning sv) (backfillProgress sv) v.

Definition setRunning (b : bool) (sv : Service) : Service :=
  mkService b (backfillProgress sv) (rpcAvailable sv).

Definition setProgress (p : BackfillProgress) (sv : Service) : Service :=
  mkService (backfillRunning sv) p (rpcAvailable sv).

Definition setStatus (s : Status) (p : BackfillProgress) : BackfillProgress :=
  mkProgress (totalNeeded p) (totalDone p) (oldestHeight p) (targetHeight p) s.

(** [fetchCoreStatus]: the height of the chain tip from the privileged
    source, then from the two public ones; [None] is [null].  The RPC
    answer is returned as it comes; the public answers only when
    truthy. *)
Definition fetchCoreStatus (u : Upstream) (sv : Service)
  : option Z * Service * list Event :=
  let '(useRpc, v, ev) := checkRpcAvailability u (rpcAvailable sv) in
  let sv1 := setVerdict v sv in
  let viaRpc := if useRpc then rpcBlockCount u else None in
  match viaRpc with
  | Some h => (Some h, sv1, ev)
  | None =>
      match insightBlocks u with
      | Some b => if truthy b then (Some b, sv1, ev)
                  else match blockbookBest u with
                       | Some c => if truthy c then (Some c, sv1, ev)
                                   else (None, sv1, ev)
                       | None => (None, sv1, ev)
                       end
      | None => match blockbookBest u with
                | Some c => if truthy c then (Some c, sv1, ev)
                            else (None, sv1, ev)
                | None => (None, sv1, ev)
                end
      end
  end.

(** ** Forward sync *)

Fixpoint countUp (n : nat) (from : Z) : list Z :=
  match n with
  | O => []
  | S k => from :: countUp k (from + 1)
  end.

(** The values of [j] in [for (j = lo; j < hi; j++)]. *)
Definition zrange (lo hi : Z) : list Z := countUp (Z.to_nat (hi - lo)) lo.

(** The [for (const r of results)] of forward sync: every fulfilled,
    non-null result is converted and inserted. *)
Fixpoint storeFetched (thr : nat -> bool) (results : list (option BlockData))
    (db : Db) (inserted : Z) : Db * Z * list Event :=
  match results with
  | [] => (db, inserted, [])
  | Some v :: rest =>
      let row := blockDataToRow v in
      let '(ok, db1) := insertBlockRow thr row db in
      let '(db2, n, ev) :=
        storeFetched thr rest db1 (if ok then inserted + 1 else inserted) in
      (db2, n, EvInsert row :: ev)
  | None :: rest => storeFetched thr rest db inserted
  end.

(** [for (let i = 0; i < toFetch; i += batchSize)], started at [i];
    [fuel] bounds the number of passes. *)
Fixpoint forwardLoop (u : Upstream) (fuel : nat)
    (startHeight toFetch batchSize batchDelay : Z)
    (i : Z) (batchNo : nat) (db : Db) (inserted : Z)
  : Db * Z * list Event :=
  match fuel with
  | O => (db, inserted, [])
  | S f =>
      if i <? toFetch then
        let hs := map (fun j => startHeight - j)
                      (zrange i (Z.min (i + batchSize) toFetch)) in
        let results := map (fetchBlock u batchNo) hs in
        let '(db1, ins1, ev1) :=
          storeFetched (dbThrows u) results db inserted in
        let evd := if i + batchSize <? toFetch then [EvDelay batchDelay]
                   else [] in
        let '(db2, ins2, ev2) :=
          forwardLoop u f startHeight toFetch batchSize batchDelay
                      (i + batchSize) (S batchNo) db1 ins1 in
        (db2, ins2, map EvFetch hs ++ ev1 ++ evd ++ ev2)
      else (db, inserted, [])
  end.

(** How many heights one forward sync asks for. *)
Definition forwardToFetch (highestCached currentHeight : Z) : Z :=
  if truthy highestCached then Z.min (currentHeight - highestCached) 50
  else 20.

(** Returns the count of inserts, the new state and the events.  The
    loop needs at most [toFetch] passes, which is the fuel it gets. *)
Definition syncNewCoreBlocks (u : Upstream) (sv : Service) (db : Db)
  : Z * Service * Db * list Event :=
  let '(fails, db1) := stmt (dbThrows u) db in
  if fails then (0, sv, db1, [])
  else
    let highestCached := orZero (maxHeight (coreBlockFees db1)) in
    let '(st, sv1, ev0) := fetchCoreStatus u sv in
    match st with
    | None => (0, sv1, db1, ev0)
    | Some currentHeight =>
        if negb (truthy currentHeight) then (0, sv1, db1, ev0)
        else if truthy highestCached && (currentHeight <=? highestCached)
        then (0, sv1, db1, ev0)
        else
          let toFetch := forwardToFetch highestCached currentHeight in
          let '(useRpc, v, ev1) :=
            checkRpcAvailability u (rpcAvailable sv1) in
          let sv2 := setVerdict v sv1 in
          let batchSize := if useRpc then 10 else 2 in
          let batchDelay := if useRpc then 100 else 2000 in
          let '(db2, inserted, ev2) :=
            forwardLoop u (Z.to_nat toFetch) currentHeight toFetch
                        batchSize batchDelay 0 O db1 0 in
          (inserted, sv2, db2, ev0 ++ ev1 ++ ev2)
    end.

(** ** Backfill *)

(** An integer as a double (exact below [2^53]). *)
Definition float_of_Z (z : Z) : float :=
  if 0 <=? z then PrimFloat.of_uint63 (Uint63.of_Z z)
  else PrimFloat.opp (PrimFloat.of_uint63 (Uint63.of_Z (- z))).

(** [Math.ceil] of a finite double, as an integer. *)
Definition ceilZ (x : float) : Z :=
  match Prim2SF x with
  | S754_finite s m e =>
      let n := if s then Z.neg m else Z.pos m in
      if 0 <=? e then n * 2 ^ e else - ((- n) / 2 ^ (- e))
  | _ => 0
  end.

Definition blocksSince (nowSeconds : Z) : Z :=
  let secondsSinceJan1 := nowSeconds - JAN_1_2026_UNIX in
  let blocksPerSecond := PrimFloat.div 1%float 150%float in
  ceilZ (PrimFloat.mul (float_of_Z secondsSinceJan1) blocksPerSecond).

Definition estimateTargetHeight (u : Upstream) (db : Db)
  : Outcome Z * Db * list Event :=
  let '(saved, db1) :=
    getSyncValue (dbThrows u) "backfill_target_height" db in
  match saved with
  | Threw => (Threw, db1, [])
  | Ok (Some n) => (Ok n, db1, [])
  | Ok None =>
      let '(fails, db2) := stmt (dbThrows u) db1 in
      if fails then (Threw, db2, [])
      else
        match maxHeight (coreBlockFees db2) with
        | Some latestHeight =>
            if truthy latestHeight then
              let target := latestHeight - blocksSince (now u / 1000) in
              let '(r, db3) :=
                setSyncValue (dbThrows u) "backfill_target_height" target
                             db2 in
              match r with
              | Threw => (Threw, db3, [])
              | Ok _ =>
                  (Ok target, db3,
                   [EvCheckpoint "backfill_target_height" target])
              end
            else (Ok 2396800, db2, [])
        | None => (Ok 2396800, db2, [])
        end
  end.

Definition BATCH_SIZE (useRpc : bool) : Z := if useRpc then 20 else 2.
Definition DELAY_MS (useRpc : bool) : Z := if useRpc then 50 else 2000.
Definition ERROR_BACKOFF (useRpc : bool) : Z :=
  if useRpc then 2000 else 15000.

(** The wait after the [k]-th consecutive failed batch. *)
Definition backoff (useRpc : bool) (k : Z) : Z :=
  ERROR_BACKOFF useRpc * Z.min k 6.

(** [for (i = 0; i < BATCH_SIZE && currentHeight - i >= targetHeight; i++)
      batch.push(fetchBlock(currentHeight - i))], started at [i]. *)
Fixpoint batchHeights (fuel : nat) (i size cur target : Z) : list Z :=
  match fuel with
  | O => []
  | S f =>
      if (i <? size) && (cur - i >=? target)
      then (cur - i) :: batchHeights f (i + 1) size cur target
      else []
  end.

(** The [for (const r of results)] of backfill: a fulfilled result is
    inserted only when its time is not before the cutoff; a rejected or
    null one sets [anyFailed]. *)
Fixpoint storeBackfilled (thr : nat -> bool)
    (results : list (option BlockData)) (db : Db)
    (batchInserted : Z) (anyFailed : bool)
  : Db * Z * bool * list Event :=
  match results with
  | [] => (db, batchInserted, anyFailed, [])
  | Some v :: rest =>
      if bd_time v >=? JAN_1_2026_UNIX then
        let row := blockDataToRow v in
        let '(ok, db1) := insertBlockRow thr row db in
        let '(db2, n, f, ev) :=
          storeBackfilled thr rest db1
            (if ok then batchInserted + 1 else batchInserted) anyFailed in
        (db2, n, f, EvInsert row :: ev)
      else storeBackfilled thr rest db batchInserted anyFailed
  | None :: rest => storeBackfilled thr rest db batchInserted true
  end.

(** The heights one batch asks for when the cursor is at [cur]. *)
Definition batchAt (useRpc : bool) (target cur : Z) : list Z :=
  batchHeights (Z.to_nat (BATCH_SIZE useRpc)) 0 (BATCH_SIZE useRpc) cur
               target.

(** [backfillProgress.totalDone = (oldestCached - 1) - currentHeight;
     backfillProgress.oldestHeight = currentHeight + 1], with the
    cursor at [cur]. *)
Definition advanced (oldestCached cur : Z) (p : BackfillProgress)
  : BackfillProgress :=
  mkProgress (totalNeeded p) ((oldestCached - 1) - cur) (cur + 1)
             (targetHeight p) (status p).

(** The local variables of the walk. *)
Record Walk := mkWalk {
  currentHeight : Z;
  consecutiveErrors : Z;
  totalInserted : Z;
  batchNo : nat
}.

(** One pass through the body of the [while] loop.  [Threw] is an
    exception of the periodic checkpoint write. *)
Definition backfillPass (u : Upstream) (useRpc : bool)
    (oldestCached target : Z) (wk : Walk) (sv : Service) (db : Db)
  : Outcome Walk * Service * Db * list Event :=
  let size := BATCH_SIZE useRpc in
  let hs := batchAt useRpc target (currentHeight wk) in
  let results := map (fetchBlock u (batchNo wk)) hs in
  let '(db1, batchInserted, anyFailed, ev1) :=
    storeBackfilled (dbThrows u) results db 0 false in
  if anyFailed && (batchInserted =? 0) then
    let errors := consecutiveErrors wk + 1 in
    (Ok (mkWalk (currentHeight wk) errors (totalInserted wk)
                (S (batchNo wk))),
     sv, db1,
     map EvFetch hs ++ ev1 ++ [EvDelay (backoff useRpc errors)])
  else
    let total := totalInserted wk + batchInserted in
    let cur := currentHeight wk - size in
    let sv1 :=
      setProgress (advanced oldestCached cur (backfillProgress sv)) sv in
    let wk1 := mkWalk cur 0 total (S (batchNo wk)) in
    if (Z.rem total 200 =? 0) && (total >? 0) then
      let '(r, db2) :=
        setSyncValue (dbThrows u) "backfill_oldest_height" cur db1 in
      match r with
      | Threw => (Threw, sv1, db2, map EvFetch hs ++ ev1)
      | Ok _ =>
          (Ok wk1, sv1, db2,
           map EvFetch hs ++ ev1 ++
           [EvCheckpoint "backfill_oldest_height" cur;
            EvDelay (DELAY_MS useRpc)])
      end
    else
      (Ok wk1, sv1, db1,
       map EvFetch hs ++ ev1 ++ [EvDelay (DELAY_MS useRpc)]).

Inductive LoopEnd := Exited | Raised | OutOfFuel.

(** [while (currentHeight >= targetHeight && backfillRunning)]; the
    source loop has no bound of its own (a batch that keeps failing is
    retried for ever), so the model takes [fuel] passes at most and says
    how it stopped. *)
Fixpoint backfillLoop (u : Upstream) (useRpc : bool)
    (oldestCached target : Z) (fuel : nat)
    (wk : Walk) (sv : Service) (db : Db)
  : LoopEnd * Walk * Service * Db * list Event :=
  let continue := (currentHeight wk >=? target) && backfillRunning sv in
  match fuel with
  | O => ((if continue then OutOfFuel else Exited), wk, sv, db, [])
  | S f =>
      if continue then
        let '(r, sv1, db1, ev1) :=
          backfillPass u useRpc oldestCached target wk sv db in
        match r with
        | Threw => (Raised, wk, sv1, db1, ev1)
        | Ok wk1 =>
            let '(e, wk2, sv2, db2, ev2) :=
              backfillLoop u useRpc oldestCached target f wk1 sv1 db1 in
            (e, wk2, sv2, db2, ev1 ++ ev2)
        end
      else (Exited, wk, sv, db, [])
  end.

(** [catch]: status becomes "error"; [finally]: the run flag drops. *)
Definition failed (sv : Service) : Service :=
  setRunning false (setProgress (setStatus error (backfillProgress sv)) sv).

(** The first component says whether the call has returned within
    [fuel] passes of the walk; when it has not, the rest is the state
    reached so far. *)
Definition startCoreBackfill (u : Upstream) (fuel : nat)
    (sv : Service) (db : Db) : bool * Service * Db * list Event :=
  if backfillRunning sv then (true, sv, db, [])
  else
    let sv0 := setRunning true sv in
    let '(fails, db1) := stmt (dbThrows u) db in
    if fails then (true, failed sv0, db1, [])
    else
      let oldestCached := orZero (minHeight (coreBlockFees db1)) in
      if negb (truthy oldestCached) then (true, setRunning false sv0, db1, [])
      else
        let '(t, db2, ev0) := estimateTargetHeight u db1 in
        match t with
        | Threw => (true, failed sv0, db2, ev0)
        | Ok target =>
            if oldestCached <=? target then
              (true,
               setRunning false
                 (setProgress (setStatus complete (backfillProgress sv0))
                              sv0),
               db2, ev0)
            else
              let sv1 :=
                setProgress (mkProgress (oldestCached - target) 0
                                        oldestCached target running) sv0 in
              let '(useRpc, v, ev1) :=
                checkRpcAvailability u (rpcAvailable sv1) in
              let sv2 := setVerdict v sv1 in
              let '(e, wk, sv3, db3, ev2) :=
                backfillLoop u useRpc oldestCached target fuel
                  (mkWalk (oldestCached - 1) 0 0 O) sv2 db2 in
              match e with
              | OutOfFuel => (false, sv3, db3, ev0 ++ ev1 ++ ev2)
              | Raised => (true, failed sv3, db3, ev0 ++ ev1 ++ ev2)
              | Exited =>
                  let '(r, db4) :=
                    setSyncValue (dbThrows u) "backfill_oldest_height"
                                 (currentHeight wk) db3 in
                  match r with
                  | Threw => (true, failed sv3, db4, ev0 ++ ev1 ++ ev2)
                  | Ok _ =>
                      let final :=
                        if currentHeight wk <=? target then complete
                        else paused in
                      (true,
                       setRunning false
                         (setProgress
                            (setStatus final (backfillProgress sv3)) sv3),
                       db4,
                       ev0 ++ ev1 ++ ev2 ++
                       [EvCheckpoint "backfill_oldest_height"
                                     (currentHeight wk)])
                  end
              end
        end.

(** [getBackfillProgress]: the progress record and the run flag. *)
Definition getBackfillProgress (sv : Service) : BackfillProgress * bool :=
  (backfillProgress sv, backfillRunning sv).

(** ** Epoch sync *)

(** The JSON of [GET /epoch/n] as far as the sync reads it; the
    numeric fields are what [Number(...)] makes of them. *)
Record EpochInfo := mkEpochInfo {
  ei_number : Z;
  ei_startTime : Z;
  ei_endTime : Z;
  ei_feeMultiplier : option Z
}.

Record EpochResp := mkEpochResp {
  er_epoch : option EpochInfo;
  er_totalCollectedFees : option Z
}.

Record Platform := mkPlatform {
  statusEpochNumber : option Z;
  fetchPlatformEpoch : Z -> option EpochResp
}.

(** [x || d] on an optional number. *)
Definition orDefault (d : Z) (x : option Z) : Z :=
  match x with
  | Some v => if truthy v then v else d
  | None => d
  end.

(** The row of [.values({...})]. *)
Definition epochValues (ep : EpochResp) (e : EpochInfo) : EpochRow :=
  {| epochNumber := ei_number e;
     startTime := ei_startTime e;
     endTime := ei_endTime e;
     totalCollectedFees := orDefault 0 (er_totalCollectedFees ep);
     feeMultiplier := orDefault 1 (ei_feeMultiplier e) |}.

(** The [set] clause: [totalCollectedFees] and [endTime]. *)
Definition epochConflictSet (new old : EpochRow) : EpochRow :=
  {| epochNumber := epochNumber old;
     startTime := startTime old;
     endTime := endTime new;
     totalCollectedFees := totalCollectedFees new;
     feeMultiplier := feeMultiplier old |}.

(** [try { await insert.values(v).onConflictDoUpdate(...); inserted++ }
     catch {}]: [true] when the statement went through. *)
Definition upsertEpoch (thr : nat -> bool) (v : EpochRow) (db : Db)
  : bool * Db :=
  let '(fails, db1) := stmt thr db in
  if fails then (false, db1)
  else (true,
        setEpochs (insertOnConflictDoUpdate epochNumber Z.eqb v
                     (epochConflictSet v) (platformEpochFees db1)) db1).

(** [epochStartMs / 1000 < JAN_1_2026_UNIX], on an integer number of
    milliseconds. *)
Definition beforeCutoff (epochStartMs : Z) : bool :=
  epochStartMs <? JAN_1_2026_UNIX * 1000.

(** [for (let epochNum = ...; epochNum >= 0; epochNum--)], started at
    [epochNum]. *)
Fixpoint epochLoop (pf : Platform) (thr : nat -> bool) (fuel : nat)
    (epochNum : Z) (db : Db) (inserted : Z) : Z * Db * list Event :=
  match fuel with
  | O => (inserted, db, [])
  | S f =>
      if epochNum >=? 0 then
        let skip :=
          let '(n, db1, ev) :=
            epochLoop pf thr f (epochNum - 1) db inserted in
          (n, db1, EvFetchEpoch epochNum :: ev) in
        match fetchPlatformEpoch pf epochNum with
        | Some ep =>
            match er_epoch ep with
            | Some e =>
                if beforeCutoff (ei_startTime e)
                then (inserted, db, [EvFetchEpoch epochNum])
                else
                  let '(ok, db1) := upsertEpoch thr (epochValues ep e) db in
                  let '(n, db2, ev) :=
                    epochLoop pf thr f (epochNum - 1) db1
                              (if ok then inserted + 1 else inserted) in
                  (n, db2, EvFetchEpoch epochNum :: EvDelay 200 :: ev)
            | None => skip
            end
        | None => skip
        end
      else (inserted, db, [])
  end.

Definition syncAllPlatformEpochs (pf : Platform) (thr : nat -> bool)
    (db : Db) : Z * Db * list Event :=
  match statusEpochNumber pf with
  | Some currentEpoch =>
      if truthy currentEpoch
      then epochLoop pf thr (Z.to_nat (currentEpoch + 1)) currentEpoch db 0
      else (0, db, [])
  | None => (0, db, [])
  end.

(** ** Masternode counts *)

Record MnCounts := mkMnCounts {
  totalMasternodes : Z;
  evoNodes : Z
}.

Record MnCache := mkMnCache {
  mc_total : Z;
  mc_enabled : Z;
  mc_evoTotal : Z;
  mc_evoEnabled : Z;
  mc_fetchedAt : Z
}.

Definition MN_COUNT_CACHE_MS : Z := 300000.

(** A JSON scalar as far as [===] against a number or a string sees
    it. *)
Inductive JsVal := JNum (z : Z) | JStr (s : string) | JUndef.

Definition isNum (n : Z) (v : JsVal) : bool :=
  match v with JNum z => z =? n | _ => false end.

Definition isStr (s : string) (v : JsVal) : bool :=
  match v with JStr t => String.eqb t s | _ => false end.

Record ProtxState := mkProtxState {
  st_type : JsVal;
  st_status : JsVal;
  st_PoSePenalty : JsVal
}.

Record ProtxEntry := mkProtxEntry {
  pe_type : JsVal;
  pe_state : option ProtxState
}.

Record CountResult := mkCountResult {
  cr_total : option Z;
  cr_enabled : option Z;
  cr_stable : option Z
}.

(** What the three sources answer.  [Threw] is a rejected request;
    for the checkpoint, the outer level is the database read and the
    inner one [JSON.parse] of a non-empty stored text. *)
Record MnUpstream := mkMnUpstream {
  dashCentral : Outcome (option Z * option Z);
  rpcMasternodeCount : Outcome CountResult;
  rpcProtxList : Outcome (option (list ProtxEntry));
  checkpoint : Outcome (option (Outcome (option Z * option Z)))
}.

(** [Math.round(n / 3)] for an integer [n]. *)
Definition roundThird (n : Z) : Z := (2 * n + 3) / 6.

Definition positive (x : option Z) : bool :=
  match x with Some v => v >? 0 | None => false end.

Definition viaDashCentral (m : MnUpstream) (nowMs : Z)
  : option (MnCounts * MnCache) :=
  match dashCentral m with
  | Threw => None
  | Ok (u, w) =>
      let unique := orDefault 0 u in
      let weighted := orDefault 0 w in
      if (unique >? 0) && (weighted >? 0) then
        let evoCount := roundThird (weighted - unique) in
        Some (mkMnCounts unique evoCount,
              mkMnCache unique unique evoCount evoCount nowMs)
      else None
  end.

Definition isEvo (entry : ProtxEntry) : bool :=
  isNum 1 (pe_type entry) || isStr "evo" (pe_type entry)
  || match pe_state entry with
     | Some st => isNum 1 (st_type st)
     | None => false
     end.

Definition isEnabled (entry : ProtxEntry) : bool :=
  match pe_state entry with
  | Some st => isNum 0 (st_status st) || isNum 0 (st_PoSePenalty st)
  | None => false
  end.

Definition countEvoEnabled (l : list ProtxEntry) : Z :=
  fold_left (fun n entry => if isEvo entry && isEnabled entry then n + 1
                            else n) l 0.

Definition viaRpc (m : MnUpstream) (nowMs : Z)
  : option (MnCounts * MnCache) :=
  match rpcMasternodeCount m with
  | Threw => None
  | Ok countResult =>
      let total := orDefault 0 (cr_total countResult) in
      let enabled :=
        orDefault (orDefault total (cr_stable countResult))
                  (cr_enabled countResult) in
      match rpcProtxList m with
      | Threw => None
      | Ok protxList =>
          let evoEnabled :=
            match protxList with
            | Some l => countEvoEnabled l
            | None => 0
            end in
          Some (mkMnCounts enabled evoEnabled,
                mkMnCache total enabled evoEnabled evoEnabled nowMs)
      end
  end.

Definition viaCheckpoint (m : MnUpstream) (nowMs : Z)
  : option (MnCounts * MnCache) :=
  match checkpoint m with
  | Ok (Some (Ok (total, evo))) =>
      if positive evo && positive total then
        Some (mkMnCounts (orZero total) (orZero evo),
              mkMnCache (orZero total) (orZero total) (orZero evo)
                        (orZero evo) nowMs)
      else None
  | _ => None
  end.

Definition defaultMnCounts : MnCounts := mkMnCounts 3700 334.

(** Returns the counts, the new cache, the new source verdict and the
    events.  Every outcome of every request is covered: the function
    has no exceptional result. *)
Definition fetchMasternodeCounts (m : MnUpstream) (u : Upstream)
    (cache : option MnCache) (verdict : option bool)
  : MnCounts * option MnCache * option bool * list Event :=
  let fresh :=
    match cache with
    | Some c => if now u - mc_fetchedAt c <? MN_COUNT_CACHE_MS then Some c
                else None
    | None => None
    end in
  match fresh with
  | Some c => (mkMnCounts (mc_enabled c) (mc_evoEnabled c), cache, verdict, [])
  | None =>
      match viaDashCentral m (now u) with
      | Some (counts, c) => (counts, Some c, verdict, [])
      | None =>
          let '(useRpc, v, ev) := checkRpcAvailability u verdict in
          match (if useRpc then viaRpc m (now u) else None) with
          | Some (counts, c) => (counts, Some c, v, ev)
          | None =>
              match viaCheckpoint m (now u) with
              | Some (counts, c) => (counts, Some c, v, ev)
              | None => (defaultMnCounts, cache, v, ev)
              end
          end
      end
  end.

(** ** Sample data for the concrete runs below *)

(** The payload every fetch yields in the runs below. *)
Definition sampleBlock (h : Z) : BlockData :=
  mkBlockData "00ab" h 1770000000 3 0.5%float 1.75%float.

Definition seeded : Db :=
  mkDb [mkBlockRow "00ff" 150 1770000000 0%float 2%float 1] []
       [("backfill_target_height"%string, 100)] O.

(** The explorer knows epoch 3 only; its fee total has grown to 900. *)
Definition epoch3 : EpochResp :=
  mkEpochResp (Some (mkEpochInfo 3 1770000000000 1770003600000 (Some 2)))
              (Some 900).

Definition explorer : Platform :=
  mkPlatform (Some 3) (fun m => if m =? 3 then Some epoch3 else None).

Definition storedEpoch3 : EpochRow :=
  mkEpochRow 3 1769990000000 1769999000000 500 7.

(** The public API is down, the privileged source answers, and its
    [masternode count] reports no masternodes (a node that has no
    masternode list yet); no checkpoint is stored. *)
Definition zeroCountReply : MnUpstream :=
  mkMnUpstream Threw (Ok (mkCountResult (Some 0) (Some 0) None))
               (Ok (Some [])) (Ok None).

Definition rpcUp : Upstream :=
  mkUpstream true true (Some 2400000) None None (fun _ _ => None)
             (fun _ => false) 1770000000000.

(** ** Notions used by the statements below *)

(** The heights from [c] down to [t], both included. *)
Definition zdown (c t : Z) : list Z :=
  map (fun j => c - j) (zrange 0 (c - t + 1)).

(** A row made by [blockDataToRow] from some payload. *)
Definition converted (r : BlockRow) : Prop :=
  exists v, r = blockDataToRow v.

(** A row made by the backfill walk: the conversion of a payload whose
    time is not before the cutoff. *)
Definition backfilled (r : BlockRow) : Prop :=
  exists v, r = blockDataToRow v /\ JAN_1_2026_UNIX <= bd_time v.

(** [t'] holds nothing beyond [t] but backfilled rows, as the table
    stores them. *)
Definition grownFrom (t t' : list BlockRow) : Prop :=
  forall r, In r t' ->
            In r t \/ exists row, backfilled row /\ r = storedRow row.

(** ** Checks used by the proofs about the subsidy schedule *)

(** The number of reductions after which the schedule has reached its
    floating-point fixed point (used by the proofs below). *)
Definition settle : nat := Z.to_nat 10040.

(** What C5 asks of a value [s] of the schedule and its successor
    [s']: [s'] is within the tolerance of the exact [13/14 * s] and of
    the double [s * 13 / 14]. *)
Definition decays (s s' : float) : bool :=
  Subsidy.close_to_13_14 s s'
  && Subsidy.within_tolerance s' (Subsidy.thirteenFourteenths s).

(** [decays] holds between each of the first [k + 1] values of the
    schedule from [s] on and its successor. *)
Fixpoint closeUpTo (k : nat) (s : float) : bool :=
  decays s (Subsidy.reduce s)
  && match k with
     | O => true
     | S k' => closeUpTo k' (Subsidy.reduce s)
     end.

(** ** Further notions and models *)

(** ** The checkpoint store *)

(** The value [getSyncValue] reads under [k]. *)
Definition storedValue (k : string) (t : list (string * Z)) : option Z :=
  option_map snd (find (fun kv => String.eqb (fst kv) k) t).

(** ** The block table under the two controllers *)

(** [t'] is [t] with rows appended, each of them what the table
    stores of one of [rows]: that row with its fees and reward in
    single precision. *)
Definition extends (rows t t' : list BlockRow) : Prop :=
  exists added, t' = t ++ added /\ incl added (map storedRow rows).

(** The part of the database state that a controller may only extend. *)
Definition keeps (ev : list Event) (db db' : Db) : Prop :=
  extends (insertedRows ev) (coreBlockFees db) (coreBlockFees db')
  /\ (NoDup (map hash (coreBlockFees db)) ->
      NoDup (map hash (coreBlockFees db')))
  /\ platformEpochFees db' = platformEpochFees db.

(** ** Backfill: where a run resumes from *)

(** Two databases that differ at most in the value stored under
    ["backfill_oldest_height"]. *)
Definition sameButCheckpoint (db1 db2 : Db) : Prop :=
  coreBlockFees db1 = coreBlockFees db2
  /\ platformEpochFees db1 = platformEpochFees db2
  /\ stmtNo db1 = stmtNo db2
  /\ forall k, k <> "backfill_oldest_height"%string ->
               storedValue k (syncState db1) = storedValue k (syncState db2).

(** ** Epoch sync: what a run leaves behind *)

Definition fetchedEpochs (evs : list Event) : list Z :=
  flat_map (fun e => match e with EvFetchEpoch n => [n] | _ => [] end) evs.

(** Same epoch, same start, same multiplier. *)
Definition sameEpoch (r r' : EpochRow) : Prop :=
  epochNumber r = epochNumber r' /\ startTime r = startTime r'
  /\ feeMultiplier r = feeMultiplier r'.

(** [t'] comes from [t] by upserts of epochs that start at or after
    the cutoff: nothing is removed, the rows that were there keep
    number, start and multiplier, and what is new starts at or after
    the cutoff. *)
Definition epochsKept (t t' : list EpochRow) : Prop :=
  (forall r, In r t -> exists r', In r' t' /\ sameEpoch r r')
  /\ (forall r', In r' t' ->
        (exists r, In r t /\ sameEpoch r r')
        \/ JAN_1_2026_UNIX * 1000 <= startTime r').

(** The explorer's answer for epoch [m] starts before the cutoff. *)
Definition startsBeforeCutoff (pf : Platform) (m : Z) : Prop :=
  exists ep e, fetchPlatformEpoch pf m = Some ep /\ er_epoch ep = Some e
               /\ beforeCutoff (ei_startTime e) = true.

(** The counts a cache entry stands for. *)
Definition cachedCounts (c : MnCache) : MnCounts :=
  mkMnCounts (mc_enabled c) (mc_evoEnabled c).

(** The cache as a call at time [t] sees it. *)
Definition staleAt (t : Z) (cache : option MnCache) : Prop :=
  forall c, cache = Some c -> MN_COUNT_CACHE_MS <= t - mc_fetchedAt c.

(** [shrinks s s'] : both are finite, and [0 < s' <= s]. *)
Definition shrinks (s s' : float) : bool :=
  match Subsidy.units s, Subsidy.units s' with
  | Some q, Some q' => (0 <? q') && (q' <=? q)
  | _, _ => false
  end.

(** [shrinks] holds between each of the first [k + 1] values of the
    schedule from [s] on and its successor. *)
Fixpoint shrinksUpTo (k : nat) (s : float) : bool :=
  shrinks s (Subsidy.reduce s)
  && match k with
     | O => true
     | S k' => shrinksUpTo k' (Subsidy.reduce s)
     end.

(** The subsidy at [height], in units of [2^-1074]; 0 stands for a
    value that is not finite. *)
Definition subsidyUnits (height : Z) : Z :=
  match Subsidy.units (Subsidy.getBlockSubsidy height) with
  | Some q => q
  | None => 0
  end.

Definition loopUnits (n : nat) : Z :=
  match Subsidy.units (Subsidy.loop n Subsidy.nSubsidyBase) with
  | Some q => q
  | None => 0
  end.

(** ** Price cache *)

Record PriceCache := mkPriceCache {
  pc_usd : float;
  pc_fetchedAt : Z
}.

Definition PRICE_CACHE_MS : Z := 120000.

(** Truthiness of a fractional number: neither NaN nor a zero. *)
Definition truthyF (x : float) : bool :=
  negb (PrimFloat.eqb x 0%float) && PrimFloat.eqb x x.

(** [x || 0] on a fractional number. *)
Definition orZeroF (x : float) : float :=
  if truthyF x then x else 0%float.

(** [answer] is what [parseFloat(data?.last_price_usd)] gives when the
    request succeeds (NaN for a missing or unreadable field), [Threw]
    a failed request.  Returns the price, the new cache and whether
    the request was made. *)
Definition fetchDashPriceUsd (answer : Outcome float) (nowMs : Z)
    (cache : option PriceCache) : float * option PriceCache * bool :=
  let fresh :=
    match cache with
    | Some c => if nowMs - pc_fetchedAt c <? PRICE_CACHE_MS then Some c
                else None
    | None => None
    end in
  match fresh with
  | Some c => (pc_usd c, cache, false)
  | None =>
      match answer with
      | Ok parsed =>
          let price := orZeroF parsed in
          if PrimFloat.ltb 0%float price
          then (price, Some (mkPriceCache price nowMs), true)
          else (price, cache, true)
      | Threw =>
          (match cache with
           | Some c => orZeroF (pc_usd c)
           | None => 0%float
           end, cache, true)
      end
  end.

(** The cache after a sequence of calls, each with its time and the
    answer its request would get. *)
Fixpoint priceCacheAfter (calls : list (Z * Outcome float))
    (cache : option PriceCache) : option PriceCache :=
  match calls with
  | [] => cache
  | (t, a) :: rest =>
      priceCacheAfter rest (snd (fst (fetchDashPriceUsd a t cache)))
  end.

Definition positivePrice (cache : option PriceCache) : Prop :=
  forall c, cache = Some c -> PrimFloat.ltb 0%float (pc_usd c) = true.

(** ** Start-up: seeding, then backfill (routes) *)

(** [for (attempt = a; attempt < 20; attempt++)] with [togo = 20 - a]
    passes to go; [us attempt] is what the outside answers during that
    attempt.  Returns the counts the attempts gave, the waits made, the
    state and the events. *)
Fixpoint seedLoop (us : nat -> Upstream) (togo attempt : nat)
    (sv : Service) (db : Db)
  : list Z * list Z * Service * Db * list Event :=
  match togo with
  | O => ([], [], sv, db, [])
  | S k =>
      let '(count, sv1, db1, ev) := syncNewCoreBlocks (us attempt) sv db in
      if count >? 0 then ([count], [], sv1, db1, ev)
      else
        let wait := 5000 + Z.of_nat attempt * 3000 in
        let '(cs, ws, sv2, db2, ev') :=
          seedLoop us k (S attempt) sv1 db1 in
        (count :: cs, wait :: ws, sv2, db2, ev ++ ev')
  end.

(** [seedAndBackfill]: the seeding attempts, then [startCoreBackfill]
    in every case; [ub] is what the outside answers during the
    backfill. *)
Definition seedAndBackfill (us : nat -> Upstream) (ub : Upstream)
    (fuel : nat) (sv : Service) (db : Db)
  : list Z * list Z * bool * Service * Db * list Event :=
  let '(cs, ws, sv1, db1, ev1) := seedLoop us 20 0 sv db in
  let '(returned, sv2, db2, ev2) := startCoreBackfill ub fuel sv1 db1 in
  (cs, ws, returned, sv2, db2, ev1 ++ ev2).

Definition sumZ (l : list Z) : Z := fold_right Z.add 0 l.

(** The waits of the seeding attempts [a], [a + 1], ..., [a + k - 1]. *)
Definition seedWaits (a : Z) (k : nat) : list Z :=
  map (fun i => 5000 + i * 3000) (countUp k a).

(** ** Recent epochs *)

(** The inner [for (i = ...; i < hi; i++)] with its [break]: the epoch
    numbers one batch asks for. *)
Fixpoint recentBatch (fuel : nat) (currentEpoch i hi : Z) : list Z :=
  match fuel with
  | O => []
  | S f =>
      if i <? hi then
        let epochNum := currentEpoch - i in
        if epochNum <? 0 then []
        else epochNum :: recentBatch f currentEpoch (i + 1) hi
      else []
  end.

(** [for (batchStart = b; batchStart < count; batchStart += 5)]:
    the answers kept (fulfilled and not null, in the order asked) and
    the events. *)
Fixpoint recentLoop (pf : Platform) (fuel : nat)
    (currentEpoch count batchStart : Z) : list EpochResp * list Event :=
  match fuel with
  | O => ([], [])
  | S f =>
      if batchStart <? count then
        let asked := recentBatch 5 currentEpoch batchStart
                                 (Z.min (batchStart + 5) count) in
        let got := flat_map (fun n => match fetchPlatformEpoch pf n with
                                      | Some r => [r]
                                      | None => []
                                      end) asked in
        let evd := if batchStart + 5 <? count then [EvDelay 200] else [] in
        let '(rest, ev) :=
          recentLoop pf f currentEpoch count (batchStart + 5) in
        (got ++ rest, map EvFetchEpoch asked ++ evd ++ ev)
      else ([], [])
  end.

(** The outer loop needs at most [count] passes, which is the fuel it
    gets. *)
Definition fetchRecentPlatformEpochs (pf : Platform) (count : Z)
  : list EpochResp * list Event :=
  match statusEpochNumber pf with
  | Some currentEpoch =>
      if truthy currentEpoch
      then recentLoop pf (Z.to_nat count) currentEpoch count 0
      else ([], [])
  | None => ([], [])
  end.

(** [Math.min(parseInt(req.query.count) || 20, 100)] of the epochs
    route; [None] is a missing or unreadable parameter. *)
Definition epochsRouteCount (q : option Z) : Z :=
  Z.min (orDefault 20 q) 100.

(** The answers kept for a list of epoch numbers. *)
Definition answered (pf : Platform) (l : list Z) : list EpochResp :=
  flat_map (fun n => match fetchPlatformEpoch pf n with
                     | Some r => [r]
                     | None => []
                     end) l.

(** ** Validators *)

(** The explorer's reply as far as the function reads it: each
    validator by its [proTxInfo?.type], and [pagination?.total]. *)
Record ValidatorsReply := mkValidatorsReply {
  vr_resultSet : option (list JsVal);
  vr_total : option Z
}.

Record ValidatorCounts := mkValidatorCounts {
  vc_total : Z;
  vc_evoCount : Z;
  vc_regularCount : Z;
  vc_validators : list JsVal
}.

(** The [for (const v of validators)] loop on the two counters. *)
Definition countValidators (validators : list JsVal) : Z * Z :=
  fold_left (fun acc v => if isStr "Evo" v then (fst acc + 1, snd acc)
                          else (fst acc, snd acc + 1))
            validators (0, 0).

Definition fetchPlatformValidators (answer : Outcome ValidatorsReply)
  : ValidatorCounts :=
  match answer with
  | Ok data =>
      let validators := match vr_resultSet data with
                        | Some l => l
                        | None => []
                        end in
      let total := orDefault (Z.of_nat (List.length validators))
                             (vr_total data) in
      let counts := countValidators validators in
      mkValidatorCounts total (fst counts) (snd counts) validators
  | Threw => mkValidatorCounts 0 0 0 []
  end.

(** ** Height range *)

(** [getCoreHeightRange]: one statement; it has no [try], so a failed
    statement is the caller's exception. *)
Definition getCoreHeightRange (dbThrows : nat -> bool) (db : Db)
  : Outcome (Z * Z * Z) * Db :=
  let '(fails, db1) := stmt dbThrows db in
  if fails then (Threw, db1)
  else (Ok (orDefault 0 (minHeight (coreBlockFees db1)),
            orDefault 0 (maxHeight (coreBlockFees db1)),
            orDefault 0 (Some (Z.of_nat (List.length (coreBlockFees db1))))),
        db1).

(** ** Aggregation of the block series (routes) *)

Record AggregatedBlock := mkAggregatedBlock {
  ab_t : Z;
  ab_fees : float;
  ab_reward : float;
  ab_height : Z;
  ab_txCount : Z;
  ab_blockCount : Z
}.

Section Aggregation.

(** [getBucketKey(., range)] for the range of the request: the start
    of the hour, day or month of a timestamp in the server's time
    zone. *)
Variable bucketKey : Z -> Z.

(** The [if (existing) ... else ...] of the loop body on the [Map],
    which keeps its entries in the order of their first [set]. *)
Definition addBlock (buckets : list AggregatedBlock) (b : BlockRow)
  : list AggregatedBlock :=
  let key := bucketKey (time b) in
  if existsb (fun e => ab_t e =? key) buckets
  then map (fun existing =>
              if ab_t existing =? key
              then mkAggregatedBlock
                     (ab_t existing)
                     (PrimFloat.add (ab_fees existing) (totalFees b))
                     (PrimFloat.add (ab_reward existing) (reward b))
                     (Z.max (ab_height existing) (height b))
                     (ab_txCount existing + txCount b)
                     (ab_blockCount existing + 1)
              else existing) buckets
  else buckets ++ [mkAggregatedBlock key (totalFees b) (reward b)
                                     (height b) (txCount b) 1].

(** [.sort((a, b) => a.t - b.t)], as an insertion sort. *)
Fixpoint insertByT (x : AggregatedBlock) (l : list AggregatedBlock)
  : list AggregatedBlock :=
  match l with
  | [] => [x]
  | y :: rest => if ab_t x <? ab_t y then x :: l
                 else y :: insertByT x rest
  end.

Definition sortByT (l : list AggregatedBlock) : list AggregatedBlock :=
  fold_left (fun sorted x => insertByT x sorted) l [].

Definition aggregateCoreBlocks (blocks : list BlockRow)
  : list AggregatedBlock :=
  sortByT (fold_left addBlock blocks []).

End Aggregation.

(** What the buckets [bs] say of the blocks [blocks] under [key]. *)
Definition summarises (key : Z -> Z) (blocks : list BlockRow)
    (bs : list AggregatedBlock) : Prop :=
  sumZ (map ab_blockCount bs) = Z.of_nat (List.length blocks)
  /\ sumZ (map ab_txCount bs) = sumZ (map txCount blocks)
  /\ (forall e, In e bs ->
        1 <= ab_blockCount e
        /\ exists b, In b blocks /\ key (time b) = ab_t e
                     /\ height b = ab_height e)
  /\ (forall b, In b blocks ->
        exists e, In e bs /\ ab_t e = key (time b)
                  /\ height b <= ab_height e).

(** ** Import of a backfill file (routes) *)

Definition CHUNK : nat := 500.

(** [db.insert(coreBlockFees).values(values).onConflictDoNothing()]:
    one statement for all the rows; a row whose hash is stored, or
    comes earlier in the same statement, is skipped. *)
Definition insertRows (dbThrows : nat -> bool) (values : list BlockRow)
    (db : Db) : Outcome unit * Db :=
  let '(fails, db1) := stmt dbThrows db in
  if fails then (Threw, db1)
  else (Ok tt,
        setBlocks (fold_left
                     (fun t r => insertOnConflictDoNothing hash String.eqb
                                   (storedRow r) t)
                     values (coreBlockFees db1)) db1).

(** [for (let i = 0; i < rows.length; i += CHUNK)], started at [i];
    the statement is not in a [try] of its own, so its exception ends
    the loop. *)
Fixpoint importLoop (dbThrows : nat -> bool) (fuel : nat)
    (rows : list BlockRow) (i : nat) (db : Db) (inserted : Z)
  : Outcome Z * Db :=
  match fuel with
  | O => (Ok inserted, db)
  | S f =>
      if (i <? List.length rows)%nat then
        let chunk := firstn CHUNK (skipn i rows) in
        let '(r, db1) := insertRows dbThrows chunk db in
        match r with
        | Threw => (Threw, db1)
        | Ok _ =>
            importLoop dbThrows f rows (i + CHUNK) db1
                       (inserted + Z.of_nat (List.length chunk))
        end
      else (Ok inserted, db)
  end.

(** The import route from the parsed file on: [Ok (imported, total)]
    is the reply, [Threw] the 500 answer. *)
Definition importBackfill (dbThrows : nat -> bool) (rows : list BlockRow)
    (db : Db) : Outcome (Z * Z) * Db :=
  let '(r, db') := importLoop dbThrows (List.length rows) rows 0 db 0 in
  (match r with
   | Ok inserted => Ok (inserted, Z.of_nat (List.length rows))
   | Threw => Threw
   end, db').

(** ** What the service does to the database afterwards *)

(** [later db db'] : [db'] is reached from [db] by calls of the
    functions that write to the database or count a statement on it,
    in any number and order, with any answers from the outside. *)
Inductive later (db : Db) : Db -> Prop :=
| later_now : later db db
| later_forward_sync (u : Upstream) (sv : Service) (db' : Db) :
    later db db' ->
    later db (snd (fst (syncNewCoreBlocks u sv db')))
| later_backfill (u : Upstream) (fuel : nat) (sv : Service) (db' : Db) :
    later db db' ->
    later db (snd (fst (startCoreBackfill u fuel sv db')))
| later_target (u : Upstream) (db' : Db) :
    later db db' ->
    later db (snd (fst (estimateTargetHeight u db')))
| later_epoch_sync (pf : Platform) (thr : nat -> bool) (db' : Db) :
    later db db' ->
    later db (snd (fst (syncAllPlatformEpochs pf thr db')))
| later_import (thr : nat -> bool) (rows : list BlockRow) (db' : Db) :
    later db db' ->
    later db (snd (importBackfill thr rows db'))
| later_range (thr : nat -> bool) (db' : Db) :
    later db db' ->
    later db (snd (getCoreHeightRange thr db'))
| later_saved_counts (thr : nat -> bool) (v : Z) (db' : Db) :
    later db db' ->
    later db (snd (setSyncValue thr "masternode_counts" v db')).

(** The target stored under ["backfill_target_height"] is [n]. *)
Definition targetKept (n : Z) (db : Db) : Prop :=
  storedValue "backfill_target_height" (syncState db) = Some n.

(** * Properties *)

(** ** Subsidy schedule *)

Lemma loop_succ_r (n : nat) (s : float) :
  Subsidy.loop (S n) s = Subsidy.reduce (Subsidy.loop n s).
Proof.
  revert s; induction n as [|n IH]; intro s; [reflexivity|].
  change (Subsidy.loop (S (S n)) s)
    with (Subsidy.loop (S n) (Subsidy.reduce s)).
  rewrite IH. reflexivity.
Qed.

Lemma settled :
  Subsidy.loop (S settle) Subsidy.nSubsidyBase
  = Subsidy.loop settle Subsidy.nSubsidyBase.
Proof. vm_compute. reflexivity. Qed.

Lemma settled_from (n : nat) :
  (settle <= n)%nat ->
  Subsidy.loop n Subsidy.nSubsidyBase
  = Subsidy.loop settle Subsidy.nSubsidyBase.
Proof.
  induction 1 as [|n Hle IH]; [reflexivity|].
  rewrite loop_succ_r, IH, <- loop_succ_r. apply settled.
Qed.

Lemma closeUpTo_sound (k : nat) :
  forall s, closeUpTo k s = true ->
  forall n, (n <= k)%nat ->
  decays (Subsidy.loop n s) (Subsidy.reduce (Subsidy.loop n s)) = true.
Proof.
  induction k as [|k IH]; intros s H n Hn; simpl in H;
    apply andb_prop in H; destruct H as [H0 Hk].
  - assert (n = O) by lia. subst n. exact H0.
  - destruct n as [|n]; [exact H0|].
    simpl Subsidy.loop. apply IH; [exact Hk | lia].
Qed.

Lemma close_prefix : closeUpTo settle Subsidy.nSubsidyBase = true.
Proof. vm_compute. reflexivity. Qed.

Lemma schedule_close (n : nat) :
  decays (Subsidy.loop n Subsidy.nSubsidyBase)
         (Subsidy.reduce (Subsidy.loop n Subsidy.nSubsidyBase)) = true.
Proof.
  destruct (Nat.le_gt_cases n settle) as [Hle|Hgt].
  - apply (closeUpTo_sound settle _ close_prefix n Hle).
  - rewrite (settled_from n) by lia.
    apply (closeUpTo_sound settle _ close_prefix settle). lia.
Qed.

Lemma reductions_next (h : Z) :
  Subsidy.reductions (h + Subsidy.reductionInterval)
  = Subsidy.reductions h + 1.
Proof.
  unfold Subsidy.reductions, Subsidy.reductionInterval.
  replace (h + 210240) with (h + 1 * 210240) by lia.
  rewrite Z.div_add by lia. reflexivity.
Qed.

(** C5: inside one reduction era the subsidy does not depend on the
    height; one reduction interval later it is the previous subsidy
    minus its fourteenth (the loop body, once more), which is within
    [2^-50] of 13/14 of the previous subsidy, taken exactly, and within
    [2^-50] of the double [subsidy * 13 / 14].  Heights are
    non-negative. *)
Theorem subsidy_constant_in_era_and_decays (h1 h2 h : Z) :
  h1 < h2 ->
  h1 / Subsidy.reductionInterval = h2 / Subsidy.reductionInterval ->
  0 <= h ->
  Subsidy.getBlockSubsidy h1 = Subsidy.getBlockSubsidy h2
  /\ Subsidy.getBlockSubsidy (h + Subsidy.reductionInterval)
     = Subsidy.reduce (Subsidy.getBlockSubsidy h)
  /\ Subsidy.close_to_13_14 (Subsidy.getBlockSubsidy h)
       (Subsidy.getBlockSubsidy (h + Subsidy.reductionInterval)) = true
  /\ Subsidy.within_tolerance
       (Subsidy.getBlockSubsidy (h + Subsidy.reductionInterval))
       (Subsidy.thirteenFourteenths (Subsidy.getBlockSubsidy h)) = true.
Proof.
  intros _ Hera Hh.
  assert (Hstep : Subsidy.getBlockSubsidy (h + Subsidy.reductionInterval)
                  = Subsidy.reduce (Subsidy.getBlockSubsidy h)).
  { unfold Subsidy.getBlockSubsidy. rewrite reductions_next.
    assert (0 <= Subsidy.reductions h)
      by (apply Z.div_pos; [exact Hh | reflexivity]).
    rewrite Z2Nat.inj_add by lia.
    change (Z.to_nat 1) with 1%nat. rewrite Nat.add_1_r.
    apply loop_succ_r. }
  pose proof (schedule_close (Z.to_nat (Subsidy.reductions h))) as Hclose.
  fold (Subsidy.getBlockSubsidy h) in Hclose.
  apply andb_prop in Hclose. destruct Hclose as [Hexact Hdouble].
  split; [|split; [|split]].
  - unfold Subsidy.getBlockSubsidy, Subsidy.reductions.
    rewrite Hera. reflexivity.
  - exact Hstep.
  - rewrite Hstep. exact Hexact.
  - rewrite Hstep. exact Hdouble.
Qed.

Lemma subsidy_constant_in_era_and_decays_witness :
  Subsidy.getBlockSubsidy 2400000 = Subsidy.getBlockSubsidy 2400001
  /\ Subsidy.getBlockSubsidy (2400000 + Subsidy.reductionInterval)
     = Subsidy.reduce (Subsidy.getBlockSubsidy 2400000)
  /\ Subsidy.close_to_13_14 (Subsidy.getBlockSubsidy 2400000)
       (Subsidy.getBlockSubsidy (2400000 + Subsidy.reductionInterval))
     = true
  /\ Subsidy.within_tolerance
       (Subsidy.getBlockSubsidy (2400000 + Subsidy.reductionInterval))
       (Subsidy.thirteenFourteenths (Subsidy.getBlockSubsidy 2400000))
     = true.
Proof.
  apply (subsidy_constant_in_era_and_decays 2400000 2400001 2400000);
    [lia | reflexivity | lia].
Defined.

(** ** Superblocks *)

Lemma isSuperblock_multiple (h : Z) :
  h mod superblockCycle = 0 -> isSuperblock h = true.
Proof.
  intro H. unfold isSuperblock. apply Z.eqb_eq.
  apply Z.rem_mod_eq_0; [discriminate | exact H].
Qed.

(** A converted payload at a superblock height carries no fees. *)
Lemma converted_superblock (r : BlockRow) :
  converted r -> height r mod superblockCycle = 0 -> totalFees r = 0%float.
Proof.
  intros (v & ->) H. unfold blockDataToRow. simpl in H |- *.
  rewrite (isSuperblock_multiple _ H). reflexivity.
Qed.

(** ** Source selector *)

(** C2 does not hold as the specification states it: a cached [true]
    survives the periodic step. *)
Lemma invalidate_keeps_true_verdict :
  invalidate (Some true) = Some true
  /\ invalidate (Some true) <> None
  /\ checkRpcAvailability
       (mkUpstream true false None None None (fun _ _ => None)
                   (fun _ => false) 0)
       (invalidate (Some true)) = (true, Some true, []).
Proof. repeat split. discriminate. Qed.

(** C2, as the code has it: the periodic step resets a cached [false] (and leaves
    unknown unknown), after which the next check of a configured source
    probes once and caches the probe's answer; a cached [true] is kept,
    and the next check answers [true] without probing. *)
Theorem invalidate_resets_all_but_true (u : Upstream) (v : option bool) :
  (v <> Some true ->
   invalidate v = None
   /\ (rpcConfigured u = true ->
       checkRpcAvailability u (invalidate v)
       = (rpcProbe u, Some (rpcProbe u), [EvProbe])))
  /\ (v = Some true ->
      invalidate v = Some true
      /\ checkRpcAvailability u (invalidate v) = (true, Some true, [])).
Proof.
  split.
  - intro Hv.
    assert (Hinv : invalidate v = None)
      by (destruct v as [[|]|]; [congruence | reflexivity | reflexivity]).
    split; [exact Hinv|].
    intro Hc. rewrite Hinv. unfold checkRpcAvailability. rewrite Hc. simpl.
    destruct (rpcProbe u); reflexivity.
  - intros ->. split; reflexivity.
Qed.

Lemma invalidate_resets_all_but_true_witness :
  invalidate (Some false) = None
  /\ checkRpcAvailability
       (mkUpstream true true None None None (fun _ _ => None)
                   (fun _ => false) 0)
       (invalidate (Some false)) = (true, Some true, [EvProbe]).
Proof.
  pose proof (invalidate_resets_all_but_true
                (mkUpstream true true None None None (fun _ _ => None)
                            (fun _ => false) 0) (Some false)) as [H _].
  destruct (H ltac:(discriminate)) as [H1 H2].
  split; [exact H1 | exact (H2 eq_refl)].
Defined.

(** ** Conflict-safe insert *)

Section TableFacts.

Variables (Row Key : Type) (key : Row -> Key) (eqb : Key -> Key -> bool).

Lemma hasKey_rowsWith (k : Key) (t : list Row) :
  hasKey key eqb k t = false <-> rowsWith key eqb k t = [].
Proof.
  unfold hasKey, rowsWith. induction t as [|r t IH]; simpl.
  - split; reflexivity.
  - destruct (eqb (key r) k); simpl.
    + split; discriminate.
    + exact IH.
Qed.

Lemma rowsWith_app (k : Key) (t1 t2 : list Row) :
  rowsWith key eqb k (t1 ++ t2)
  = rowsWith key eqb k t1 ++ rowsWith key eqb k t2.
Proof. apply filter_app. Qed.

End TableFacts.

Arguments hasKey_rowsWith {Row Key} key eqb k t.
Arguments rowsWith_app {Row Key} key eqb k t1 t2.




(** The table keeps fees and reward in single precision: a new row
    sent with fees 1.87013502 is stored with the nearest
    single-precision value, 1.8701350688934326, which is another
    double; a reward of 3.625 is kept as it is. *)
Lemma insertBlockRow_stores_single_precision :
  let row := mkBlockRow "00cd" 2400001 1770000150
                        0x1.dec12b2e011a3p+0%float 0x1.dp+1%float 4 in
  let db := mkDb [] [] [] O in
  coreBlockFees (snd (insertBlockRow (fun _ => false) row db))
  = [mkBlockRow "00cd" 2400001 1770000150
                0x1.dec12cp+0%float 0x1.dp+1%float 4]
  /\ PrimFloat.eqb (totalFees row) 0x1.dec12cp+0%float = false.
Proof. split; vm_compute; reflexivity. Qed.

(** ** Event traces *)

Lemma fetchedHeights_app (a b : list Event) :
  fetchedHeights (a ++ b) = fetchedHeights a ++ fetchedHeights b.
Proof. apply flat_map_app. Qed.

Lemma insertedRows_app (a b : list Event) :
  insertedRows (a ++ b) = insertedRows a ++ insertedRows b.
Proof. apply flat_map_app. Qed.

Lemma delays_app (a b : list Event) :
  delays (a ++ b) = delays a ++ delays b.
Proof. apply flat_map_app. Qed.

Lemma fetchedHeights_fetches (hs : list Z) :
  fetchedHeights (map EvFetch hs) = hs.
Proof.
  induction hs as [|h hs IH]; [reflexivity|].
  simpl. f_equal. exact IH.
Qed.

Lemma insertedRows_fetches (hs : list Z) :
  insertedRows (map EvFetch hs) = [].
Proof. induction hs as [|h hs IH]; [reflexivity | exact IH]. Qed.

Lemma delays_fetches (hs : list Z) : delays (map EvFetch hs) = [].
Proof. induction hs as [|h hs IH]; [reflexivity | exact IH]. Qed.

Lemma checkRpcAvailability_quiet (u : Upstream) (v : option bool) :
  let ev := snd (checkRpcAvailability u v) in
  fetchedHeights ev = [] /\ insertedRows ev = [] /\ delays ev = [].
Proof.
  unfold checkRpcAvailability.
  destruct v as [b|]; [repeat split|].
  destruct (rpcConfigured u); simpl; [|repeat split].
  destruct (rpcProbe u); repeat split.
Qed.

Lemma fetchCoreStatus_events (u : Upstream) (sv : Service) :
  snd (fetchCoreStatus u sv) = snd (checkRpcAvailability u (rpcAvailable sv)).
Proof.
  unfold fetchCoreStatus.
  destruct (checkRpcAvailability u (rpcAvailable sv)) as [[useRpc v] ev].
  simpl.
  destruct (if useRpc then rpcBlockCount u else None); [reflexivity|].
  destruct (insightBlocks u) as [b|];
    [destruct (truthy b); [reflexivity|]|];
    (destruct (blockbookBest u) as [c|];
       [destruct (truthy c); reflexivity | reflexivity]).
Qed.

(** ** Ranges *)

Lemma countUp_app (a b : nat) (x : Z) :
  countUp (a + b) x = countUp a x ++ countUp b (x + Z.of_nat a).
Proof.
  revert x; induction a as [|a IH]; intro x.
  - simpl. f_equal. lia.
  - simpl countUp. rewrite IH. simpl. do 3 f_equal. lia.
Qed.

Lemma zrange_split (lo mid hi : Z) :
  lo <= mid <= hi -> zrange lo hi = zrange lo mid ++ zrange mid hi.
Proof.
  intro H. unfold zrange.
  replace (Z.to_nat (hi - lo))
    with (Z.to_nat (mid - lo) + Z.to_nat (hi - mid))%nat by lia.
  rewrite countUp_app. do 2 f_equal. lia.
Qed.

Lemma zrange_empty (lo hi : Z) : hi <= lo -> zrange lo hi = [].
Proof.
  intro H. unfold zrange.
  replace (Z.to_nat (hi - lo)) with O by lia. reflexivity.
Qed.

Lemma countUp_length (n : nat) (x : Z) : List.length (countUp n x) = n.
Proof.
  revert x; induction n as [|n IH]; intro x; simpl; [|rewrite IH]; reflexivity.
Qed.

(** ** Forward sync *)

Lemma storeFetched_events (thr : nat -> bool)
    (results : list (option BlockData)) :
  forall db n,
    let ev := snd (storeFetched thr results db n) in
    fetchedHeights ev = [] /\ delays ev = [].
Proof.
  induction results as [|[v|] rest IH]; intros db n; simpl.
  - split; reflexivity.
  - destruct (insertBlockRow thr (blockDataToRow v) db) as [ok db1].
    specialize (IH db1 (if ok then n + 1 else n)).
    destruct (storeFetched thr rest db1 (if ok then n + 1 else n))
      as [[db2 m] ev].
    exact IH.
  - apply IH.
Qed.

Lemma forwardLoop_heights (u : Upstream) (cur toFetch size wait : Z) :
  1 <= size ->
  forall fuel i batch db n,
    toFetch - i <= Z.of_nat fuel ->
    fetchedHeights
      (snd (forwardLoop u fuel cur toFetch size wait i batch db n))
    = map (fun j => cur - j) (zrange i toFetch).
Proof.
  intros Hsize fuel.
  induction fuel as [|fuel IH]; intros i batch db n Hfuel.
  - simpl. rewrite zrange_empty by lia. reflexivity.
  - simpl. destruct (i <? toFetch) eqn:Hi.
    + apply Z.ltb_lt in Hi.
      set (hi := Z.min (i + size) toFetch).
      set (hs := map (fun j => cur - j) (zrange i hi)).
      pose proof (storeFetched_events (dbThrows u)
                    (map (fetchBlock u batch) hs) db n) as Hst.
      destruct (storeFetched (dbThrows u) (map (fetchBlock u batch) hs) db n)
        as [[db1 n1] ev1].
      specialize (IH (i + size) (S batch) db1 n1 ltac:(lia)).
      destruct (forwardLoop u fuel cur toFetch size wait (i + size)
                  (S batch) db1 n1) as [[db2 n2] ev2].
      simpl in *. destruct Hst as [Hst _].
      rewrite !fetchedHeights_app, fetchedHeights_fetches, Hst, IH.
      assert (Hd : fetchedHeights
                     (if i + size <? toFetch then [EvDelay wait] else []) = [])
        by (destruct (i + size <? toFetch); reflexivity).
      rewrite Hd. simpl. unfold hs.
      rewrite (zrange_split i hi toFetch) by (unfold hi; lia).
      rewrite map_app. f_equal.
      unfold hi. destruct (Z.min_spec (i + size) toFetch) as [[_ ->]|[Hge ->]].
      * reflexivity.
      * rewrite (zrange_empty toFetch), (zrange_empty (i + size)) by lia.
        reflexivity.
    + apply Z.ltb_ge in Hi. simpl.
      rewrite zrange_empty by lia. reflexivity.
Qed.

(** C3 does not hold as the specification states it on an empty
    cache: twenty heights are asked for, not
    [min(currentHeight - 0, 50)]. *)
Lemma empty_cache_fetches_twenty :
  let u := mkUpstream false false None (Some 1000) None (fun _ _ => None)
                      (fun _ => false) 0 in
  let ev := snd (syncNewCoreBlocks u initialService (mkDb [] [] [] O)) in
  maxHeight (coreBlockFees (mkDb [] [] [] O)) = None
  /\ Z.min (1000 - 0) 50 = 50
  /\ List.length (fetchedHeights ev) = 20%nat
  /\ fetchedHeights ev = map (fun j => 1000 - j) (zrange 0 20).
Proof. vm_compute. repeat split. Qed.

(** C3, as the code has it: when the cached maximum is positive and below the live
    height, forward sync asks for exactly
    [min(currentHeight - cachedMax, 50)] heights, the most recent ones,
    from [currentHeight] downwards; on an empty cache it asks for
    exactly 20 heights, from [currentHeight] downwards. *)
Theorem forward_sync_fetches_most_recent
    (u : Upstream) (sv : Service) (db : Db) (cur : Z) :
  dbThrows u (stmtNo db) = false ->
  fst (fst (fetchCoreStatus u sv)) = Some cur ->
  let highest := orZero (maxHeight (coreBlockFees db)) in
  0 <= highest < cur ->
  let n := if highest =? 0 then 20 else Z.min (cur - highest) 50 in
  let heights := fetchedHeights (snd (syncNewCoreBlocks u sv db)) in
  heights = map (fun j => cur - j) (zrange 0 n)
  /\ List.length heights = Z.to_nat n.
Proof.
  intros Hdb Hst highest Hh n heights.
  assert (Hheights : heights = map (fun j => cur - j) (zrange 0 n)).
  { unfold heights, syncNewCoreBlocks, stmt. rewrite Hdb. simpl.
    fold highest.
    pose proof (fetchCoreStatus_events u sv) as Hev.
    destruct (fetchCoreStatus u sv) as [[st sv1] ev0]. simpl in Hst, Hev.
    subst st.
    assert (Hcur : truthy cur = true)
      by (unfold truthy; apply negb_true_iff, Z.eqb_neq; lia).
    rewrite Hcur. simpl.
    assert (Hskip : truthy highest && (cur <=? highest) = false).
    { apply andb_false_iff. right. apply Z.leb_gt. lia. }
    rewrite Hskip.
    pose proof (checkRpcAvailability_quiet u (rpcAvailable sv1)) as Hq1.
    destruct (checkRpcAvailability u (rpcAvailable sv1)) as [[useRpc v] ev1].
    assert (HtoFetch : forwardToFetch highest cur = n).
    { unfold forwardToFetch, truthy, n.
      destruct (highest =? 0); reflexivity. }
    rewrite HtoFetch.
    set (size := if useRpc then 10 else 2).
    set (wait := if useRpc then 100 else 2000).
    pose proof (forwardLoop_heights u cur n size wait
                  ltac:(unfold size; destruct useRpc; lia)
                  (Z.to_nat n) 0 O
                  (mkDb (coreBlockFees db) (platformEpochFees db)
                        (syncState db) (S (stmtNo db))) 0
                  ltac:(lia)) as Hloop.
    destruct (forwardLoop u (Z.to_nat n) cur n size wait 0 0
                (mkDb (coreBlockFees db) (platformEpochFees db)
                      (syncState db) (S (stmtNo db))) 0)
      as [[db2 inserted] ev2].
    simpl in *.
    rewrite !fetchedHeights_app, Hloop, Hev.
    destruct (checkRpcAvailability_quiet u (rpcAvailable sv)) as [-> _].
    destruct Hq1 as [-> _]. reflexivity. }
  split; [exact Hheights|].
  rewrite Hheights, length_map. unfold zrange. rewrite countUp_length.
  f_equal. lia.
Qed.

Lemma forward_sync_fetches_most_recent_witness :
  let u := mkUpstream false false None (Some 163) None (fun _ _ => None)
                      (fun _ => false) 0 in
  let db := mkDb [mkBlockRow "00ab" 150 1770000000 0%float 2%float 1] [] [] O in
  fetchedHeights (snd (syncNewCoreBlocks u initialService db))
  = map (fun j => 163 - j) (zrange 0 13).
Proof.
  intros u db.
  apply (forward_sync_fetches_most_recent u initialService db 163);
    [reflexivity | reflexivity | simpl; lia].
Defined.

(** ** Backfill: what gets inserted *)

Lemma grownFrom_refl (t : list BlockRow) : grownFrom t t.
Proof. intros r H. left. exact H. Qed.

Lemma grownFrom_trans (t1 t2 t3 : list BlockRow) :
  grownFrom t1 t2 -> grownFrom t2 t3 -> grownFrom t1 t3.
Proof.
  intros H12 H23 r H. destruct (H23 r H) as [H2|Hb]; [|right; exact Hb].
  apply H12, H2.
Qed.

Lemma insertBlockRow_table (thr : nat -> bool) (row : BlockRow) (db : Db) :
  forall r, In r (coreBlockFees (snd (insertBlockRow thr row db))) ->
            In r (coreBlockFees db) \/ r = storedRow row.
Proof.
  intro r. unfold insertBlockRow, stmt.
  destruct (thr (stmtNo db)); simpl; [tauto|].
  unfold insertOnConflictDoNothing.
  destruct (hasKey hash String.eqb (hash (storedRow row)) (coreBlockFees db));
    [tauto|].
  intro H. apply in_app_or in H. destruct H as [H|[H|[]]]; [tauto|].
  right. symmetry. exact H.
Qed.

Lemma setSyncValue_blocks (thr : nat -> bool) (k : string) (v : Z) (db : Db) :
  coreBlockFees (snd (setSyncValue thr k v db)) = coreBlockFees db.
Proof.
  unfold setSyncValue, stmt. destruct (thr (stmtNo db)); reflexivity.
Qed.

Lemma getSyncValue_blocks (thr : nat -> bool) (k : string) (db : Db) :
  coreBlockFees (snd (getSyncValue thr k db)) = coreBlockFees db.
Proof.
  unfold getSyncValue, stmt. destruct (thr (stmtNo db)); reflexivity.
Qed.

Lemma estimateTargetHeight_quiet (u : Upstream) (db : Db) :
  let '(_, db', ev) := estimateTargetHeight u db in
  coreBlockFees db' = coreBlockFees db
  /\ insertedRows ev = [] /\ fetchedHeights ev = [] /\ delays ev = [].
Proof.
  unfold estimateTargetHeight.
  pose proof (getSyncValue_blocks (dbThrows u) "backfill_target_height" db)
    as Hget.
  destruct (getSyncValue (dbThrows u) "backfill_target_height" db)
    as [saved db1].
  simpl in Hget.
  destruct saved as [[n|]|]; [repeat split; exact Hget | | repeat split; exact Hget].
  unfold stmt. destruct (dbThrows u (stmtNo db1)); simpl;
    [repeat split; exact Hget|].
  destruct (maxHeight (coreBlockFees db1)) as [latest|];
    [|repeat split; exact Hget].
  destruct (truthy latest); [|repeat split; exact Hget].
  match goal with
  | |- context [setSyncValue ?t ?k ?v ?d] =>
      pose proof (setSyncValue_blocks t k v d) as Hset;
      destruct (setSyncValue t k v d) as [r db3]
  end.
  simpl in Hset.
  destruct r; repeat split; rewrite Hset; exact Hget.
Qed.

Lemma storeBackfilled_cutoff (thr : nat -> bool)
    (results : list (option BlockData)) :
  forall db n f,
    let '(db', _, _, ev) := storeBackfilled thr results db n f in
    Forall backfilled (insertedRows ev)
    /\ grownFrom (coreBlockFees db) (coreBlockFees db')
    /\ fetchedHeights ev = [] /\ delays ev = [].
Proof.
  induction results as [|[v|] rest IH]; intros db n f; simpl.
  - repeat split; [constructor | apply grownFrom_refl].
  - destruct (bd_time v >=? JAN_1_2026_UNIX) eqn:Ht; [|apply IH].
    pose proof (insertBlockRow_table thr (blockDataToRow v) db) as Hins.
    destruct (insertBlockRow thr (blockDataToRow v) db) as [ok db1].
    specialize (IH db1 (if ok then n + 1 else n) f).
    destruct (storeBackfilled thr rest db1 (if ok then n + 1 else n) f)
      as [[[db2 m] g] ev].
    destruct IH as (Hall & Hgrow & Hf & Hd).
    assert (Hb : backfilled (blockDataToRow v)).
    { exists v. split; [reflexivity|]. apply Z.geb_le. exact Ht. }
    simpl in Hins. repeat split.
    + simpl. constructor; assumption.
    + intros r Hr. destruct (Hgrow r Hr) as [H1|H1]; [|right; exact H1].
      destruct (Hins r H1) as [H0| ->]; [left; exact H0|].
      right. exists (blockDataToRow v). split; [exact Hb | reflexivity].
    + exact Hf.
    + exact Hd.
  - apply IH.
Qed.

Lemma backfillPass_cutoff (u : Upstream) (useRpc : bool)
    (oldest target : Z) (wk : Walk) (sv : Service) (db : Db) :
  let '(_, _, db', ev) := backfillPass u useRpc oldest target wk sv db in
  Forall backfilled (insertedRows ev)
  /\ grownFrom (coreBlockFees db) (coreBlockFees db').
Proof.
  unfold backfillPass.
  set (hs := batchAt useRpc target (currentHeight wk)).
  pose proof (storeBackfilled_cutoff (dbThrows u)
                (map (fetchBlock u (batchNo wk)) hs) db 0 false) as Hst.
  destruct (storeBackfilled (dbThrows u) (map (fetchBlock u (batchNo wk)) hs)
              db 0 false) as [[[db1 n] f] ev1].
  destruct Hst as (Hall & Hgrow & _ & _).
  assert (Hrows : forall tail, insertedRows tail = [] ->
            Forall backfilled (insertedRows (map EvFetch hs ++ ev1 ++ tail))).
  { intros tail Htail.
    rewrite !insertedRows_app, insertedRows_fetches, Htail, app_nil_r.
    exact Hall. }
  destruct (f && (n =? 0)).
  - split; [apply Hrows; reflexivity | exact Hgrow].
  - destruct ((Z.rem (totalInserted wk + n) 200 =? 0)
              && (totalInserted wk + n >? 0)).
    + match goal with
      | |- context [setSyncValue ?t ?k ?v ?d] =>
          pose proof (setSyncValue_blocks t k v d) as Hset;
          destruct (setSyncValue t k v d) as [r db2]
      end.
      simpl in Hset.
      destruct r; (split; [|rewrite Hset; exact Hgrow]).
      * apply Hrows. reflexivity.
      * specialize (Hrows [] eq_refl). rewrite app_nil_r in Hrows.
        exact Hrows.
    + split; [apply Hrows; reflexivity | exact Hgrow].
Qed.

Lemma backfillLoop_cutoff (u : Upstream) (useRpc : bool) (oldest target : Z) :
  forall fuel wk sv db,
    let '(_, _, _, db', ev) :=
      backfillLoop u useRpc oldest target fuel wk sv db in
    Forall backfilled (insertedRows ev)
    /\ grownFrom (coreBlockFees db) (coreBlockFees db').
Proof.
  induction fuel as [|fuel IH]; intros wk sv db; simpl.
  - split; [constructor | apply grownFrom_refl].
  - destruct ((currentHeight wk >=? target) && backfillRunning sv);
      [|split; [constructor | apply grownFrom_refl]].
    pose proof (backfillPass_cutoff u useRpc oldest target wk sv db) as Hp.
    destruct (backfillPass u useRpc oldest target wk sv db)
      as [[[r sv1] db1] ev1].
    destruct Hp as [Hall1 Hgrow1].
    destruct r as [wk1|]; [|split; assumption].
    specialize (IH wk1 sv1 db1).
    destruct (backfillLoop u useRpc oldest target fuel wk1 sv1 db1)
      as [[[[e wk2] sv2] db2] ev2].
    destruct IH as [Hall2 Hgrow2].
    split.
    + rewrite insertedRows_app. apply Forall_app. split; assumption.
    + exact (grownFrom_trans _ _ _ Hgrow1 Hgrow2).
Qed.

Lemma backfilled_time (r : BlockRow) :
  backfilled r -> JAN_1_2026_UNIX <= time r.
Proof. intros (v & -> & Hv). exact Hv. Qed.

Lemma startCoreBackfill_backfilled
    (u : Upstream) (fuel : nat) (sv : Service) (db : Db) :
  let '(_, _, db', ev) := startCoreBackfill u fuel sv db in
  Forall backfilled (insertedRows ev)
  /\ grownFrom (coreBlockFees db) (coreBlockFees db').
Proof.
  unfold startCoreBackfill.
  destruct (backfillRunning sv);
    [split; [constructor | apply grownFrom_refl]|].
  unfold stmt. destruct (dbThrows u (stmtNo db)); simpl;
    [split; [constructor | apply grownFrom_refl]|].
  set (db1 := mkDb _ _ _ _).
  destruct (truthy (orZero (minHeight (coreBlockFees db)))); simpl;
    [|split; [constructor | apply grownFrom_refl]].
  pose proof (estimateTargetHeight_quiet u db1) as Hest.
  destruct (estimateTargetHeight u db1) as [[t db2] ev0].
  destruct Hest as (Hsame & Hrows0 & _ & _).
  assert (Hgrow0 : grownFrom (coreBlockFees db) (coreBlockFees db2))
    by (rewrite Hsame; apply grownFrom_refl).
  destruct t as [target|];
    [|split; [rewrite Hrows0; constructor | exact Hgrow0]].
  destruct (orZero (minHeight (coreBlockFees db)) <=? target);
    [split; [rewrite Hrows0; constructor | exact Hgrow0]|].
  simpl.
  pose proof (checkRpcAvailability_quiet u (rpcAvailable sv)) as Hq.
  destruct (checkRpcAvailability u (rpcAvailable sv)) as [[useRpc v] ev1].
  destruct Hq as (_ & Hrows1 & _).
  match goal with
  | |- context [backfillLoop ?a ?b ?c ?d ?e ?f ?g ?h] =>
      pose proof (backfillLoop_cutoff a b c d e f g h) as Hloop;
      destruct (backfillLoop a b c d e f g h)
        as [[[[e0 wk] sv3] db3] ev2]
  end.
  destruct Hloop as [Hall Hgrow].
  assert (Hrows : Forall backfilled (insertedRows (ev0 ++ ev1 ++ ev2))).
  { rewrite !insertedRows_app, Hrows0. simpl in Hrows1. rewrite Hrows1.
    exact Hall. }
  assert (Hgrow' : grownFrom (coreBlockFees db) (coreBlockFees db3))
    by exact (grownFrom_trans _ _ _ Hgrow0 Hgrow).
  destruct e0; [|split; assumption|split; assumption].
  match goal with
  | |- context [setSyncValue ?t ?k ?v ?d] =>
      pose proof (setSyncValue_blocks t k v d) as Hset;
      destruct (setSyncValue t k v d) as [r db4]
  end.
  simpl in Hset.
  destruct r; (split; [|rewrite Hset; exact Hgrow']).
  - rewrite !app_assoc, insertedRows_app, <- !app_assoc. simpl.
    rewrite app_nil_r. exact Hrows.
  - exact Hrows.
Qed.

(** C9: however far the backfill walk gets and whatever the sources
    and the database answer, every row it sends to the insert has a
    time at or after the cutoff, and every row of the table afterwards
    either was there before or has a time at or after the cutoff: a
    fetched block older than the cutoff is not inserted. *)
Theorem backfill_inserts_only_from_cutoff
    (u : Upstream) (fuel : nat) (sv : Service) (db : Db) :
  let '(_, _, db', ev) := startCoreBackfill u fuel sv db in
  Forall (fun r => JAN_1_2026_UNIX <= time r) (insertedRows ev)
  /\ (forall r, In r (coreBlockFees db') ->
                In r (coreBlockFees db) \/ JAN_1_2026_UNIX <= time r).
Proof.
  pose proof (startCoreBackfill_backfilled u fuel sv db) as Hgoal.
  destruct (startCoreBackfill u fuel sv db) as [[[ret sv'] db'] ev].
  destruct Hgoal as [Hall Hgrow]. split.
  - eapply Forall_impl; [|exact Hall]. exact backfilled_time.
  - intros r Hr. destruct (Hgrow r Hr) as [H|(row & H & ->)];
      [left; exact H|].
    right. change (time (storedRow row)) with (time row).
    apply backfilled_time, H.
Qed.

(** ** Superblock rows on their way to the table *)

Lemma backfilled_converted (r : BlockRow) : backfilled r -> converted r.
Proof. intros (v & -> & _). exists v. reflexivity. Qed.

Lemma storeFetched_converted (thr : nat -> bool)
    (results : list (option BlockData)) :
  forall db n,
    Forall converted (insertedRows (snd (storeFetched thr results db n))).
Proof.
  induction results as [|[v|] rest IH]; intros db n; simpl.
  - constructor.
  - destruct (insertBlockRow thr (blockDataToRow v) db) as [ok db1].
    specialize (IH db1 (if ok then n + 1 else n)).
    destruct (storeFetched thr rest db1 (if ok then n + 1 else n))
      as [[db2 m] ev].
    simpl in *. constructor; [exists v; reflexivity | exact IH].
  - apply IH.
Qed.

Lemma forwardLoop_converted (u : Upstream) (cur toFetch size wait : Z) :
  forall fuel i batch db n,
    Forall converted
      (insertedRows
         (snd (forwardLoop u fuel cur toFetch size wait i batch db n))).
Proof.
  induction fuel as [|fuel IH]; intros i batch db n; simpl; [constructor|].
  destruct (i <? toFetch); [|constructor].
  set (hs := map (fun j => cur - j) (zrange i (Z.min (i + size) toFetch))).
  pose proof (storeFetched_converted (dbThrows u)
                (map (fetchBlock u batch) hs) db n) as Hst.
  destruct (storeFetched (dbThrows u) (map (fetchBlock u batch) hs) db n)
    as [[db1 n1] ev1].
  specialize (IH (i + size) (S batch) db1 n1).
  destruct (forwardLoop u fuel cur toFetch size wait (i + size) (S batch)
              db1 n1) as [[db2 n2] ev2].
  simpl in *.
  rewrite !insertedRows_app, insertedRows_fetches. simpl.
  apply Forall_app. split; [exact Hst|].
  apply Forall_app. split; [|exact IH].
  destruct (i + size <? toFetch); constructor.
Qed.

Lemma syncNewCoreBlocks_converted (u : Upstream) (sv : Service) (db : Db) :
  Forall converted (insertedRows (snd (syncNewCoreBlocks u sv db))).
Proof.
  unfold syncNewCoreBlocks, stmt.
  destruct (dbThrows u (stmtNo db)); simpl; [constructor|].
  pose proof (fetchCoreStatus_events u sv) as Hev.
  destruct (fetchCoreStatus u sv) as [[st sv1] ev0]. simpl in Hev.
  assert (H0 : insertedRows ev0 = []).
  { rewrite Hev. apply (checkRpcAvailability_quiet u (rpcAvailable sv)). }
  destruct st as [cur|]; simpl; [|rewrite H0; constructor].
  destruct (truthy cur); simpl; [|rewrite H0; constructor].
  destruct (truthy (orZero (maxHeight (coreBlockFees db)))
            && (cur <=? orZero (maxHeight (coreBlockFees db))));
    [simpl; rewrite H0; constructor|].
  pose proof (checkRpcAvailability_quiet u (rpcAvailable sv1)) as Hq.
  destruct (checkRpcAvailability u (rpcAvailable sv1)) as [[useRpc v] ev1].
  destruct Hq as (_ & H1 & _). simpl in H1.
  match goal with
  | |- context [forwardLoop ?a ?b ?c ?d ?e ?f ?g ?h ?i ?j] =>
      pose proof (forwardLoop_converted a c d e f b g h i j) as Hloop;
      destruct (forwardLoop a b c d e f g h i j) as [[db2 inserted] ev2]
  end.
  simpl in *. rewrite !insertedRows_app, H0, H1. exact Hloop.
Qed.

(** C6: the row made from a fetched payload whose height is a multiple
    of the superblock cycle has [totalFees] zero, whatever fees the
    payload carries; and so has every row at such a height that
    forward sync or backfill sends to the insert. *)
Theorem superblock_row_has_no_fees
    (b : BlockData) (u : Upstream) (fuel : nat) (sv : Service) (db : Db) :
  let no_fees r :=
    height r mod superblockCycle = 0 -> totalFees r = 0%float in
  (bd_height b mod superblockCycle = 0 ->
   totalFees (blockDataToRow b) = 0%float)
  /\ Forall no_fees (insertedRows (snd (syncNewCoreBlocks u sv db)))
  /\ Forall no_fees (insertedRows (snd (startCoreBackfill u fuel sv db))).
Proof.
  intro no_fees. split; [|split].
  - apply (converted_superblock (blockDataToRow b)). exists b. reflexivity.
  - eapply Forall_impl; [|apply syncNewCoreBlocks_converted].
    exact converted_superblock.
  - pose proof (startCoreBackfill_backfilled u fuel sv db) as H.
    destruct (startCoreBackfill u fuel sv db) as [[[ret sv'] db'] ev].
    destruct H as [H _]. simpl.
    eapply Forall_impl; [|exact H].
    intros r Hr. exact (converted_superblock r (backfilled_converted r Hr)).
Qed.

Lemma superblock_row_has_no_fees_witness :
  totalFees (blockDataToRow
               (mkBlockData "00ab" (16616 * 145) 1770000000 12
                            0.25%float 1.75%float)) = 0%float.
Proof.
  apply (superblock_row_has_no_fees
           (mkBlockData "00ab" (16616 * 145) 1770000000 12
                        0.25%float 1.75%float)
           rpcUp O initialService seeded).
  reflexivity.
Defined.

(** ** Backfill: the walk *)


Lemma batchHeights_range (size cur target : Z) :
  forall fuel i,
    0 <= i -> size - i <= Z.of_nat fuel ->
    batchHeights fuel i size cur target
    = map (fun j => cur - j) (zrange i (Z.min size (cur - target + 1))).
Proof.
  induction fuel as [|fuel IH]; intros i Hi Hfuel.
  - simpl. rewrite zrange_empty by lia. reflexivity.
  - simpl. destruct ((i <? size) && (cur - i >=? target)) eqn:Hc.
    + apply andb_true_iff in Hc. destruct Hc as [H1 H2].
      apply Z.ltb_lt in H1. apply Z.geb_le in H2.
      rewrite IH by lia.
      rewrite (zrange_split i (i + 1)) by lia.
      unfold zrange at 2. replace (Z.to_nat (i + 1 - i)) with 1%nat by lia.
      reflexivity.
    + rewrite zrange_empty; [reflexivity|].
      apply andb_false_iff in Hc. destruct Hc as [H1|H2].
      * apply Z.ltb_ge in H1. lia.
      * assert (cur - i < target); [|lia].
        destruct (Z.lt_ge_cases (cur - i) target) as [H|H]; [exact H|].
        apply Z.geb_le in H. congruence.
Qed.

Lemma countUp_shift (f : Z -> Z) (a : Z) :
  forall n x, map (fun j => f (j + a)) (countUp n x)
              = map f (countUp n (x + a)).
Proof.
  induction n as [|n IH]; intro x; [reflexivity|].
  simpl. rewrite IH. do 3 f_equal. lia.
Qed.

Lemma zdown_step (size c t : Z) :
  1 <= size -> t <= c ->
  zdown c t
  = map (fun j => c - j) (zrange 0 (Z.min size (c - t + 1)))
    ++ zdown (c - size) t.
Proof.
  intros Hs Hc. unfold zdown.
  rewrite (zrange_split 0 (Z.min size (c - t + 1)) (c - t + 1)) by lia.
  rewrite map_app. f_equal.
  destruct (Z.min_spec size (c - t + 1)) as [[Hlt ->]|[Hge ->]].
  - unfold zrange.
    replace (Z.to_nat (c - size - t + 1 - 0))
      with (Z.to_nat (c - t + 1 - size)) by lia.
    rewrite (map_ext (fun j => c - size - j)
                     (fun j => (fun i => c - i) (j + size)))
      by (intro j; lia).
    rewrite (countUp_shift (fun i => c - i) size). reflexivity.
  - rewrite (zrange_empty (c - t + 1)), (zrange_empty 0) by lia.
    reflexivity.
Qed.

Lemma zdown_empty (c t : Z) : c < t -> zdown c t = [].
Proof. intro H. unfold zdown. rewrite zrange_empty by lia. reflexivity. Qed.

Lemma storeBackfilled_all_failed (thr : nat -> bool) (hs : list Z)
    (db : Db) (n : Z) (f : bool) :
  storeBackfilled thr (map (fun _ => None) hs) db n f
  = (db, n, match hs with [] => f | _ => true end, []).
Proof.
  revert f; induction hs as [|h hs IH]; intro f; [reflexivity|].
  simpl. rewrite IH. destruct hs; reflexivity.
Qed.

Lemma storeBackfilled_no_failure (thr : nat -> bool)
    (results : list (option BlockData)) :
  (forall r, In r results -> r <> None) ->
  forall db n f,
    let '(_, _, f', _) := storeBackfilled thr results db n f in f' = f.
Proof.
  induction results as [|[v|] rest IH]; intros Hall db n f; simpl.
  - reflexivity.
  - assert (Hrest : forall r, In r rest -> r <> None)
      by (intros r Hr; apply Hall; right; exact Hr).
    destruct (bd_time v >=? JAN_1_2026_UNIX); [|apply IH; exact Hrest].
    destruct (insertBlockRow thr (blockDataToRow v) db) as [ok db1].
    specialize (IH Hrest db1 (if ok then n + 1 else n) f).
    destruct (storeBackfilled thr rest db1 (if ok then n + 1 else n) f)
      as [[[db2 m] g] ev].
    exact IH.
  - exfalso. apply (Hall None); [left|]; reflexivity.
Qed.

Lemma size_positive (useRpc : bool) : 1 <= BATCH_SIZE useRpc.
Proof. unfold BATCH_SIZE. destruct useRpc; lia. Qed.

Section Walk.

Variables (u : Upstream) (useRpc : bool) (oldest target : Z).

Let size := BATCH_SIZE useRpc.
Let batchAt := batchAt useRpc target.


Lemma batchAt_range (cur : Z) :
  batchAt cur
  = map (fun j => cur - j) (zrange 0 (Z.min size (cur - target + 1))).
Proof.
  unfold batchAt. apply batchHeights_range; pose proof (size_positive useRpc); lia.
Qed.

Lemma batchAt_nonempty (cur : Z) : target <= cur -> batchAt cur <> [].
Proof.
  intro H. rewrite batchAt_range. pose proof (size_positive useRpc) as Hs.
  rewrite (zrange_split 0 1) by lia. discriminate.
Qed.

(** A pass in which every fetch fails: the cursor stays, the error
    count goes up by one and the wait follows it. *)
Lemma backfillPass_all_failed (wk : Walk) (sv : Service) (db : Db) :
  target <= currentHeight wk ->
  (forall h, fetchBlock u (batchNo wk) h = None) ->
  backfillPass u useRpc oldest target wk sv db
  = (Ok (mkWalk (currentHeight wk) (consecutiveErrors wk + 1)
                (totalInserted wk) (S (batchNo wk))),
     sv, db,
     map EvFetch (batchAt (currentHeight wk))
     ++ [EvDelay (backoff useRpc (consecutiveErrors wk + 1))]).
Proof.
  intros Hcur Hfail. unfold backfillPass. fold size.
  fold (batchAt (currentHeight wk)).
  rewrite (map_ext _ (fun _ => None) Hfail), storeBackfilled_all_failed.
  pose proof (batchAt_nonempty _ Hcur) as Hne.
  destruct (batchAt (currentHeight wk)); [congruence|]. reflexivity.
Qed.

Lemma backfillLoop_all_failed :
  forall (k : nat) (wk : Walk) (sv : Service) (db : Db),
    target <= currentHeight wk ->
    backfillRunning sv = true ->
    (forall j h, (j < k)%nat -> fetchBlock u (batchNo wk + j) h = None) ->
    exists ev,
      backfillLoop u useRpc oldest target k wk sv db
      = (OutOfFuel,
         mkWalk (currentHeight wk) (consecutiveErrors wk + Z.of_nat k)
                (totalInserted wk) (batchNo wk + k),
         sv, db, ev)
      /\ delays ev
         = map (backoff useRpc) (countUp k (consecutiveErrors wk + 1))
      /\ fetchedHeights ev = List.concat (repeat (batchAt (currentHeight wk)) k)
      /\ insertedRows ev = [].
Proof.
  induction k as [|k IH]; intros wk sv db Hcur Hrun Hfail.
  - exists []. simpl.
    assert (Hc : (currentHeight wk >=? target) = true)
      by (apply Z.geb_le; lia).
    rewrite Hc, Hrun, Z.add_0_r, Nat.add_0_r. simpl.
    destruct wk; repeat split.
  - simpl backfillLoop.
    assert (Hc : (currentHeight wk >=? target) = true)
      by (apply Z.geb_le; lia).
    rewrite Hc, Hrun. simpl andb. cbv iota.
    rewrite backfillPass_all_failed;
      [|exact Hcur
       |intro h; rewrite <- (Nat.add_0_r (batchNo wk)); apply Hfail; lia].
    destruct (IH (mkWalk (currentHeight wk) (consecutiveErrors wk + 1)
                         (totalInserted wk) (S (batchNo wk))) sv db
                Hcur Hrun) as (ev & Hloop & Hd & Hf & Hi).
    { intros j h Hj. simpl.
      replace (S (batchNo wk + j)) with (batchNo wk + S j)%nat by lia.
      apply Hfail. lia. }
    simpl in Hloop, Hd, Hf. rewrite Hloop.
    eexists. split; [|split; [|split]].
    + do 4 f_equal. f_equal; lia.
    + rewrite !delays_app, delays_fetches, Hd. reflexivity.
    + rewrite !fetchedHeights_app, fetchedHeights_fetches, Hf.
      simpl. rewrite app_nil_r. reflexivity.
    + rewrite !insertedRows_app, insertedRows_fetches, Hi. reflexivity.
Qed.

End Walk.

(** C7: after [k] batches in a row in which every fetch failed (and so
    nothing was inserted), the waits have been [ERROR_BACKOFF * min(j, 6)]
    for [j = 1 .. k], with [ERROR_BACKOFF] 2000 ms on the privileged
    source and 15000 ms on the public one: growing up to the sixth and
    constant from there.  The cursor has not moved: each of the [k]
    passes asked for the same heights, and the loop is about to ask for
    them again. *)
Theorem failed_batches_back_off_and_retry
    (u : Upstream) (useRpc : bool) (oldest target : Z) (k : nat)
    (wk : Walk) (sv : Service) (db : Db) :
  consecutiveErrors wk = 0 ->
  target <= currentHeight wk ->
  backfillRunning sv = true ->
  (forall j h, (j < k)%nat -> fetchBlock u (batchNo wk + j) h = None) ->
  let '(e, wk', sv', db', ev) :=
    backfillLoop u useRpc oldest target k wk sv db in
  delays ev = map (fun j => ERROR_BACKOFF useRpc * Z.min j 6)
                  (zrange 1 (Z.of_nat k + 1))
  /\ fetchedHeights ev
     = List.concat (repeat (batchAt useRpc target (currentHeight wk)) k)
  /\ insertedRows ev = []
  /\ e = OutOfFuel
  /\ currentHeight wk' = currentHeight wk
  /\ consecutiveErrors wk' = Z.of_nat k
  /\ db' = db
  /\ (forall j, 1 <= j < 6 -> backoff useRpc j < backoff useRpc (j + 1))
  /\ (forall j, 6 <= j -> backoff useRpc j = backoff useRpc 6)
  /\ ERROR_BACKOFF true = 2000 /\ ERROR_BACKOFF false = 15000.
Proof.
  intros Herr Hcur Hrun Hfail.
  destruct (backfillLoop_all_failed u useRpc oldest target k wk sv db
              Hcur Hrun Hfail) as (ev & -> & Hd & Hf & Hi).
  rewrite Herr in Hd. simpl.
  repeat split; try assumption; try lia.
  - rewrite Hd. unfold zrange.
    replace (Z.to_nat (Z.of_nat k + 1 - 1)) with k by lia. reflexivity.
  - intros j Hj. unfold backoff, ERROR_BACKOFF. destruct useRpc; lia.
  - intros j Hj. unfold backoff, ERROR_BACKOFF. destruct useRpc; lia.
Qed.

Lemma failed_batches_back_off_and_retry_witness :
  let u := mkUpstream false false None None None (fun _ _ => None)
                      (fun _ => false) 0 in
  let sv := mkService true (mkProgress 50 0 150 100 running) (Some false) in
  let db := mkDb [mkBlockRow "00ab" 150 1770000000 0%float 2%float 1]
                 [] [] O in
  let '(e, wk', sv', db', ev) :=
    backfillLoop u false 150 100 8 (mkWalk 149 0 0 O) sv db in
  delays ev = [15000; 30000; 45000; 60000; 75000; 90000; 90000; 90000]
  /\ fetchedHeights ev
     = [149; 148; 149; 148; 149; 148; 149; 148;
        149; 148; 149; 148; 149; 148; 149; 148]
  /\ currentHeight wk' = 149.
Proof.
  intros u sv db.
  pose proof (failed_batches_back_off_and_retry u false 150 100 8
                (mkWalk 149 0 0 O) sv db eq_refl ltac:(simpl; lia) eq_refl
                ltac:(reflexivity)) as H.
  destruct (backfillLoop u false 150 100 8 (mkWalk 149 0 0 O) sv db)
    as [[[[e wk'] sv'] db'] ev].
  destruct H as (Hd & Hf & _ & _ & Hc & _).
  split; [exact Hd | split; [exact Hf | exact Hc]].
Defined.

Section NoFailures.

Variables (u : Upstream) (useRpc : bool) (oldest target : Z).
Hypothesis fetches_succeed : forall n h, fetchBlock u n h <> None.
Hypothesis statements_succeed : forall n, dbThrows u n = false.

Let advanced := advanced oldest.

Lemma backfillPass_no_failure (wk : Walk) (sv : Service) (db : Db) :
  exists total db1 ev,
    backfillPass u useRpc oldest target wk sv db
    = (Ok (mkWalk (currentHeight wk - BATCH_SIZE useRpc) 0 total
                  (S (batchNo wk))),
       setProgress (advanced (currentHeight wk - BATCH_SIZE useRpc)
                             (backfillProgress sv)) sv,
       db1, ev)
    /\ fetchedHeights ev = batchAt useRpc target (currentHeight wk).
Proof.
  unfold backfillPass.
  set (hs := batchAt useRpc target (currentHeight wk)).
  pose proof (storeBackfilled_no_failure (dbThrows u)
                (map (fetchBlock u (batchNo wk)) hs)) as Hnf.
  pose proof (storeBackfilled_cutoff (dbThrows u)
                (map (fetchBlock u (batchNo wk)) hs) db 0 false) as Hev.
  specialize (Hnf ltac:(intros r Hr; apply in_map_iff in Hr;
                        destruct Hr as (h & <- & _); apply fetches_succeed)
                  db 0 false).
  destruct (storeBackfilled (dbThrows u) (map (fetchBlock u (batchNo wk)) hs)
              db 0 false) as [[[db1 n] f] ev1].
  subst f. destruct Hev as (_ & _ & Hf1 & _). simpl andb. cbv iota.
  assert (Hfetched : forall tail, fetchedHeights tail = [] ->
            fetchedHeights (map EvFetch hs ++ ev1 ++ tail) = hs).
  { intros tail Htail.
    rewrite !fetchedHeights_app, fetchedHeights_fetches, Hf1, Htail.
    apply app_nil_r. }
  destruct ((Z.rem (totalInserted wk + n) 200 =? 0)
            && (totalInserted wk + n >? 0)).
  - unfold setSyncValue, stmt. rewrite statements_succeed.
    do 3 eexists. split; [reflexivity|]. apply Hfetched. reflexivity.
  - do 3 eexists. split; [reflexivity|]. apply Hfetched. reflexivity.
Qed.

(** Without failures the walk ends by itself: it asks for every height
    from the cursor down to the target once, and leaves the cursor
    below the target. *)
Lemma backfillLoop_no_failure :
  forall (fuel : nat) (wk : Walk) (sv : Service) (db : Db),
    backfillRunning sv = true ->
    currentHeight wk - target + 1 <= BATCH_SIZE useRpc * Z.of_nat fuel ->
    exists wk' sv' db' ev,
      backfillLoop u useRpc oldest target fuel wk sv db
      = (Exited, wk', sv', db', ev)
      /\ fetchedHeights ev = zdown (currentHeight wk) target
      /\ currentHeight wk' < target
      /\ (currentHeight wk - currentHeight wk') mod BATCH_SIZE useRpc = 0
      /\ backfillRunning sv' = true
      /\ rpcAvailable sv' = rpcAvailable sv
      /\ (currentHeight wk < target -> wk' = wk /\ sv' = sv)
      /\ (target <= currentHeight wk ->
          target - BATCH_SIZE useRpc <= currentHeight wk'
          /\ backfillProgress sv'
             = advanced (currentHeight wk') (backfillProgress sv)).
Proof.
  pose proof (size_positive useRpc) as Hsize.
  induction fuel as [|fuel IH]; intros wk sv db Hrun Hfuel.
  - assert (Hc : (currentHeight wk >=? target) = false).
    { destruct (currentHeight wk >=? target) eqn:E; [|reflexivity].
      apply Z.geb_le in E. lia. }
    exists wk, sv, db, []. simpl. rewrite Hc. simpl.
    rewrite zdown_empty by lia. rewrite Z.sub_diag.
    repeat split; try lia; auto using Z.mod_0_l.
  - simpl backfillLoop.
    destruct (currentHeight wk >=? target) eqn:Hc.
    + apply Z.geb_le in Hc. rewrite Hrun. simpl andb. cbv iota.
      destruct (backfillPass_no_failure wk sv db)
        as (total & db1 & ev1 & -> & Hf1).
      destruct (IH (mkWalk (currentHeight wk - BATCH_SIZE useRpc) 0 total
                           (S (batchNo wk)))
                   (setProgress
                      (advanced (currentHeight wk - BATCH_SIZE useRpc)
                                (backfillProgress sv)) sv) db1
                   Hrun ltac:(simpl; lia))
        as (wk' & sv' & db' & ev2 & -> & Hf2 & Hlt & Hmod & Hrun' & Hv
            & Hstay & Hmove).
      simpl in Hf2, Hlt, Hmod, Hstay, Hmove, Hv.
      exists wk', sv', db', (ev1 ++ ev2).
      split; [reflexivity|].
      split.
      { rewrite fetchedHeights_app, Hf1, Hf2, batchAt_range.
        symmetry. apply zdown_step; lia. }
      split; [exact Hlt|].
      split.
      { replace (currentHeight wk - currentHeight wk')
          with (currentHeight wk - BATCH_SIZE useRpc - currentHeight wk'
                + 1 * BATCH_SIZE useRpc) by lia.
        rewrite Z.mod_add by lia. exact Hmod. }
      split; [exact Hrun'|]. split; [exact Hv|].
      split; [lia|]. intros _.
      destruct (Z.lt_ge_cases (currentHeight wk - BATCH_SIZE useRpc) target)
        as [Hdone|Hmore].
      * destruct (Hstay Hdone) as [-> ->]. simpl. split; [lia|reflexivity].
      * destruct (Hmove Hmore) as [Hlow ->]. split; [lia|reflexivity].
    + exists wk, sv, db, []. simpl.
      assert (currentHeight wk < target).
      { destruct (Z.lt_ge_cases (currentHeight wk) target) as [H|H];
          [exact H|]. apply Z.geb_le in H. congruence. }
      rewrite zdown_empty by lia. rewrite Z.sub_diag.
      repeat split; try lia; auto using Z.mod_0_l.
Qed.

End NoFailures.

(** C4 does not hold as the specification states it with the batch
    size of the privileged source: the heights asked for are 149 down
    to 100 (150 is the cached one and is not fetched), and with batches
    of 20 [totalDone] ends at 60, not 50. *)
Lemma backfill_in_batches_of_20_ends_at_60 :
  let u := mkUpstream true true None None None
                      (fun _ h => Some (sampleBlock h)) (fun _ => false) 0 in
  let '(returned, sv', _, ev) := startCoreBackfill u 10 initialService seeded in
  returned = true
  /\ BATCH_SIZE (fst (fst (checkRpcAvailability u None))) = 20
  /\ fetchedHeights ev = zdown 149 100
  /\ ~ In 150 (fetchedHeights ev)
  /\ status (backfillProgress sv') = complete
  /\ totalDone (backfillProgress sv') = 60
  /\ totalDone (backfillProgress sv') <> 50.
Proof.
  vm_compute. repeat split; try discriminate.
  intro H. repeat (destruct H as [H|H]; [discriminate H|]). exact H.
Qed.

(** C4, as the code has it: with the oldest cached height 150 and the target 100,
    a backfill run that meets no fetch failure and no database error
    asks for the heights 149 down to 100, each once, and ends with
    status "complete", whichever batch size is in use; with batches of
    2 (public source) [totalDone] ends at 50. *)
Theorem backfill_150_to_100_completes
    (u : Upstream) (fuel : nat) (sv : Service) (db : Db) :
  backfillRunning sv = false ->
  minHeight (coreBlockFees db) = Some 150 ->
  fst (fst (estimateTargetHeight u (snd (stmt (dbThrows u) db)))) = Ok 100 ->
  (forall n h, fetchBlock u n h <> None) ->
  (forall n, dbThrows u n = false) ->
  (25 <= fuel)%nat ->
  let '(returned, sv', _, ev) := startCoreBackfill u fuel sv db in
  returned = true
  /\ fetchedHeights ev = zdown 149 100
  /\ status (backfillProgress sv') = complete
  /\ backfillRunning sv' = false
  /\ (fst (fst (checkRpcAvailability u (rpcAvailable sv))) = false ->
      totalDone (backfillProgress sv') = 50).
Proof.
  intros Hidle Hmin Htarget Hfetch Hdb Hfuel.
  unfold startCoreBackfill. rewrite Hidle.
  unfold stmt in *. rewrite Hdb in *. simpl in Htarget |- *.
  rewrite Hmin. simpl.
  set (db1 := mkDb _ _ _ _) in *.
  pose proof (estimateTargetHeight_quiet u db1) as Hest.
  destruct (estimateTargetHeight u db1) as [[t db2] ev0].
  simpl in Htarget. subst t. destruct Hest as (_ & _ & Hf0 & _).
  simpl.
  pose proof (checkRpcAvailability_quiet u (rpcAvailable sv)) as Hq.
  destruct (checkRpcAvailability u (rpcAvailable sv)) as [[useRpc v] ev1].
  destruct Hq as (Hf1 & _). simpl in Hf1 |- *.
  match goal with
  | |- context [backfillLoop u useRpc 150 100 fuel ?w ?s db2] =>
      destruct (backfillLoop_no_failure u useRpc 150 100 Hfetch Hdb
                  fuel w s db2 eq_refl)
        as (wk' & sv' & db' & ev2 & -> & Hf2 & Hlt & Hmod & Hrun & _
            & _ & Hmove)
  end.
  { simpl. unfold BATCH_SIZE. destruct useRpc; lia. }
  cbn [currentHeight] in Hf2, Hmod, Hmove.
  destruct (Hmove ltac:(lia)) as [Hlow Hprog].
  unfold setSyncValue, stmt. rewrite Hdb.
  assert (Hle : (currentHeight wk' <=? 100) = true) by (apply Z.leb_le; lia).
  rewrite Hle. simpl.
  split; [reflexivity|].
  split.
  { rewrite !fetchedHeights_app, Hf0, Hf1, Hf2. cbn [app fetchedHeights flat_map].
    rewrite app_nil_r. reflexivity. }
  split; [reflexivity|]. split; [reflexivity|].
  intros ->. rewrite Hprog. cbn [totalDone advanced setStatus].
  change (BATCH_SIZE false) with 2 in Hmod, Hlow.
  assert (currentHeight wk' = 99); [|lia].
  pose proof (Z.div_mod (149 - currentHeight wk') 2 ltac:(lia)) as Hdiv.
  rewrite Hmod in Hdiv. lia.
Qed.

Lemma backfill_150_to_100_completes_witness :
  let u := mkUpstream false false None None None
                      (fun _ h => Some (sampleBlock h)) (fun _ => false) 0 in
  let '(returned, sv', _, ev) := startCoreBackfill u 25 initialService seeded in
  returned = true
  /\ fetchedHeights ev = zdown 149 100
  /\ status (backfillProgress sv') = complete
  /\ totalDone (backfillProgress sv') = 50.
Proof.
  intro u.
  pose proof (backfill_150_to_100_completes u 25 initialService seeded
                eq_refl eq_refl eq_refl
                ltac:(intros n h; discriminate) ltac:(reflexivity)
                ltac:(lia)) as H.
  destruct (startCoreBackfill u 25 initialService seeded)
    as [[[returned sv'] db'] ev].
  destruct H as (H1 & H2 & H3 & _ & H5).
  repeat split; [exact H1 | exact H2 | exact H3 | exact (H5 eq_refl)].
Defined.

(** ** Epoch upsert *)

Section UpsertFacts.

Variables (Row Key : Type) (key : Row -> Key) (eqb : Key -> Key -> bool).
Hypothesis eqb_eq : forall a b, eqb a b = true <-> a = b.

Variables (r : Row) (set : Row -> Row).
Hypothesis set_keeps_key : forall old, key (set old) = key old.

Lemma eqb_neq (a b : Key) : a <> b -> eqb a b = false.
Proof.
  intro H. destruct (eqb a b) eqn:E; [|reflexivity].
  apply eqb_eq in E. contradiction.
Qed.

Lemma upsert_other_key (k : Key) (t : list Row) :
  key r <> k ->
  rowsWith key eqb k (insertOnConflictDoUpdate key eqb r set t)
  = rowsWith key eqb k t.
Proof.
  intro Hk. unfold insertOnConflictDoUpdate.
  destruct (hasKey key eqb (key r) t).
  - unfold rowsWith. induction t as [|x t IH]; [reflexivity|].
    simpl. destruct (eqb (key x) (key r)) eqn:E.
    + apply eqb_eq in E. rewrite set_keeps_key, E, (eqb_neq _ _ Hk).
      exact IH.
    + rewrite IH. reflexivity.
  - rewrite rowsWith_app. unfold rowsWith at 2. simpl.
    rewrite (eqb_neq _ _ Hk). apply app_nil_r.
Qed.

Lemma upsert_stored_key (t : list Row) (old : Row) :
  rowsWith key eqb (key r) t = [old] ->
  rowsWith key eqb (key r) (insertOnConflictDoUpdate key eqb r set t)
  = [set old].
Proof.
  intro Hold. unfold insertOnConflictDoUpdate.
  destruct (hasKey key eqb (key r) t) eqn:Hk.
  - assert (Hmap : forall l,
              rowsWith key eqb (key r)
                (map (fun x => if eqb (key x) (key r) then set x else x) l)
              = map set (rowsWith key eqb (key r) l)).
    { unfold rowsWith. induction l as [|x l IH]; [reflexivity|].
      simpl. destruct (eqb (key x) (key r)) eqn:E.
      - rewrite set_keeps_key, E. simpl. rewrite IH. reflexivity.
      - rewrite E. exact IH. }
    rewrite Hmap, Hold. reflexivity.
  - apply hasKey_rowsWith in Hk. rewrite Hk in Hold. discriminate.
Qed.

End UpsertFacts.

Lemma upsertEpoch_other (thr : nat -> bool) (v : EpochRow) (db : Db) (n : Z) :
  epochNumber v <> n ->
  rowsWith epochNumber Z.eqb n (platformEpochFees (snd (upsertEpoch thr v db)))
  = rowsWith epochNumber Z.eqb n (platformEpochFees db).
Proof.
  intro Hn. unfold upsertEpoch, stmt.
  destruct (thr (stmtNo db)); [reflexivity|]. simpl.
  apply upsert_other_key; [exact Z.eqb_eq | reflexivity | exact Hn].
Qed.

Lemma upsertEpoch_stored (thr : nat -> bool) (v old : EpochRow) (db : Db) :
  thr (stmtNo db) = false ->
  rowsWith epochNumber Z.eqb (epochNumber v) (platformEpochFees db) = [old] ->
  rowsWith epochNumber Z.eqb (epochNumber v)
           (platformEpochFees (snd (upsertEpoch thr v db)))
  = [epochConflictSet v old].
Proof.
  intros Hthr Hold. unfold upsertEpoch, stmt. rewrite Hthr. simpl.
  apply upsert_stored_key; [reflexivity | exact Hold].
Qed.

Section EpochWalk.

Variables (pf : Platform) (thr : nat -> bool) (n : Z).

(** The explorer answers [GET /epoch/m] with epoch [m]. *)
Hypothesis well_numbered :
  forall m ep e, fetchPlatformEpoch pf m = Some ep ->
                 er_epoch ep = Some e -> ei_number e = m.

(** Below [n], the walk does not touch the row of [n]. *)
Lemma epochLoop_below :
  forall fuel m db inserted,
    m < n ->
    rowsWith epochNumber Z.eqb n
      (platformEpochFees (snd (fst (epochLoop pf thr fuel m db inserted))))
    = rowsWith epochNumber Z.eqb n (platformEpochFees db).
Proof.
  induction fuel as [|fuel IH]; intros m db inserted Hm; [reflexivity|].
  simpl. destruct (m >=? 0); [|reflexivity].
  assert (Hskip :
            rowsWith epochNumber Z.eqb n
              (platformEpochFees
                 (snd (fst (let '(k, db1, ev) :=
                              epochLoop pf thr fuel (m - 1) db inserted in
                            (k, db1, EvFetchEpoch m :: ev)))))
            = rowsWith epochNumber Z.eqb n (platformEpochFees db)).
  { specialize (IH (m - 1) db inserted ltac:(lia)).
    destruct (epochLoop pf thr fuel (m - 1) db inserted) as [[k db1] ev].
    exact IH. }
  destruct (fetchPlatformEpoch pf m) as [ep|] eqn:Hep; [|exact Hskip].
  destruct (er_epoch ep) as [e|] eqn:He; [|exact Hskip].
  destruct (beforeCutoff (ei_startTime e)); [reflexivity|].
  pose proof (upsertEpoch_other thr (epochValues ep e) db n) as Hup.
  destruct (upsertEpoch thr (epochValues ep e) db) as [ok db1].
  specialize (IH (m - 1) db1 (if ok then inserted + 1 else inserted)
                 ltac:(lia)).
  destruct (epochLoop pf thr fuel (m - 1) db1
              (if ok then inserted + 1 else inserted)) as [[k db2] ev].
  simpl in *. rewrite IH. apply Hup.
  rewrite (well_numbered m ep e Hep He). lia.
Qed.

Variables (c : Z) (ep : EpochResp) (e : EpochInfo) (old : EpochRow).

Hypothesis statements_succeed : forall k, thr k = false.
Hypothesis answered : fetchPlatformEpoch pf n = Some ep.
Hypothesis has_epoch : er_epoch ep = Some e.
Hypothesis in_range :
  forall m ep' e', n <= m <= c -> fetchPlatformEpoch pf m = Some ep' ->
                   er_epoch ep' = Some e' ->
                   beforeCutoff (ei_startTime e') = false.

(** From [n] or above, the walk reaches [n] and rewrites its row. *)
Lemma epochLoop_reaches :
  forall fuel m db inserted,
    0 <= n <= m -> m <= c -> m - n < Z.of_nat fuel ->
    rowsWith epochNumber Z.eqb n (platformEpochFees db) = [old] ->
    rowsWith epochNumber Z.eqb n
      (platformEpochFees (snd (fst (epochLoop pf thr fuel m db inserted))))
    = [epochConflictSet (epochValues ep e) old].
Proof.
  induction fuel as [|fuel IH]; intros m db inserted Hn Hc Hfuel Hold;
    [simpl in Hfuel; lia|].
  simpl.
  assert (Hm : (m >=? 0) = true) by (apply Z.geb_le; lia). rewrite Hm.
  destruct (Z.eq_dec m n) as [->|Hne].
  - rewrite answered, has_epoch.
    rewrite (in_range n ep e ltac:(lia) answered has_epoch).
    assert (Hnum : epochNumber (epochValues ep e) = n)
      by (simpl; exact (well_numbered n ep e answered has_epoch)).
    pose proof (upsertEpoch_stored thr (epochValues ep e) old db
                  (statements_succeed _)) as Hup.
    rewrite Hnum in Hup. specialize (Hup Hold).
    destruct (upsertEpoch thr (epochValues ep e) db) as [ok db1].
    pose proof (epochLoop_below fuel (n - 1) db1
                  (if ok then inserted + 1 else inserted) ltac:(lia)) as Hb.
    destruct (epochLoop pf thr fuel (n - 1) db1
                (if ok then inserted + 1 else inserted)) as [[k db2] ev].
    simpl in *. rewrite Hb. exact Hup.
  - assert (Hskip :
              rowsWith epochNumber Z.eqb n
                (platformEpochFees
                   (snd (fst (let '(k, db1, ev) :=
                                epochLoop pf thr fuel (m - 1) db inserted in
                              (k, db1, EvFetchEpoch m :: ev)))))
              = [epochConflictSet (epochValues ep e) old]).
    { specialize (IH (m - 1) db inserted ltac:(lia) ltac:(lia) ltac:(lia)
                     Hold).
      destruct (epochLoop pf thr fuel (m - 1) db inserted) as [[k db1] ev].
      exact IH. }
    destruct (fetchPlatformEpoch pf m) as [ep'|] eqn:Hep; [|exact Hskip].
    destruct (er_epoch ep') as [e'|] eqn:He; [|exact Hskip].
    rewrite (in_range m ep' e' ltac:(lia) Hep He).
    pose proof (upsertEpoch_other thr (epochValues ep' e') db n) as Hup.
    destruct (upsertEpoch thr (epochValues ep' e') db) as [ok db1].
    specialize (IH (m - 1) db1 (if ok then inserted + 1 else inserted)
                   ltac:(lia) ltac:(lia) ltac:(lia)).
    destruct (epochLoop pf thr fuel (m - 1) db1
                (if ok then inserted + 1 else inserted)) as [[k db2] ev].
    simpl in *. apply IH. rewrite Hup; [exact Hold|].
    rewrite (well_numbered m ep' e' Hep He). exact Hne.
Qed.

End EpochWalk.

(** C8: when epoch [n] is already stored and a sync walks over it
    again, the stored row gets the [totalCollectedFees] and the
    [endTime] just fetched and keeps its [startTime] and its
    [feeMultiplier].  (The explorer answers a request for epoch [m]
    with epoch [m]; the database takes every statement; [n] lies
    between 0 and the current epoch, and no epoch from [n] up starts
    before the cutoff, so that the walk gets to [n].) *)
Theorem resync_updates_fees_and_end_only
    (pf : Platform) (thr : nat -> bool) (db : Db)
    (c n : Z) (ep : EpochResp) (e : EpochInfo) (old : EpochRow) :
  (forall m ep' e', fetchPlatformEpoch pf m = Some ep' ->
                    er_epoch ep' = Some e' -> ei_number e' = m) ->
  (forall k, thr k = false) ->
  statusEpochNumber pf = Some c ->
  0 <= n <= c -> 0 < c ->
  fetchPlatformEpoch pf n = Some ep ->
  er_epoch ep = Some e ->
  (forall m ep' e', n <= m <= c -> fetchPlatformEpoch pf m = Some ep' ->
                    er_epoch ep' = Some e' ->
                    beforeCutoff (ei_startTime e') = false) ->
  rowsWith epochNumber Z.eqb n (platformEpochFees db) = [old] ->
  let db' := snd (fst (syncAllPlatformEpochs pf thr db)) in
  rowsWith epochNumber Z.eqb n (platformEpochFees db')
  = [ {| epochNumber := epochNumber old;
         startTime := startTime old;
         endTime := ei_endTime e;
         totalCollectedFees := orDefault 0 (er_totalCollectedFees ep);
         feeMultiplier := feeMultiplier old |} ].
Proof.
  intros Hnum Hthr Hstatus Hn Hc Hep He Hrange Hold db'.
  unfold db', syncAllPlatformEpochs. rewrite Hstatus.
  assert (Ht : truthy c = true)
    by (unfold truthy; apply negb_true_iff, Z.eqb_neq; lia).
  rewrite Ht.
  apply (epochLoop_reaches pf thr n Hnum c ep e old Hthr Hep He Hrange);
    [lia | lia | lia | exact Hold].
Qed.

Lemma resync_updates_fees_and_end_only_witness :
  let db := mkDb [] [storedEpoch3] [] O in
  platformEpochFees
    (snd (fst (syncAllPlatformEpochs explorer (fun _ => false) db)))
  = [mkEpochRow 3 1769990000000 1770003600000 900 7].
Proof.
  intro db.
  assert (Hone : forall m ep' e',
             fetchPlatformEpoch explorer m = Some ep' ->
             er_epoch ep' = Some e' -> m = 3 /\ e' =
               mkEpochInfo 3 1770000000000 1770003600000 (Some 2)).
  { intros m ep' e' H1 H2. simpl in H1.
    destruct (m =? 3) eqn:E; [|discriminate].
    apply Z.eqb_eq in E. injection H1 as <-. simpl in H2.
    injection H2 as <-. split; [exact E | reflexivity]. }
  pose proof (resync_updates_fees_and_end_only explorer (fun _ => false) db
                3 3 epoch3
                (mkEpochInfo 3 1770000000000 1770003600000 (Some 2))
                storedEpoch3) as H.
  assert (Hrows :
            rowsWith epochNumber Z.eqb 3
              (platformEpochFees
                 (snd (fst (syncAllPlatformEpochs explorer (fun _ => false)
                                                  db))))
            = [mkEpochRow 3 1769990000000 1770003600000 900 7]).
  { apply H; try reflexivity; try lia.
    - intros m ep' e' H1 H2. destruct (Hone m ep' e' H1 H2) as [-> ->].
      reflexivity.
    - intros m ep' e' _ H1 H2. destruct (Hone m ep' e' H1 H2) as [_ ->].
      reflexivity. }
  exact Hrows.
Defined.

(** ** Masternode counts *)

Lemma viaDashCentral_none (m : MnUpstream) (t : Z) :
  viaDashCentral m t = None <->
  match dashCentral m with
  | Threw => True
  | Ok (unique, weighted) =>
      orDefault 0 unique <= 0 \/ orDefault 0 weighted <= 0
  end.
Proof.
  unfold viaDashCentral. destruct (dashCentral m) as [[unique weighted]|];
    [|tauto].
  destruct (orDefault 0 unique >? 0) eqn:E1;
    destruct (orDefault 0 weighted >? 0) eqn:E2; simpl;
    rewrite ?Z.gtb_ltb in *;
    try apply Z.ltb_lt in E1; try apply Z.ltb_lt in E2;
    try apply Z.ltb_ge in E1; try apply Z.ltb_ge in E2;
    split; intro H; try discriminate; try reflexivity; try lia; tauto.
Qed.

Lemma viaRpc_none (m : MnUpstream) (t : Z) :
  viaRpc m t = None <->
  rpcMasternodeCount m = Threw \/ rpcProtxList m = Threw.
Proof.
  unfold viaRpc. destruct (rpcMasternodeCount m) as [cr|]; [|tauto].
  destruct (rpcProtxList m) as [l|]; [|tauto].
  split; [discriminate|]. intros [H|H]; discriminate.
Qed.

(** When no source of the chain yields counts the default is returned:
    the cache is empty or stale, the third-party API throws or reports
    a count that is not positive, the privileged source is unavailable
    or one of its two calls throws, and the checkpoint gives nothing. *)
Lemma fetchMasternodeCounts_falls_back_to_default
    (m : MnUpstream) (u : Upstream) (cache : option MnCache)
    (verdict : option bool) :
  (forall c, cache = Some c -> MN_COUNT_CACHE_MS <= now u - mc_fetchedAt c) ->
  viaDashCentral m (now u) = None ->
  fst (fst (checkRpcAvailability u verdict)) = false
  \/ rpcMasternodeCount m = Threw \/ rpcProtxList m = Threw ->
  viaCheckpoint m (now u) = None ->
  fst (fst (fst (fetchMasternodeCounts m u cache verdict))) = defaultMnCounts.
Proof.
  intros Hstale Hdc Hrpc Hcp. unfold fetchMasternodeCounts.
  assert (Hfresh :
            match cache with
            | Some c => if now u - mc_fetchedAt c <? MN_COUNT_CACHE_MS
                        then Some c else None
            | None => None
            end = None).
  { destruct cache as [c|]; [|reflexivity].
    specialize (Hstale c eq_refl).
    apply Z.ltb_ge in Hstale. rewrite Hstale. reflexivity. }
  rewrite Hfresh, Hdc.
  destruct (checkRpcAvailability u verdict) as [[useRpc v] ev].
  simpl in Hrpc.
  assert (Hnone : (if useRpc then viaRpc m (now u) else None) = None).
  { destruct useRpc; [|reflexivity]. apply viaRpc_none.
    destruct Hrpc as [H|H]; [discriminate | exact H]. }
  rewrite Hnone, Hcp. reflexivity.
Qed.

(** C10: the function returns counts on every input (it is total: no
    answer of any source makes it throw), but not always the default
    when no source yields positive counts: a reply of the privileged
    source is returned as it is, without the positivity test that the
    third-party and the checkpoint paths apply.  Here the third-party
    API is down, the RPC reports zero masternodes and no checkpoint is
    stored: the result is 0 and 0, not 3700 and 334. *)
Theorem fetchMasternodeCounts_returns_zero_rpc_counts :
  fst (fst (fst (fetchMasternodeCounts zeroCountReply rpcUp None None)))
  = mkMnCounts 0 0
  /\ viaDashCentral zeroCountReply (now rpcUp) = None
  /\ viaCheckpoint zeroCountReply (now rpcUp) = None
  /\ fst (fst (fst (fetchMasternodeCounts zeroCountReply rpcUp None None)))
     <> defaultMnCounts.
Proof. repeat split. discriminate. Qed.

(** ** Further properties *)

Lemma storedValue_absent (k : string) (t : list (string * Z)) :
  hasKey fst String.eqb k t = false -> storedValue k t = None.
Proof.
  unfold hasKey, storedValue. induction t as [|[a b] t IH]; simpl;
    [reflexivity|].
  destruct (String.eqb a k); [discriminate | exact IH].
Qed.

Lemma storedValue_app_other (k k' : string) (v : Z) (t : list (string * Z)) :
  String.eqb k' k = false ->
  storedValue k' (t ++ [(k, v)]) = storedValue k' t.
Proof.
  intro Hne. unfold storedValue. induction t as [|[a b] t IH]; simpl.
  - rewrite String.eqb_sym, Hne. reflexivity.
  - destruct (String.eqb a k'); [reflexivity | exact IH].
Qed.

Lemma storedValue_app_same (k : string) (v : Z) (t : list (string * Z)) :
  hasKey fst String.eqb k t = false ->
  storedValue k (t ++ [(k, v)]) = Some v.
Proof.
  unfold hasKey, storedValue. induction t as [|[a b] t IH]; simpl.
  - rewrite String.eqb_refl. reflexivity.
  - destruct (String.eqb a k); [discriminate | exact IH].
Qed.

Lemma storedValue_rewritten (k k' : string) (v : Z) (t : list (string * Z)) :
  storedValue k'
    (map (fun old => if String.eqb (fst old) k then (fst old, v) else old) t)
  = if String.eqb k' k
    then (if hasKey fst String.eqb k t then Some v else None)
    else storedValue k' t.
Proof.
  unfold storedValue, hasKey. induction t as [|[a b] t IH]; simpl.
  - destruct (String.eqb k' k); reflexivity.
  - destruct (String.eqb a k) eqn:Ea; simpl.
    + apply String.eqb_eq in Ea. subst a.
      rewrite (String.eqb_sym k k').
      destruct (String.eqb k' k); [reflexivity | exact IH].
    + destruct (String.eqb a k') eqn:Ea'; simpl.
      * apply String.eqb_eq in Ea'. subst a.
        rewrite Ea. reflexivity.
      * exact IH.
Qed.

Lemma storedValue_upsert (k k' : string) (v : Z) (t : list (string * Z)) :
  storedValue k'
    (insertOnConflictDoUpdate fst String.eqb (k, v)
       (fun old => (fst old, v)) t)
  = if String.eqb k' k then Some v else storedValue k' t.
Proof.
  unfold insertOnConflictDoUpdate. simpl.
  destruct (hasKey fst String.eqb k t) eqn:Hk.
  - rewrite storedValue_rewritten, Hk. reflexivity.
  - destruct (String.eqb k' k) eqn:E.
    + apply String.eqb_eq in E. subst k'.
      apply storedValue_app_same, Hk.
    + apply storedValue_app_other, E.
Qed.

Lemma getSyncValue_reads (thr : nat -> bool) (k : string) (db : Db) :
  thr (stmtNo db) = false ->
  getSyncValue thr k db
  = (Ok (storedValue k (syncState db)),
     mkDb (coreBlockFees db) (platformEpochFees db) (syncState db)
          (S (stmtNo db))).
Proof. intro H. unfold getSyncValue, stmt. rewrite H. reflexivity. Qed.

(** X1: a value written with [setSyncValue] is the value
    [getSyncValue] reads back under that key, whether the key was
    stored before or not; every other key reads as before; the block
    and epoch tables are not touched. *)
Theorem setSyncValue_then_getSyncValue
    (thr : nat -> bool) (k k' : string) (v : Z) (db : Db) :
  thr (stmtNo db) = false ->
  thr (S (stmtNo db)) = false ->
  let db1 := snd (setSyncValue thr k v db) in
  fst (getSyncValue thr k db1) = Ok (Some v)
  /\ (k' <> k ->
      fst (getSyncValue thr k' db1)
      = Ok (storedValue k' (syncState db)))
  /\ coreBlockFees db1 = coreBlockFees db
  /\ platformEpochFees db1 = platformEpochFees db.
Proof.
  intros H0 H1 db1. unfold db1, setSyncValue, stmt. rewrite H0. simpl.
  rewrite !getSyncValue_reads by exact H1. simpl.
  rewrite !storedValue_upsert, String.eqb_refl.
  repeat split. intro Hne.
  apply String.eqb_neq in Hne. rewrite Hne. reflexivity.
Qed.

Lemma setSyncValue_then_getSyncValue_witness :
  let db := mkDb [] [] [("backfill_target_height"%string, 2390000)] O in
  let db1 := snd (setSyncValue (fun _ => false) "backfill_oldest_height"
                               2395000 db) in
  fst (getSyncValue (fun _ => false) "backfill_oldest_height" db1)
  = Ok (Some 2395000)
  /\ fst (getSyncValue (fun _ => false) "backfill_target_height" db1)
     = Ok (Some 2390000).
Proof.
  intros db db1.
  destruct (setSyncValue_then_getSyncValue (fun _ => false)
              "backfill_oldest_height" "backfill_target_height" 2395000 db
              eq_refl eq_refl) as (H1 & H2 & _).
  split; [exact H1 | apply H2; discriminate].
Defined.

(** ** Source selector *)

(** X3: the verdict of [checkRpcAvailability] is cached: whatever the
    cached verdict was, the call leaves a definite verdict equal to its
    answer, and the next call gives the same answer without probing.
    At most one probe is made, and none when the source is not
    configured. *)
Theorem checkRpcAvailability_caches_its_answer
    (u : Upstream) (v : option bool) :
  let '(b, v', ev) := checkRpcAvailability u v in
  v' = Some b
  /\ checkRpcAvailability u v' = (b, v', [])
  /\ (ev = [] \/ ev = [EvProbe])
  /\ (rpcConfigured u = false -> ev = [] /\ (v = None -> b = false)).
Proof.
  unfold checkRpcAvailability. destruct v as [b|]; simpl.
  - repeat split; auto. discriminate.
  - destruct (rpcConfigured u); simpl.
    + destruct (rpcProbe u); repeat split; auto; discriminate.
    + repeat split; auto.
Qed.


Lemma extends_refl (rows t : list BlockRow) : extends rows t t.
Proof. exists []. split; [symmetry; apply app_nil_r | intros r []]. Qed.

Lemma extends_trans (rows1 rows2 t1 t2 t3 : list BlockRow) :
  extends rows1 t1 t2 -> extends rows2 t2 t3 ->
  extends (rows1 ++ rows2) t1 t3.
Proof.
  intros (a1 & -> & H1) (a2 & -> & H2). exists (a1 ++ a2).
  split; [symmetry; apply app_assoc|].
  intros r Hr. rewrite map_app. apply in_or_app. apply in_app_or in Hr.
  destruct Hr as [Hr|Hr]; [left; apply H1, Hr | right; apply H2, Hr].
Qed.

Lemma extends_weaken (rows rows' t t' : list BlockRow) :
  incl rows rows' -> extends rows t t' -> extends rows' t t'.
Proof.
  intros Hi (a & -> & Ha). exists a. split; [reflexivity|].
  intros r Hr. apply (incl_map storedRow Hi), Ha, Hr.
Qed.

Lemma hasKey_false_notin (k : string) (t : list BlockRow) :
  hasKey hash String.eqb k t = false -> ~ In k (map hash t).
Proof.
  unfold hasKey. induction t as [|r t IH]; simpl; [tauto|].
  destruct (String.eqb (hash r) k) eqn:E; [discriminate|].
  intros H [Hr|Hr]; [|exact (IH H Hr)].
  apply String.eqb_neq in E. contradiction.
Qed.

(** What one [insertBlockRow] does to the database. *)
Lemma insertBlockRow_effect (thr : nat -> bool) (row : BlockRow) (db : Db) :
  let db' := snd (insertBlockRow thr row db) in
  extends [row] (coreBlockFees db) (coreBlockFees db')
  /\ (NoDup (map hash (coreBlockFees db)) ->
      NoDup (map hash (coreBlockFees db')))
  /\ platformEpochFees db' = platformEpochFees db
  /\ syncState db' = syncState db.
Proof.
  unfold insertBlockRow, stmt. destruct (thr (stmtNo db)); simpl.
  - repeat split; [apply extends_refl | tauto].
  - unfold insertOnConflictDoNothing.
    change (hash (storedRow row)) with (hash row).
    destruct (hasKey hash String.eqb (hash row) (coreBlockFees db)) eqn:Hk.
    + repeat split; [apply extends_refl | tauto].
    + repeat split.
      * exists [storedRow row]. split; [reflexivity | apply incl_refl].
      * intro Hnd. rewrite map_app. simpl.
        apply NoDup_app; [exact Hnd | repeat constructor; intros [] | ].
        intros k Hin [<-|[]]. exact (hasKey_false_notin _ _ Hk Hin).
Qed.

Lemma keeps_refl (db : Db) : keeps [] db db.
Proof. repeat split; [apply extends_refl | tauto]. Qed.

Lemma keeps_same_tables (ev : list Event) (db db' : Db) :
  coreBlockFees db' = coreBlockFees db ->
  platformEpochFees db' = platformEpochFees db ->
  keeps ev db db'.
Proof.
  intros H1 H2. unfold keeps. rewrite H1, H2.
  repeat split; [apply extends_refl | tauto].
Qed.

Lemma keeps_trans (ev1 ev2 : list Event) (db1 db2 db3 : Db) :
  keeps ev1 db1 db2 -> keeps ev2 db2 db3 -> keeps (ev1 ++ ev2) db1 db3.
Proof.
  intros (E1 & N1 & P1) (E2 & N2 & P2). repeat split.
  - rewrite insertedRows_app. exact (extends_trans _ _ _ _ _ E1 E2).
  - intro H. apply N2, N1, H.
  - rewrite P2. exact P1.
Qed.

Lemma keeps_more_events (ev ev' : list Event) (db db' : Db) :
  insertedRows ev' = insertedRows ev -> keeps ev db db' -> keeps ev' db db'.
Proof. unfold keeps. intros ->. tauto. Qed.

Lemma insertBlockRow_keeps (thr : nat -> bool) (row : BlockRow) (db : Db) :
  keeps [EvInsert row] db (snd (insertBlockRow thr row db)).
Proof.
  destruct (insertBlockRow_effect thr row db) as (E & N & P & _).
  repeat split; assumption.
Qed.

Lemma storeFetched_keeps (thr : nat -> bool)
    (results : list (option BlockData)) :
  forall db n,
    let '(db', n', ev) := storeFetched thr results db n in
    keeps ev db db' /\ syncState db' = syncState db
    /\ n <= n' <= n + Z.of_nat (List.length (insertedRows ev))
    /\ (List.length (insertedRows ev) <= List.length results)%nat.
Proof.
  induction results as [|[v|] rest IH]; intros db n; simpl.
  - split; [apply keeps_refl | repeat split; lia].
  - pose proof (insertBlockRow_keeps thr (blockDataToRow v) db) as Hk.
    pose proof (insertBlockRow_effect thr (blockDataToRow v) db)
      as (_ & _ & _ & Hs).
    destruct (insertBlockRow thr (blockDataToRow v) db) as [ok db1].
    specialize (IH db1 (if ok then n + 1 else n)).
    destruct (storeFetched thr rest db1 (if ok then n + 1 else n))
      as [[db2 m] ev].
    destruct IH as (Hk2 & Hs2 & Hn & Hl). simpl in *.
    split; [|split; [|split; [split|]]].
    + exact (keeps_trans [EvInsert (blockDataToRow v)] ev _ _ _ Hk Hk2).
    + rewrite Hs2. exact Hs.
    + destruct ok; lia.
    + destruct ok; lia.
    + lia.
  - specialize (IH db n).
    destruct (storeFetched thr rest db n) as [[db2 m] ev].
    destruct IH as (Hk2 & Hs2 & Hn & Hl).
    split; [exact Hk2 | split; [exact Hs2 | split; lia]].
Qed.

Lemma forwardLoop_keeps (u : Upstream) (cur toFetch size wait : Z) :
  forall fuel i batch db n,
    let '(db', n', ev) :=
      forwardLoop u fuel cur toFetch size wait i batch db n in
    keeps ev db db' /\ syncState db' = syncState db
    /\ n <= n' <= n + Z.of_nat (List.length (insertedRows ev))
    /\ (List.length (insertedRows ev) <= List.length (fetchedHeights ev))%nat
    /\ Forall (fun d => d = wait) (delays ev).
Proof.
  assert (Hstop : forall db n,
            keeps [] db db /\ syncState db = syncState db
            /\ n <= n <= n + Z.of_nat (List.length (insertedRows []))
            /\ (List.length (insertedRows [])
                <= List.length (fetchedHeights []))%nat
            /\ Forall (fun d => d = wait) (delays [])).
  { intros db n. split; [apply keeps_refl|].
    simpl. repeat split; try lia. constructor. }
  induction fuel as [|fuel IH]; intros i batch db n; simpl.
  - apply Hstop.
  - destruct (i <? toFetch); [|apply Hstop].
    set (hs := map (fun j => cur - j) (zrange i (Z.min (i + size) toFetch))).
    pose proof (storeFetched_keeps (dbThrows u)
                  (map (fetchBlock u batch) hs) db n) as Hst.
    pose proof (storeFetched_events (dbThrows u)
                  (map (fetchBlock u batch) hs) db n) as Hq.
    destruct (storeFetched (dbThrows u) (map (fetchBlock u batch) hs) db n)
      as [[db1 n1] ev1].
    specialize (IH (i + size) (S batch) db1 n1).
    destruct (forwardLoop u fuel cur toFetch size wait (i + size) (S batch)
                db1 n1) as [[db2 n2] ev2].
    destruct Hst as (K1 & S1 & N1 & L1).
    destruct IH as (K2 & S2 & N2 & L2 & D2).
    simpl in Hq. destruct Hq as [Hf1 Hd1]. rewrite length_map in L1.
    set (evd := if i + size <? toFetch then [EvDelay wait] else []).
    assert (Hevd : insertedRows evd = [] /\ fetchedHeights evd = []
                   /\ Forall (fun d => d = wait) (delays evd)).
    { unfold evd. destruct (i + size <? toFetch); simpl;
        repeat split; repeat constructor. }
    destruct Hevd as (Hi & Hf & Hd).
    assert (Hrows : insertedRows (map EvFetch hs ++ ev1 ++ evd ++ ev2)
                    = insertedRows ev1 ++ insertedRows ev2).
    { rewrite !insertedRows_app, insertedRows_fetches, Hi. reflexivity. }
    split; [|split; [|split; [split|split]]].
    + apply (keeps_more_events (ev1 ++ ev2)); [|exact (keeps_trans _ _ _ _ _ K1 K2)].
      rewrite Hrows, insertedRows_app. reflexivity.
    + rewrite S2. exact S1.
    + lia.
    + rewrite Hrows, length_app. lia.
    + rewrite Hrows, !fetchedHeights_app, fetchedHeights_fetches, Hf1, Hf.
      simpl. rewrite !length_app. lia.
    + rewrite !delays_app, delays_fetches, Hd1. simpl.
      apply Forall_app. split; assumption.
Qed.


Lemma fetchCoreStatus_quiet (u : Upstream) (sv : Service) :
  let ev := snd (fetchCoreStatus u sv) in
  fetchedHeights ev = [] /\ insertedRows ev = [] /\ delays ev = [].
Proof.
  simpl. rewrite fetchCoreStatus_events.
  apply (checkRpcAvailability_quiet u (rpcAvailable sv)).
Qed.

(** The events of one forward sync are those of its loop, up to
    probes. *)
Lemma syncNewCoreBlocks_shape (u : Upstream) (sv : Service) (db : Db) :
  let '(n, _, db', ev) := syncNewCoreBlocks u sv db in
  (n = 0 /\ fetchedHeights ev = [] /\ insertedRows ev = []
   /\ delays ev = [] /\ coreBlockFees db' = coreBlockFees db
   /\ platformEpochFees db' = platformEpochFees db
   /\ syncState db' = syncState db)
  \/ exists cur (useRpc : bool) ev2 db1,
       dbThrows u (stmtNo db) = false
       /\ fst (fst (fetchCoreStatus u sv)) = Some cur
       /\ coreBlockFees db1 = coreBlockFees db
       /\ platformEpochFees db1 = platformEpochFees db
       /\ syncState db1 = syncState db
       /\ (let toFetch :=
             forwardToFetch (orZero (maxHeight (coreBlockFees db))) cur in
           forwardLoop u (Z.to_nat toFetch) cur toFetch
             (if useRpc then 10 else 2) (if useRpc then 100 else 2000)
             0 O db1 0 = (db', n, ev2))
       /\ fetchedHeights ev = fetchedHeights ev2
       /\ insertedRows ev = insertedRows ev2
       /\ delays ev = delays ev2.
Proof.
  unfold syncNewCoreBlocks, stmt.
  destruct (dbThrows u (stmtNo db)) eqn:Hthr; simpl;
    [left; repeat split|].
  pose proof (fetchCoreStatus_quiet u sv) as Hq0.
  destruct (fetchCoreStatus u sv) as [[st sv1] ev0]. simpl in Hq0.
  destruct Hq0 as (F0 & I0 & D0).
  destruct st as [cur|]; [|left; repeat split; assumption].
  destruct (truthy cur); simpl; [|left; repeat split; assumption].
  destruct (truthy (orZero (maxHeight (coreBlockFees db)))
            && (cur <=? orZero (maxHeight (coreBlockFees db))));
    [left; repeat split; assumption|].
  pose proof (checkRpcAvailability_quiet u (rpcAvailable sv1)) as Hq1.
  destruct (checkRpcAvailability u (rpcAvailable sv1)) as [[useRpc v] ev1].
  simpl in Hq1. destruct Hq1 as (F1 & I1 & D1).
  match goal with
  | |- context [forwardLoop ?a ?b ?c ?d ?e ?f ?g ?h ?i ?j] =>
      destruct (forwardLoop a b c d e f g h i j) as [[db2 n] ev2] eqn:Hloop
  end.
  right. exists cur, useRpc, ev2. eexists.
  split; [reflexivity|]. split; [reflexivity|].
  split; [|split; [|split; [|split; [exact Hloop|]]]]; try reflexivity.
  rewrite !fetchedHeights_app, !insertedRows_app, !delays_app.
  rewrite F0, F1, I0, I1, D0, D1. repeat split.
Qed.



(** X5: forward sync does nothing when there is nothing newer to
    fetch: when the status query yields no height, or height 0, or a
    height that does not exceed a non-zero cached maximum, the call
    returns 0 without asking for a block, inserting or waiting, and the
    tables are as before. *)
Theorem forward_sync_does_nothing_when_caught_up
    (u : Upstream) (sv : Service) (db : Db) :
  (forall cur, fst (fst (fetchCoreStatus u sv)) = Some cur ->
     cur = 0
     \/ (orZero (maxHeight (coreBlockFees db)) <> 0
         /\ cur <= orZero (maxHeight (coreBlockFees db)))) ->
  let '(n, _, db', ev) := syncNewCoreBlocks u sv db in
  n = 0 /\ fetchedHeights ev = [] /\ insertedRows ev = [] /\ delays ev = []
  /\ coreBlockFees db' = coreBlockFees db
  /\ platformEpochFees db' = platformEpochFees db
  /\ syncState db' = syncState db.
Proof.
  intro Hst. unfold syncNewCoreBlocks, stmt.
  destruct (dbThrows u (stmtNo db)); simpl; [repeat split|].
  pose proof (fetchCoreStatus_quiet u sv) as Hq0.
  destruct (fetchCoreStatus u sv) as [[st sv1] ev0]. simpl in Hq0, Hst.
  destruct Hq0 as (F0 & I0 & D0).
  destruct st as [cur|]; [|repeat split; assumption].
  destruct (Hst cur eq_refl) as [->|[Hne Hle]]; [repeat split; assumption|].
  destruct (truthy cur); simpl; [|repeat split; assumption].
  assert (Hskip : truthy (orZero (maxHeight (coreBlockFees db)))
                  && (cur <=? orZero (maxHeight (coreBlockFees db))) = true).
  { apply andb_true_iff. split.
    - unfold truthy. apply negb_true_iff, Z.eqb_neq, Hne.
    - apply Z.leb_le, Hle. }
  rewrite Hskip. repeat split; assumption.
Qed.

Lemma forward_sync_does_nothing_when_caught_up_witness :
  let u := mkUpstream false false None (Some 150) None
                      (fun _ h => Some (sampleBlock h)) (fun _ => false) 0 in
  let '(n, _, db', ev) := syncNewCoreBlocks u initialService seeded in
  n = 0 /\ fetchedHeights ev = []
  /\ coreBlockFees db' = coreBlockFees seeded.
Proof.
  intro u.
  pose proof (forward_sync_does_nothing_when_caught_up u initialService
                seeded) as H.
  destruct (syncNewCoreBlocks u initialService seeded)
    as [[[n sv'] db'] ev].
  destruct H as (H1 & H2 & _ & _ & H5 & _).
  - intros cur Hc. injection Hc as <-. right. simpl. split; lia.
  - repeat split; assumption.
Defined.

Lemma repeat_app_one (A : Type) (x : A) (n : nat) :
  x :: repeat x n = repeat x (S n).
Proof. reflexivity. Qed.

Lemma forwardLoop_delays (u : Upstream) (cur toFetch size wait : Z) :
  1 <= size ->
  forall fuel i batch db n,
    0 <= i -> toFetch - i <= Z.of_nat fuel ->
    delays (snd (forwardLoop u fuel cur toFetch size wait i batch db n))
    = repeat wait (Z.to_nat ((toFetch - 1 - i) / size)).
Proof.
  intros Hsize fuel.
  induction fuel as [|fuel IH]; intros i batch db n Hi Hfuel.
  - simpl.
    replace (Z.to_nat ((toFetch - 1 - i) / size)) with O; [reflexivity|].
    assert ((toFetch - 1 - i) / size < 0)
      by (apply Z.div_lt_upper_bound; lia).
    lia.
  - simpl. destruct (i <? toFetch) eqn:Hlt.
    + apply Z.ltb_lt in Hlt.
      set (hs := map (fun j => cur - j) (zrange i (Z.min (i + size) toFetch))).
      pose proof (storeFetched_events (dbThrows u)
                    (map (fetchBlock u batch) hs) db n) as Hq.
      destruct (storeFetched (dbThrows u) (map (fetchBlock u batch) hs) db n)
        as [[db1 n1] ev1].
      specialize (IH (i + size) (S batch) db1 n1 ltac:(lia) ltac:(lia)).
      destruct (forwardLoop u fuel cur toFetch size wait (i + size)
                  (S batch) db1 n1) as [[db2 n2] ev2].
      simpl in *. destruct Hq as [_ Hd1].
      rewrite !delays_app, delays_fetches, Hd1, IH. simpl.
      destruct (i + size <? toFetch) eqn:Hmore.
      * apply Z.ltb_lt in Hmore. simpl.
        replace (toFetch - 1 - i)
          with (toFetch - 1 - (i + size) + 1 * size) by lia.
        rewrite Z.div_add by lia.
        assert (0 <= (toFetch - 1 - (i + size)) / size)
          by (apply Z.div_pos; lia).
        rewrite Z2Nat.inj_add by lia. rewrite Nat.add_comm. reflexivity.
      * apply Z.ltb_ge in Hmore. simpl.
        rewrite (Z.div_small (toFetch - 1 - i)) by lia.
        replace (Z.to_nat ((toFetch - 1 - (i + size)) / size)) with O;
          [reflexivity|].
        assert ((toFetch - 1 - (i + size)) / size < 0)
          by (apply Z.div_lt_upper_bound; lia).
        lia.
    + apply Z.ltb_ge in Hlt. simpl.
      replace (Z.to_nat ((toFetch - 1 - i) / size)) with O; [reflexivity|].
      assert ((toFetch - 1 - i) / size < 0)
        by (apply Z.div_lt_upper_bound; lia).
      lia.
Qed.

Lemma fetchCoreStatus_verdict (u : Upstream) (sv : Service) :
  rpcAvailable (snd (fst (fetchCoreStatus u sv)))
  = snd (fst (checkRpcAvailability u (rpcAvailable sv))).
Proof.
  unfold fetchCoreStatus.
  destruct (checkRpcAvailability u (rpcAvailable sv)) as [[useRpc v] ev].
  simpl.
  destruct (if useRpc then rpcBlockCount u else None); [reflexivity|].
  destruct (insightBlocks u) as [b|];
    [destruct (truthy b); [reflexivity|]|];
    (destruct (blockbookBest u) as [c|];
       [destruct (truthy c); reflexivity | reflexivity]).
Qed.

Lemma checkRpcAvailability_again (u : Upstream) (v : option bool) :
  checkRpcAvailability u (snd (fst (checkRpcAvailability u v)))
  = (fst (fst (checkRpcAvailability u v)),
     snd (fst (checkRpcAvailability u v)), []).
Proof.
  unfold checkRpcAvailability. destruct v as [b|]; [reflexivity|].
  destruct (rpcConfigured u); simpl; [|reflexivity].
  destruct (rpcProbe u); reflexivity.
Qed.

(** X6: forward sync waits between batches and not after the last
    one: fetching [n] heights in batches of 10 with the privileged
    source (of 2 with the public one) it waits [(n - 1) / size] times,
    100 ms (2000 ms) each. *)
Theorem forward_sync_waits_between_batches
    (u : Upstream) (sv : Service) (db : Db) (cur : Z) :
  dbThrows u (stmtNo db) = false ->
  fst (fst (fetchCoreStatus u sv)) = Some cur ->
  let highest := orZero (maxHeight (coreBlockFees db)) in
  0 <= highest < cur ->
  let n := if highest =? 0 then 20 else Z.min (cur - highest) 50 in
  let useRpc := fst (fst (checkRpcAvailability u (rpcAvailable sv))) in
  delays (snd (syncNewCoreBlocks u sv db))
  = repeat (if useRpc then 100 else 2000)
           (Z.to_nat ((n - 1) / (if useRpc then 10 else 2))).
Proof.
  intros Hdb Hst highest Hh n useRpc.
  unfold useRpc. clear useRpc.
  unfold syncNewCoreBlocks, stmt in *. rewrite Hdb in *. simpl in *.
  fold highest.
  pose proof (fetchCoreStatus_verdict u sv) as Hv.
  pose proof (fetchCoreStatus_quiet u sv) as Hq0.
  destruct (fetchCoreStatus u sv) as [[st sv1] ev0].
  simpl in Hst, Hv, Hq0. subst st. destruct Hq0 as (_ & _ & D0).
  assert (Hcur : truthy cur = true)
    by (unfold truthy; apply negb_true_iff, Z.eqb_neq; lia).
  rewrite Hcur in *. simpl in *.
  assert (Hskip : truthy highest && (cur <=? highest) = false).
  { apply andb_false_iff. right. apply Z.leb_gt. lia. }
  rewrite Hskip in *.
  rewrite Hv, checkRpcAvailability_again in *.
  set (b := fst (fst (checkRpcAvailability u (rpcAvailable sv)))) in *.
  assert (HtoFetch : forwardToFetch highest cur = n).
  { unfold forwardToFetch, truthy, n. destruct (highest =? 0); reflexivity. }
  rewrite HtoFetch in *.
  match goal with
  | |- context [forwardLoop ?a ?b0 ?c ?d ?e ?f ?g ?h ?i ?j] =>
      pose proof (forwardLoop_delays a c d e f
                    ltac:(destruct b; lia) b0 g h i j ltac:(lia) ltac:(lia))
        as Hd;
      destruct (forwardLoop a b0 c d e f g h i j) as [[db2 n2] ev2]
  end.
  simpl in *. rewrite !delays_app, D0, Hd. simpl.
  rewrite Z.sub_0_r. reflexivity.
Qed.

Lemma forward_sync_waits_between_batches_witness :
  let u := mkUpstream false false None (Some 163) None (fun _ _ => None)
                      (fun _ => false) 0 in
  delays (snd (syncNewCoreBlocks u initialService seeded))
  = [2000; 2000; 2000; 2000; 2000; 2000].
Proof.
  intro u.
  apply (forward_sync_waits_between_batches u initialService seeded 163);
    [reflexivity | reflexivity | simpl; lia].
Defined.


(** ** Backfill: what a run leaves behind *)

Lemma storeBackfilled_keeps (thr : nat -> bool)
    (results : list (option BlockData)) :
  forall db n f,
    let '(db', _, _, ev) := storeBackfilled thr results db n f in
    keeps ev db db' /\ syncState db' = syncState db.
Proof.
  induction results as [|[v|] rest IH]; intros db n f; simpl.
  - split; [apply keeps_refl | reflexivity].
  - destruct (bd_time v >=? JAN_1_2026_UNIX); [|apply IH].
    pose proof (insertBlockRow_keeps thr (blockDataToRow v) db) as Hk.
    pose proof (insertBlockRow_effect thr (blockDataToRow v) db)
      as (_ & _ & _ & Hs).
    destruct (insertBlockRow thr (blockDataToRow v) db) as [ok db1].
    specialize (IH db1 (if ok then n + 1 else n) f).
    destruct (storeBackfilled thr rest db1 (if ok then n + 1 else n) f)
      as [[[db2 m] g] ev].
    destruct IH as [Hk2 Hs2]. simpl in *. split.
    + exact (keeps_trans [EvInsert (blockDataToRow v)] ev _ _ _ Hk Hk2).
    + rewrite Hs2. exact Hs.
  - apply IH.
Qed.

Lemma setSyncValue_keeps (thr : nat -> bool) (k : string) (v : Z) (db : Db) :
  keeps [] db (snd (setSyncValue thr k v db)).
Proof.
  apply keeps_same_tables; unfold setSyncValue, stmt;
    destruct (thr (stmtNo db)); reflexivity.
Qed.

(** One pass keeps the run flag, the source verdict and the status, and
    leaves the cursor where it was or moves it down by one batch. *)
Lemma backfillPass_effect (u : Upstream) (useRpc : bool)
    (oldest target : Z) (wk : Walk) (sv : Service) (db : Db) :
  let '(r, sv', db', ev) := backfillPass u useRpc oldest target wk sv db in
  keeps ev db db'
  /\ backfillRunning sv' = backfillRunning sv
  /\ status (backfillProgress sv') = status (backfillProgress sv)
  /\ fetchedHeights ev = batchAt useRpc target (currentHeight wk)
  /\ match r with
     | Ok wk' => currentHeight wk' = currentHeight wk
                 \/ currentHeight wk' = currentHeight wk - BATCH_SIZE useRpc
     | Threw => True
     end.
Proof.
  unfold backfillPass.
  set (hs := batchAt useRpc target (currentHeight wk)).
  pose proof (storeBackfilled_keeps (dbThrows u)
                (map (fetchBlock u (batchNo wk)) hs) db 0 false) as Hk.
  pose proof (storeBackfilled_cutoff (dbThrows u)
                (map (fetchBlock u (batchNo wk)) hs) db 0 false) as Hq.
  destruct (storeBackfilled (dbThrows u) (map (fetchBlock u (batchNo wk)) hs)
              db 0 false) as [[[db1 n] f] ev1].
  destruct Hk as [Hk _]. destruct Hq as (_ & _ & Hf1 & _).
  assert (Hev : forall tail,
            insertedRows tail = [] -> fetchedHeights tail = [] ->
            keeps (map EvFetch hs ++ ev1 ++ tail) db db1
            /\ fetchedHeights (map EvFetch hs ++ ev1 ++ tail) = hs).
  { intros tail Hi Hf. split.
    - apply (keeps_more_events ev1); [|exact Hk].
      rewrite !insertedRows_app, insertedRows_fetches, Hi.
      simpl. apply app_nil_r.
    - rewrite !fetchedHeights_app, fetchedHeights_fetches, Hf1, Hf.
      apply app_nil_r. }
  destruct (f && (n =? 0)).
  - destruct (Hev [EvDelay (backoff useRpc (consecutiveErrors wk + 1))]
                  eq_refl eq_refl) as [K F].
    repeat split; try assumption; try reflexivity;
      try exact (proj1 K); try exact (proj1 (proj2 K));
      try exact (proj2 (proj2 K)).
    left. reflexivity.
  - destruct ((Z.rem (totalInserted wk + n) 200 =? 0)
              && (totalInserted wk + n >? 0)).
    + match goal with
      | |- context [setSyncValue ?t ?k ?v ?d] =>
          pose proof (setSyncValue_keeps t k v d) as Hset;
          destruct (setSyncValue t k v d) as [r db2]
      end.
      simpl in Hset.
      destruct r.
      * destruct (Hev [EvCheckpoint "backfill_oldest_height"
                         (currentHeight wk - BATCH_SIZE useRpc);
                       EvDelay (DELAY_MS useRpc)] eq_refl eq_refl) as [K F].
        pose proof (keeps_trans _ _ _ _ _ K Hset) as K2.
        rewrite app_nil_r in K2.
        split; [exact K2|]. repeat split; try assumption.
        right. reflexivity.
      * destruct (Hev [] eq_refl eq_refl) as [K F].
        rewrite app_nil_r in K, F.
        pose proof (keeps_trans _ _ _ _ _ K Hset) as K2.
        rewrite app_nil_r in K2.
        split; [exact K2|]. repeat split; assumption.
    + destruct (Hev [EvDelay (DELAY_MS useRpc)] eq_refl eq_refl) as [K F].
      split; [exact K|]. repeat split; try assumption.
      right. reflexivity.
Qed.

Lemma batchAt_bounds (useRpc : bool) (target cur : Z) :
  Forall (fun h => cur - BATCH_SIZE useRpc < h <= cur)
         (batchAt useRpc target cur).
Proof.
  rewrite batchAt_range. apply Forall_forall. intros h Hh.
  apply in_map_iff in Hh. destruct Hh as (j & <- & Hj).
  unfold zrange in Hj.
  assert (Hrange : forall n x y, In y (countUp n x) ->
                                 x <= y < x + Z.of_nat n).
  { induction n as [|n IH]; intros x y Hy; [destruct Hy|].
    destruct Hy as [<-|Hy]; [lia|]. apply IH in Hy. lia. }
  apply Hrange in Hj. pose proof (size_positive useRpc). lia.
Qed.

Lemma backfillLoop_effect (u : Upstream) (useRpc : bool) (oldest target : Z) :
  forall fuel wk sv db,
    let '(e, wk', sv', db', ev) :=
      backfillLoop u useRpc oldest target fuel wk sv db in
    keeps ev db db'
    /\ backfillRunning sv' = backfillRunning sv
    /\ status (backfillProgress sv') = status (backfillProgress sv)
    /\ Forall (fun h => h <= currentHeight wk) (fetchedHeights ev)
    /\ (e = Exited ->
        currentHeight wk' < target \/ backfillRunning sv = false).
Proof.
  induction fuel as [|fuel IH]; intros wk sv db; simpl.
  - split; [apply keeps_refl|]. repeat split; [constructor|].
    destruct (currentHeight wk >=? target) eqn:Hc;
      destruct (backfillRunning sv); simpl; try discriminate; intros _;
      try (right; reflexivity).
    left. destruct (Z.lt_ge_cases (currentHeight wk) target) as [H|H];
      [exact H|]. apply Z.geb_le in H. congruence.
  - destruct ((currentHeight wk >=? target) && backfillRunning sv) eqn:Hc.
    + pose proof (backfillPass_effect u useRpc oldest target wk sv db) as Hp.
      destruct (backfillPass u useRpc oldest target wk sv db)
        as [[[r sv1] db1] ev1].
      destruct Hp as (K1 & R1 & S1 & F1 & C1).
      pose proof (batchAt_bounds useRpc target (currentHeight wk)) as Hb.
      assert (Hfirst : Forall (fun h => h <= currentHeight wk)
                              (fetchedHeights ev1)).
      { rewrite F1. eapply Forall_impl; [|exact Hb]. simpl. intros; lia. }
      destruct r as [wk1|].
      * specialize (IH wk1 sv1 db1).
        destruct (backfillLoop u useRpc oldest target fuel wk1 sv1 db1)
          as [[[[e wk2] sv2] db2] ev2].
        destruct IH as (K2 & R2 & S2 & F2 & E2).
        split; [exact (keeps_trans _ _ _ _ _ K1 K2)|].
        split; [congruence|]. split; [congruence|]. split.
        -- rewrite fetchedHeights_app. apply Forall_app. split;
             [exact Hfirst|].
           eapply Forall_impl; [|exact F2]. simpl. intros h Hh.
           pose proof (size_positive useRpc). destruct C1; lia.
        -- intro He. destruct (E2 He) as [H|H]; [left; exact H|].
           right. congruence.
      * split; [exact K1|]. repeat split; try assumption. discriminate.
    + split; [apply keeps_refl|]. repeat split; [constructor|]. intros _.
      apply andb_false_iff in Hc. destruct Hc as [Hc|Hc];
        [left | right; exact Hc].
      destruct (Z.lt_ge_cases (currentHeight wk) target) as [H|H];
        [exact H|]. apply Z.geb_le in H. congruence.
Qed.

Lemma estimateTargetHeight_keeps (u : Upstream) (db : Db) :
  let '(_, db', ev) := estimateTargetHeight u db in keeps ev db db'.
Proof.
  pose proof (estimateTargetHeight_quiet u db) as H.
  assert (He : platformEpochFees (snd (fst (estimateTargetHeight u db)))
               = platformEpochFees db).
  { unfold estimateTargetHeight, getSyncValue, setSyncValue, stmt. simpl.
    destruct (dbThrows u (stmtNo db)); [reflexivity|].
    destruct (option_map snd _) as [n|]; [reflexivity|]. simpl.
    destruct (dbThrows u (S (stmtNo db))); [reflexivity|].
    destruct (maxHeight (coreBlockFees db)) as [m|]; [|reflexivity].
    destruct (truthy m); [|reflexivity]. simpl.
    destruct (dbThrows u (S (S (stmtNo db)))); reflexivity. }
  destruct (estimateTargetHeight u db) as [[t db'] ev].
  destruct H as (Hb & Hi & _). simpl in He.
  apply (keeps_more_events []); [exact Hi|].
  apply keeps_same_tables; assumption.
Qed.

(** What a backfill call does to the tables and to the run flag. *)
Lemma startCoreBackfill_effect
    (u : Upstream) (fuel : nat) (sv : Service) (db : Db) :
  let '(returned, sv', db', ev) := startCoreBackfill u fuel sv db in
  keeps ev db db'
  /\ (backfillRunning sv = true ->
      returned = true /\ sv' = sv /\ db' = db /\ ev = [])
  /\ (backfillRunning sv = false -> returned = true ->
      backfillRunning sv' = false)
  /\ (returned = false ->
      backfillRunning sv' = true
      /\ status (backfillProgress sv') = running).
Proof.
  unfold startCoreBackfill.
  destruct (backfillRunning sv) eqn:Hrun.
  { split; [apply keeps_refl|]. repeat split; discriminate. }
  assert (Hstmt : keeps [] db (snd (stmt (dbThrows u) db)))
    by (apply keeps_same_tables; reflexivity).
  unfold stmt in *. simpl in Hstmt.
  set (db1 := mkDb _ _ _ _) in *.
  destruct (dbThrows u (stmtNo db)); simpl.
  { split; [exact Hstmt|]. repeat split; discriminate. }
  destruct (truthy (orZero (minHeight (coreBlockFees db)))); simpl.
  2:{ split; [exact Hstmt|]. repeat split; discriminate. }
  pose proof (estimateTargetHeight_keeps u db1) as Hest.
  destruct (estimateTargetHeight u db1) as [[t db2] ev0].
  pose proof (keeps_trans _ _ _ _ _ Hstmt Hest) as K0. simpl in K0.
  destruct t as [target|].
  2:{ split; [exact K0|]. repeat split; discriminate. }
  destruct (orZero (minHeight (coreBlockFees db)) <=? target).
  { split; [exact K0|]. repeat split; discriminate. }
  simpl.
  pose proof (checkRpcAvailability_quiet u (rpcAvailable sv)) as Hq.
  destruct (checkRpcAvailability u (rpcAvailable sv)) as [[useRpc v] ev1].
  simpl in Hq. destruct Hq as (_ & I1 & _).
  match goal with
  | |- context [backfillLoop ?a ?b ?c ?d ?e ?f ?g ?h] =>
      pose proof (backfillLoop_effect a b c d e f g h) as Hloop;
      destruct (backfillLoop a b c d e f g h)
        as [[[[e0 wk] sv3] db3] ev2]
  end.
  destruct Hloop as (K2 & R2 & S2 & _ & _). simpl in R2, S2.
  assert (K : keeps (ev0 ++ ev1 ++ ev2) db db3).
  { apply (keeps_more_events (ev0 ++ ev2));
      [|exact (keeps_trans _ _ _ _ _ K0 K2)].
    rewrite !insertedRows_app, I1. reflexivity. }
  destruct e0.
  - match goal with
    | |- context [setSyncValue ?t ?k ?v ?d] =>
        pose proof (setSyncValue_keeps t k v d) as Hset;
        destruct (setSyncValue t k v d) as [r db4]
    end.
    simpl in Hset.
    pose proof (keeps_trans _ _ _ _ _ K Hset) as K4.
    rewrite app_nil_r in K4.
    destruct r.
    + split.
      * apply (keeps_more_events (ev0 ++ ev1 ++ ev2)); [|exact K4].
        rewrite !app_assoc, insertedRows_app. simpl. apply app_nil_r.
      * repeat split; discriminate.
    + split; [exact K4|]. repeat split; discriminate.
  - split; [exact K|]. repeat split; discriminate.
  - split; [exact K|].
    split; [discriminate|]. split; [discriminate|].
    intros _. split; [exact R2 | exact S2]. 
Qed.



(** X8: backfill does not walk when there is nothing to walk.  On an
    empty cache (or one whose lowest height is 0) the call returns at
    once, leaving the service state and the tables as they were, and
    without even computing a target; when the oldest cached height is
    at or below the target it returns with status "complete", without
    asking for a block, inserting or waiting. *)
Theorem backfill_does_not_walk_without_work
    (u : Upstream) (fuel : nat) (sv : Service) (db : Db) :
  backfillRunning sv = false ->
  dbThrows u (stmtNo db) = false ->
  let oldest := orZero (minHeight (coreBlockFees db)) in
  let db1 := snd (stmt (dbThrows u) db) in
  (oldest = 0 -> startCoreBackfill u fuel sv db = (true, sv, db1, []))
  /\ (forall target,
        oldest <> 0 ->
        fst (fst (estimateTargetHeight u db1)) = Ok target ->
        oldest <= target ->
        let '(returned, sv', db', ev) := startCoreBackfill u fuel sv db in
        returned = true
        /\ backfillProgress sv'
           = setStatus complete (backfillProgress sv)
        /\ backfillRunning sv' = false
        /\ fetchedHeights ev = [] /\ insertedRows ev = [] /\ delays ev = []
        /\ coreBlockFees db' = coreBlockFees db).
Proof.
  intros Hrun Hthr oldest db1. unfold db1. clear db1.
  unfold startCoreBackfill, stmt. rewrite Hrun, Hthr. simpl.
  fold oldest. split.
  - intros ->. simpl. f_equal. f_equal. f_equal.
    destruct sv as [r p v]. simpl in Hrun. subst r. reflexivity.
  - intros target Hne Htarget Hle.
    assert (Ht : truthy oldest = true)
      by (unfold truthy; apply negb_true_iff, Z.eqb_neq, Hne).
    rewrite Ht. simpl.
    match goal with
    | |- context [estimateTargetHeight u ?d] =>
        pose proof (estimateTargetHeight_quiet u d) as Hq;
        destruct (estimateTargetHeight u d) as [[t db2] ev0]
    end.
    simpl in Htarget, Hq. subst t. destruct Hq as (B & I & F & D).
    assert (Hc : (oldest <=? target) = true) by (apply Z.leb_le, Hle).
    rewrite Hc. repeat split; assumption.
Qed.

Lemma backfill_does_not_walk_without_work_witness :
  let u := mkUpstream false false None None None
                      (fun _ h => Some (sampleBlock h)) (fun _ => false) 0 in
  startCoreBackfill u 5 initialService (mkDb [] [] [] O)
  = (true, initialService, mkDb [] [] [] 1, []).
Proof.
  intro u.
  exact (proj1 (backfill_does_not_walk_without_work u 5 initialService
                  (mkDb [] [] [] O) eq_refl eq_refl) eq_refl).
Defined.

(** ** Backfill: a batch that fails in part *)

Lemma storeBackfilled_counts (thr : nat -> bool)
    (results : list (option BlockData)) :
  (forall n, thr n = false) ->
  forall db n f,
    let '(_, n', _, _) := storeBackfilled thr results db n f in
    n <= n'
    /\ ((exists v, In (Some v) results /\ JAN_1_2026_UNIX <= bd_time v) ->
        n < n').
Proof.
  intro Hthr.
  induction results as [|[v|] rest IH]; intros db n f; simpl.
  - split; [lia|]. intros (v & [] & _).
  - destruct (bd_time v >=? JAN_1_2026_UNIX) eqn:Ht.
    + unfold insertBlockRow, stmt. rewrite Hthr.
      match goal with
      | |- context [storeBackfilled thr rest ?d ?m f] =>
          specialize (IH d m f);
          destruct (storeBackfilled thr rest d m f) as [[[db2 m'] g] ev]
      end.
      destruct IH as [IH1 IH2]. split; [lia|]. intros _. lia.
    + specialize (IH db n f).
      destruct (storeBackfilled thr rest db n f) as [[[db2 m'] g] ev].
      destruct IH as [IH1 IH2]. split; [exact IH1|].
      intros (w & [Hw|Hw] & Hcut); [|apply IH2; exists w; tauto].
      injection Hw as <-.
      destruct (Z.geb_spec (bd_time v) JAN_1_2026_UNIX); [discriminate|lia].
  - specialize (IH db n true).
    destruct (storeBackfilled thr rest db n true) as [[[db2 m'] g] ev].
    destruct IH as [IH1 IH2]. split; [exact IH1|].
    intros (w & [Hw|Hw] & Hcut); [discriminate|apply IH2; exists w; tauto].
Qed.

Lemma backfillPass_advances_on_one_success
    (u : Upstream) (useRpc : bool) (oldest target : Z)
    (wk : Walk) (sv : Service) (db : Db) (h : Z) (v : BlockData) :
  (forall n, dbThrows u n = false) ->
  In h (batchAt useRpc target (currentHeight wk)) ->
  fetchBlock u (batchNo wk) h = Some v ->
  JAN_1_2026_UNIX <= bd_time v ->
  exists total sv1 db1 ev1,
    backfillPass u useRpc oldest target wk sv db
    = (Ok (mkWalk (currentHeight wk - BATCH_SIZE useRpc) 0 total
                  (S (batchNo wk))), sv1, db1, ev1)
    /\ totalInserted wk < total.
Proof.
  intros Hthr Hin Hfetch Hcut. unfold backfillPass.
  set (hs := batchAt useRpc target (currentHeight wk)) in *.
  pose proof (storeBackfilled_counts (dbThrows u)
                (map (fetchBlock u (batchNo wk)) hs) Hthr db 0 false) as Hc.
  destruct (storeBackfilled (dbThrows u) (map (fetchBlock u (batchNo wk)) hs)
              db 0 false) as [[[db1 n] f] ev1].
  destruct Hc as [_ Hc].
  assert (Hn : 0 < n).
  { apply Hc. exists v. split; [|exact Hcut].
    rewrite <- Hfetch. apply in_map, Hin. }
  assert (Hz : (n =? 0) = false) by (apply Z.eqb_neq; lia).
  rewrite Hz, andb_false_r.
  destruct ((Z.rem (totalInserted wk + n) 200 =? 0)
            && (totalInserted wk + n >? 0)).
  - unfold setSyncValue, stmt. rewrite Hthr.
    do 4 eexists. split; [reflexivity | lia].
  - do 4 eexists. split; [reflexivity | lia].
Qed.

(** X9: a batch in which at least one fetched block is inserted moves
    the cursor on by the full batch, whatever happened to the other
    fetches of the batch: the heights of that batch, the failed ones
    included, are asked for once and not again in the rest of the
    run. *)
Theorem partly_failed_batch_is_not_retried
    (u : Upstream) (useRpc : bool) (oldest target : Z) (fuel : nat)
    (wk : Walk) (sv : Service) (db : Db) (h : Z) (v : BlockData) :
  (forall n, dbThrows u n = false) ->
  backfillRunning sv = true ->
  target <= currentHeight wk ->
  In h (batchAt useRpc target (currentHeight wk)) ->
  fetchBlock u (batchNo wk) h = Some v ->
  JAN_1_2026_UNIX <= bd_time v ->
  let '(_, _, _, _, ev) :=
    backfillLoop u useRpc oldest target (S fuel) wk sv db in
  exists rest,
    fetchedHeights ev = batchAt useRpc target (currentHeight wk) ++ rest
    /\ Forall (fun h' => h' <= currentHeight wk - BATCH_SIZE useRpc) rest
    /\ (forall h', In h' (batchAt useRpc target (currentHeight wk)) ->
                   ~ In h' rest).
Proof.
  intros Hthr Hrun Hcur Hin Hfetch Hcut. simpl backfillLoop.
  assert (Hc : (currentHeight wk >=? target) = true) by (apply Z.geb_le; lia).
  rewrite Hc, Hrun. simpl andb. cbv iota.
  pose proof (backfillPass_effect u useRpc oldest target wk sv db) as Hp.
  destruct (backfillPass_advances_on_one_success u useRpc oldest target
              wk sv db h v Hthr Hin Hfetch Hcut)
    as (total & sv1 & db1 & ev1 & Hpass & _).
  rewrite Hpass in Hp |- *. destruct Hp as (_ & _ & _ & F1 & _).
  match goal with
  | |- context [backfillLoop u useRpc oldest target fuel ?w sv1 db1] =>
      pose proof (backfillLoop_effect u useRpc oldest target fuel w sv1 db1)
        as Hl;
      destruct (backfillLoop u useRpc oldest target fuel w sv1 db1)
        as [[[[e wk2] sv2] db2] ev2]
  end.
  destruct Hl as (_ & _ & _ & F2 & _). simpl in F2.
  exists (fetchedHeights ev2). split; [|split].
  - rewrite fetchedHeights_app, F1. reflexivity.
  - exact F2.
  - intros h' Hh' Hrest.
    pose proof (batchAt_bounds useRpc target (currentHeight wk)) as Hb.
    rewrite Forall_forall in Hb, F2.
    specialize (Hb h' Hh'). specialize (F2 h' Hrest).
    cbv beta in Hb, F2. lia.
Qed.

Lemma partly_failed_batch_is_not_retried_witness :
  let u := mkUpstream false false None None None
             (fun _ h => if h =? 148 then None else Some (sampleBlock h))
             (fun _ => false) 0 in
  let sv := mkService true (mkProgress 50 0 150 100 running) (Some false) in
  let '(_, _, _, _, ev) :=
    backfillLoop u false 150 100 3 (mkWalk 149 0 0 O) sv seeded in
  exists rest,
    fetchedHeights ev = [149; 148] ++ rest /\ ~ In 148 rest.
Proof.
  intros u sv.
  pose proof (partly_failed_batch_is_not_retried u false 150 100 2
                (mkWalk 149 0 0 O) sv seeded 149 (sampleBlock 149)
                ltac:(reflexivity) eq_refl ltac:(simpl; lia)
                ltac:(left; reflexivity) eq_refl
                ltac:(unfold JAN_1_2026_UNIX; simpl; lia)) as H.
  destruct (backfillLoop u false 150 100 3 (mkWalk 149 0 0 O) sv seeded)
    as [[[[e wk'] sv'] db'] ev].
  destruct H as (rest & H1 & _ & H3).
  exists rest. split; [exact H1|].
  apply H3. right. left. reflexivity.
Defined.


Lemma setSyncValue_sim (thr : nat -> bool) (k : string) (v : Z)
    (db1 db2 : Db) :
  sameButCheckpoint db1 db2 ->
  fst (setSyncValue thr k v db1) = fst (setSyncValue thr k v db2)
  /\ sameButCheckpoint (snd (setSyncValue thr k v db1))
                       (snd (setSyncValue thr k v db2)).
Proof.
  intros (B & E & N & Hs). unfold setSyncValue, stmt. rewrite N.
  destruct (thr (stmtNo db2)); simpl.
  - repeat split; assumption.
  - repeat split; try assumption.
    intros k' Hk'. unfold setSync. cbn [syncState].
    rewrite !storedValue_upsert.
    destruct (String.eqb k' k); [reflexivity | apply Hs, Hk'].
Qed.

Lemma insertBlockRow_sim (thr : nat -> bool) (row : BlockRow)
    (db1 db2 : Db) :
  sameButCheckpoint db1 db2 ->
  fst (insertBlockRow thr row db1) = fst (insertBlockRow thr row db2)
  /\ sameButCheckpoint (snd (insertBlockRow thr row db1))
                       (snd (insertBlockRow thr row db2)).
Proof.
  intros (B & E & N & Hs). unfold insertBlockRow, stmt. rewrite N, B.
  destruct (thr (stmtNo db2)); simpl; repeat split; assumption.
Qed.

Lemma storeBackfilled_sim (thr : nat -> bool)
    (results : list (option BlockData)) :
  forall db1 db2 n f,
    sameButCheckpoint db1 db2 ->
    let '(d1, n1, f1, ev1) := storeBackfilled thr results db1 n f in
    let '(d2, n2, f2, ev2) := storeBackfilled thr results db2 n f in
    n1 = n2 /\ f1 = f2 /\ ev1 = ev2 /\ sameButCheckpoint d1 d2.
Proof.
  induction results as [|[v|] rest IH]; intros db1 db2 n f R; simpl.
  - repeat split; try reflexivity; apply R.
  - destruct (bd_time v >=? JAN_1_2026_UNIX); [|apply IH, R].
    destruct (insertBlockRow_sim thr (blockDataToRow v) db1 db2 R)
      as [Hok R'].
    destruct (insertBlockRow thr (blockDataToRow v) db1) as [ok1 d1].
    destruct (insertBlockRow thr (blockDataToRow v) db2) as [ok2 d2].
    simpl in Hok, R'. subst ok2.
    specialize (IH d1 d2 (if ok1 then n + 1 else n) f R').
    destruct (storeBackfilled thr rest d1 (if ok1 then n + 1 else n) f)
      as [[[e1 m1] g1] ev1].
    destruct (storeBackfilled thr rest d2 (if ok1 then n + 1 else n) f)
      as [[[e2 m2] g2] ev2].
    destruct IH as (-> & -> & -> & R2). repeat split; try reflexivity;
      apply R2.
  - apply IH, R.
Qed.

Lemma backfillPass_sim (u : Upstream) (useRpc : bool) (oldest target : Z)
    (wk : Walk) (sv : Service) (db1 db2 : Db) :
  sameButCheckpoint db1 db2 ->
  let '(r1, s1, d1, ev1) := backfillPass u useRpc oldest target wk sv db1 in
  let '(r2, s2, d2, ev2) := backfillPass u useRpc oldest target wk sv db2 in
  r1 = r2 /\ s1 = s2 /\ ev1 = ev2 /\ sameButCheckpoint d1 d2.
Proof.
  intro R. unfold backfillPass.
  set (results := map (fetchBlock u (batchNo wk))
                      (batchAt useRpc target (currentHeight wk))).
  pose proof (storeBackfilled_sim (dbThrows u) results db1 db2 0 false R)
    as H.
  destruct (storeBackfilled (dbThrows u) results db1 0 false)
    as [[[d1 n1] f1] ev1].
  destruct (storeBackfilled (dbThrows u) results db2 0 false)
    as [[[d2 n2] f2] ev2].
  destruct H as (-> & -> & -> & R1).
  destruct (f2 && (n2 =? 0)); [repeat split; try reflexivity; apply R1|].
  destruct ((Z.rem (totalInserted wk + n2) 200 =? 0)
            && (totalInserted wk + n2 >? 0));
    [|repeat split; try reflexivity; apply R1].
  match goal with
  | |- context [setSyncValue ?t ?k ?v d1] =>
      destruct (setSyncValue_sim t k v d1 d2 R1) as [Hr R2];
      destruct (setSyncValue t k v d1) as [r1 e1];
      destruct (setSyncValue t k v d2) as [r2 e2]
  end.
  simpl in Hr, R2. subst r2.
  destruct r1; repeat split; try reflexivity; apply R2.
Qed.

Lemma backfillLoop_sim (u : Upstream) (useRpc : bool) (oldest target : Z) :
  forall fuel wk sv db1 db2,
    sameButCheckpoint db1 db2 ->
    let '(e1, w1, s1, d1, ev1) :=
      backfillLoop u useRpc oldest target fuel wk sv db1 in
    let '(e2, w2, s2, d2, ev2) :=
      backfillLoop u useRpc oldest target fuel wk sv db2 in
    e1 = e2 /\ w1 = w2 /\ s1 = s2 /\ ev1 = ev2 /\ sameButCheckpoint d1 d2.
Proof.
  induction fuel as [|fuel IH]; intros wk sv db1 db2 R; simpl.
  - repeat split; try reflexivity; apply R.
  - destruct ((currentHeight wk >=? target) && backfillRunning sv);
      [|repeat split; try reflexivity; apply R].
    pose proof (backfillPass_sim u useRpc oldest target wk sv db1 db2 R)
      as H.
    destruct (backfillPass u useRpc oldest target wk sv db1)
      as [[[r1 s1] d1] ev1].
    destruct (backfillPass u useRpc oldest target wk sv db2)
      as [[[r2 s2] d2] ev2].
    destruct H as (-> & -> & -> & R1).
    destruct r2 as [wk1|]; [|repeat split; try reflexivity; apply R1].
    specialize (IH wk1 s2 d1 d2 R1).
    destruct (backfillLoop u useRpc oldest target fuel wk1 s2 d1)
      as [[[[e1 w1] t1] c1] ev3].
    destruct (backfillLoop u useRpc oldest target fuel wk1 s2 d2)
      as [[[[e2 w2] t2] c2] ev4].
    destruct IH as (-> & -> & -> & -> & R2).
    repeat split; try reflexivity; apply R2.
Qed.

Lemma estimateTargetHeight_sim (u : Upstream) (db1 db2 : Db) :
  sameButCheckpoint db1 db2 ->
  let '(t1, d1, ev1) := estimateTargetHeight u db1 in
  let '(t2, d2, ev2) := estimateTargetHeight u db2 in
  t1 = t2 /\ ev1 = ev2 /\ sameButCheckpoint d1 d2.
Proof.
  intros R. pose proof R as (B & E & N & Hs).
  unfold estimateTargetHeight, getSyncValue. unfold stmt at 1 3.
  rewrite N. simpl.
  fold (storedValue "backfill_target_height" (syncState db1)).
  fold (storedValue "backfill_target_height" (syncState db2)).
  rewrite (Hs "backfill_target_height"%string) by discriminate.
  assert (R1 : sameButCheckpoint
                 (mkDb (coreBlockFees db1) (platformEpochFees db1)
                       (syncState db1) (S (stmtNo db2)))
                 (mkDb (coreBlockFees db2) (platformEpochFees db2)
                       (syncState db2) (S (stmtNo db2))))
    by (repeat split; assumption).
  destruct (dbThrows u (stmtNo db2)); [repeat split; try reflexivity; apply R1|].
  destruct (storedValue "backfill_target_height" (syncState db2)) as [n|];
    [repeat split; try reflexivity; apply R1|].
  unfold stmt. simpl. rewrite B.
  assert (R2 : sameButCheckpoint
                 (mkDb (coreBlockFees db2) (platformEpochFees db1)
                       (syncState db1) (S (S (stmtNo db2))))
                 (mkDb (coreBlockFees db2) (platformEpochFees db2)
                       (syncState db2) (S (S (stmtNo db2)))))
    by (repeat split; assumption).
  destruct (dbThrows u (S (stmtNo db2)));
    [repeat split; try reflexivity; apply R2|].
  destruct (maxHeight (coreBlockFees db2)) as [m|];
    [|repeat split; try reflexivity; apply R2].
  destruct (truthy m); [|repeat split; try reflexivity; apply R2].
  match goal with
  | |- context [setSyncValue ?t ?k ?v
                  (mkDb (coreBlockFees db2) (platformEpochFees db1) ?s ?n)] =>
      destruct (setSyncValue_sim t k v _ _ R2) as [Hr R3];
      destruct (setSyncValue t k v
                  (mkDb (coreBlockFees db2) (platformEpochFees db1) s n))
        as [r1 e1];
      destruct (setSyncValue t k v
                  (mkDb (coreBlockFees db2) (platformEpochFees db2)
                        (syncState db2) n)) as [r2 e2]
  end.
  simpl in Hr, R3. subst r2.
  destruct r1; repeat split; try reflexivity; apply R3.
Qed.

(** X10: the walk resumes from the lowest height of the block table
    and from nothing else: the value stored under
    ["backfill_oldest_height"] is written by backfill but never read.
    Two databases that differ only in that value give the same run:
    the same events, the same final service state, the same block
    table. *)
Theorem backfill_resumes_from_the_table_not_the_checkpoint
    (u : Upstream) (fuel : nat) (sv : Service) (db1 db2 : Db) :
  sameButCheckpoint db1 db2 ->
  let '(r1, s1, d1, ev1) := startCoreBackfill u fuel sv db1 in
  let '(r2, s2, d2, ev2) := startCoreBackfill u fuel sv db2 in
  r1 = r2 /\ s1 = s2 /\ ev1 = ev2
  /\ coreBlockFees d1 = coreBlockFees d2.
Proof.
  intro R.
  assert (Hgoal :
    let '(r1, s1, d1, ev1) := startCoreBackfill u fuel sv db1 in
    let '(r2, s2, d2, ev2) := startCoreBackfill u fuel sv db2 in
    r1 = r2 /\ s1 = s2 /\ ev1 = ev2 /\ sameButCheckpoint d1 d2).
  { pose proof R as (B & E & N & Hs).
    unfold startCoreBackfill.
    destruct (backfillRunning sv);
      [repeat split; try reflexivity; apply R|].
    unfold stmt. rewrite N, B. simpl.
    assert (R1 : sameButCheckpoint
                   (mkDb (coreBlockFees db2) (platformEpochFees db1)
                         (syncState db1) (S (stmtNo db2)))
                   (mkDb (coreBlockFees db2) (platformEpochFees db2)
                         (syncState db2) (S (stmtNo db2))))
      by (repeat split; assumption).
    destruct (dbThrows u (stmtNo db2));
      [repeat split; try reflexivity; apply R1|].
    destruct (truthy (orZero (minHeight (coreBlockFees db2)))); simpl;
      [|repeat split; try reflexivity; apply R1].
    pose proof (estimateTargetHeight_sim u _ _ R1) as He.
    destruct (estimateTargetHeight u
                (mkDb (coreBlockFees db2) (platformEpochFees db1)
                      (syncState db1) (S (stmtNo db2)))) as [[t1 c1] ev01].
    destruct (estimateTargetHeight u
                (mkDb (coreBlockFees db2) (platformEpochFees db2)
                      (syncState db2) (S (stmtNo db2)))) as [[t2 c2] ev02].
    destruct He as (-> & -> & R2).
    destruct t2 as [target|]; [|repeat split; try reflexivity; apply R2].
    destruct (orZero (minHeight (coreBlockFees db2)) <=? target);
      [repeat split; try reflexivity; apply R2|].
    simpl.
    destruct (checkRpcAvailability u (rpcAvailable sv)) as [[useRpc v] ev1].
    match goal with
    | |- context [backfillLoop ?a ?b ?c ?d ?e ?f ?g c1] =>
        pose proof (backfillLoop_sim a b c d e f g c1 c2 R2) as Hl;
        destruct (backfillLoop a b c d e f g c1)
          as [[[[e1 w1] s1] d1] ev21];
        destruct (backfillLoop a b c d e f g c2)
          as [[[[e2 w2] s2] d2] ev22]
    end.
    destruct Hl as (-> & -> & -> & -> & R3).
    destruct e2; try (repeat split; try reflexivity; apply R3).
    match goal with
    | |- context [setSyncValue ?t ?k ?v d1] =>
        destruct (setSyncValue_sim t k v d1 d2 R3) as [Hr R4];
        destruct (setSyncValue t k v d1) as [r1 g1];
        destruct (setSyncValue t k v d2) as [r2 g2]
    end.
    simpl in Hr, R4. subst r2.
    destruct r1; repeat split; try reflexivity; apply R4. }
  destruct (startCoreBackfill u fuel sv db1) as [[[r1 s1] d1] ev1].
  destruct (startCoreBackfill u fuel sv db2) as [[[r2 s2] d2] ev2].
  destruct Hgoal as (H1 & H2 & H3 & H4 & _).
  repeat split; assumption.
Qed.

Lemma backfill_resumes_from_the_table_not_the_checkpoint_witness :
  let u := mkUpstream false false None None None
                      (fun _ h => Some (sampleBlock h)) (fun _ => false) 0 in
  let resumed :=
    mkDb (coreBlockFees seeded) []
         (("backfill_oldest_height"%string, 120) :: syncState seeded) O in
  fetchedHeights (snd (startCoreBackfill u 25 initialService resumed))
  = fetchedHeights (snd (startCoreBackfill u 25 initialService seeded)).
Proof.
  intros u resumed.
  assert (R : sameButCheckpoint resumed seeded).
  { repeat split. intros k Hk. unfold storedValue, resumed.
    cbn [syncState find fst].
    destruct (String.eqb_spec "backfill_oldest_height" k) as [E|E];
      [symmetry in E; contradiction | reflexivity]. }
  pose proof (backfill_resumes_from_the_table_not_the_checkpoint
                u 25 initialService resumed seeded R) as H.
  destruct (startCoreBackfill u 25 initialService resumed)
    as [[[r1 s1] d1] ev1].
  destruct (startCoreBackfill u 25 initialService seeded)
    as [[[r2 s2] d2] ev2].
  destruct H as (_ & _ & -> & _). reflexivity.
Defined.


Lemma sameEpoch_refl (r : EpochRow) : sameEpoch r r.
Proof. repeat split. Qed.

Lemma sameEpoch_trans (a b c : EpochRow) :
  sameEpoch a b -> sameEpoch b c -> sameEpoch a c.
Proof. unfold sameEpoch. intuition congruence. Qed.

Lemma epochsKept_refl (t : list EpochRow) : epochsKept t t.
Proof.
  split; intros r Hr; [|left]; exists r; split;
    auto using sameEpoch_refl.
Qed.

Lemma epochsKept_trans (t1 t2 t3 : list EpochRow) :
  epochsKept t1 t2 -> epochsKept t2 t3 -> epochsKept t1 t3.
Proof.
  intros [A1 B1] [A2 B2]. split.
  - intros r Hr. destruct (A1 r Hr) as (r2 & H2 & S2).
    destruct (A2 r2 H2) as (r3 & H3 & S3).
    exists r3. split; [exact H3 | exact (sameEpoch_trans _ _ _ S2 S3)].
  - intros r3 H3. destruct (B2 r3 H3) as [(r2 & H2 & S3)|Hc].
    + destruct (B1 r2 H2) as [(r1 & H1 & S2)|Hc].
      * left. exists r1. split;
          [exact H1 | exact (sameEpoch_trans _ _ _ S2 S3)].
      * right. destruct S3 as (_ & <- & _). exact Hc.
    + right. exact Hc.
Qed.

Lemma upsertEpoch_kept (thr : nat -> bool) (v : EpochRow) (db : Db) :
  JAN_1_2026_UNIX * 1000 <= startTime v ->
  let db' := snd (upsertEpoch thr v db) in
  epochsKept (platformEpochFees db) (platformEpochFees db')
  /\ coreBlockFees db' = coreBlockFees db
  /\ syncState db' = syncState db.
Proof.
  intro Hv. unfold upsertEpoch, stmt.
  destruct (thr (stmtNo db)); simpl;
    [split; [apply epochsKept_refl | split; reflexivity]|].
  split; [|split; reflexivity].
  unfold insertOnConflictDoUpdate.
  destruct (hasKey epochNumber Z.eqb (epochNumber v) (platformEpochFees db)).
  - set (f := fun old : EpochRow =>
                if epochNumber old =? epochNumber v
                then epochConflictSet v old else old).
    assert (Hf : forall old, sameEpoch old (f old)).
    { intro old. unfold f.
      destruct (epochNumber old =? epochNumber v); repeat split. }
    split.
    + intros r Hr. exists (f r). split; [apply in_map, Hr | apply Hf].
    + intros r' Hr'. apply in_map_iff in Hr'.
      destruct Hr' as (r & <- & Hr). left. exists r.
      split; [exact Hr | apply Hf].
  - split.
    + intros r Hr. exists r. split;
        [apply in_or_app; left; exact Hr | apply sameEpoch_refl].
    + intros r' Hr'. apply in_app_or in Hr'.
      destruct Hr' as [Hr'|[<-|[]]]; [left | right; exact Hv].
      exists r'. split; [exact Hr' | apply sameEpoch_refl].
Qed.

Lemma beforeCutoff_false (ms : Z) :
  beforeCutoff ms = false -> JAN_1_2026_UNIX * 1000 <= ms.
Proof. unfold beforeCutoff. intro H. apply Z.ltb_ge in H. exact H. Qed.

Lemma zdown_cons (m K : Z) :
  0 <= K ->
  m :: map (fun j => m - 1 - j) (zrange 0 K)
  = map (fun j => m - j) (zrange 0 (Z.succ K)).
Proof.
  intro HK. rewrite (zrange_split 0 1 (Z.succ K)) by lia.
  rewrite map_app.
  assert (Hone : map (fun j => m - j) (zrange 0 1) = [m]).
  { unfold zrange. change (Z.to_nat (1 - 0)) with 1%nat.
    cbn [countUp map]. f_equal. lia. }
  rewrite Hone. cbn [app]. f_equal. unfold zrange.
  replace (Z.to_nat (Z.succ K - 1)) with (Z.to_nat (K - 0)) by lia.
  rewrite (map_ext (fun j => m - 1 - j) (fun j => (fun i => m - i) (j + 1)))
    by (intro j; lia).
  rewrite (countUp_shift (fun i => m - i) 1). reflexivity.
Qed.

Lemma epochLoop_kept (pf : Platform) (thr : nat -> bool) :
  forall fuel m db inserted,
    let '(n, db', ev) := epochLoop pf thr fuel m db inserted in
    epochsKept (platformEpochFees db) (platformEpochFees db')
    /\ coreBlockFees db' = coreBlockFees db
    /\ syncState db' = syncState db
    /\ inserted <= n <= inserted + Z.of_nat (List.length (fetchedEpochs ev))
    /\ fetchedEpochs ev
       = map (fun j => m - j)
             (zrange 0 (Z.of_nat (List.length (fetchedEpochs ev))))
    /\ Z.of_nat (List.length (fetchedEpochs ev)) <= Z.of_nat fuel
    /\ (0 <= m + 1 -> Z.of_nat (List.length (fetchedEpochs ev)) <= m + 1)
    /\ Forall (fun d => d = 200) (delays ev)
    /\ fetchedHeights ev = [] /\ insertedRows ev = [].
Proof.
  assert (Hcons : forall m k,
            m :: map (fun j => m - 1 - j) (zrange 0 (Z.of_nat k))
            = map (fun j => m - j) (zrange 0 (Z.of_nat (S k)))).
  { intros m k. rewrite Nat2Z.inj_succ. apply zdown_cons. lia. }
  induction fuel as [|fuel IH]; intros m db inserted.
  - simpl. split; [apply epochsKept_refl|].
    repeat split; try lia; try constructor.
  - simpl epochLoop. destruct (m >=? 0) eqn:Hm.
    2:{ split; [apply epochsKept_refl|].
        simpl. repeat split; try lia; try constructor. }
    apply Z.geb_le in Hm.
    assert (Hskip :
      let '(n, db', ev) :=
        (let '(n, db1, ev) := epochLoop pf thr fuel (m - 1) db inserted in
         (n, db1, EvFetchEpoch m :: ev)) in
      epochsKept (platformEpochFees db) (platformEpochFees db')
      /\ coreBlockFees db' = coreBlockFees db
      /\ syncState db' = syncState db
      /\ inserted <= n
         <= inserted + Z.of_nat (List.length (fetchedEpochs ev))
      /\ fetchedEpochs ev
         = map (fun j => m - j)
               (zrange 0 (Z.of_nat (List.length (fetchedEpochs ev))))
      /\ Z.of_nat (List.length (fetchedEpochs ev)) <= Z.of_nat (S fuel)
      /\ (0 <= m + 1 -> Z.of_nat (List.length (fetchedEpochs ev)) <= m + 1)
      /\ Forall (fun d => d = 200) (delays ev)
      /\ fetchedHeights ev = [] /\ insertedRows ev = []).
    { specialize (IH (m - 1) db inserted).
      destruct (epochLoop pf thr fuel (m - 1) db inserted) as [[n db1] ev].
      destruct IH as (K & B & Hs & N & F & L & M & D & FH & IR).
      split; [exact K|]. split; [exact B|]. split; [exact Hs|].
      change (fetchedEpochs (EvFetchEpoch m :: ev))
        with (m :: fetchedEpochs ev).
      change (List.length (m :: fetchedEpochs ev))
        with (S (List.length (fetchedEpochs ev))).
      split; [lia|]. split; [rewrite F at 1; apply Hcons|].
      split; [lia|]. split; [lia|].
      repeat split; assumption. }
    destruct (fetchPlatformEpoch pf m) as [ep|]; [|exact Hskip].
    destruct (er_epoch ep) as [e|]; [|exact Hskip].
    destruct (beforeCutoff (ei_startTime e)) eqn:Hcut.
    + split; [apply epochsKept_refl|]. simpl.
      repeat split; try lia; try constructor. f_equal. lia.
    + pose proof (upsertEpoch_kept thr (epochValues ep e) db
                    (beforeCutoff_false _ Hcut)) as Hup.
      destruct (upsertEpoch thr (epochValues ep e) db) as [ok db1].
      specialize (IH (m - 1) db1 (if ok then inserted + 1 else inserted)).
      destruct (epochLoop pf thr fuel (m - 1) db1
                  (if ok then inserted + 1 else inserted)) as [[n db2] ev].
      destruct IH as (K & B & Hs & N & F & L & M & D & FH & IR).
      destruct Hup as (K1 & B1 & S1). simpl in K1, B1, S1.
      split; [exact (epochsKept_trans _ _ _ K1 K)|].
      split; [congruence|]. split; [congruence|].
      change (fetchedEpochs (EvFetchEpoch m :: EvDelay 200 :: ev))
        with (m :: fetchedEpochs ev).
      change (List.length (m :: fetchedEpochs ev))
        with (S (List.length (fetchedEpochs ev))).
      split; [destruct ok; lia|]. split; [rewrite F at 1; apply Hcons|].
      split; [lia|]. split; [lia|].
      split; [simpl; constructor; [reflexivity | exact D]|].
      split; assumption.
Qed.

Lemma syncAllPlatformEpochs_kept (pf : Platform) (thr : nat -> bool) (db : Db) :
  epochsKept (platformEpochFees db)
    (platformEpochFees (snd (fst (syncAllPlatformEpochs pf thr db)))).
Proof.
  unfold syncAllPlatformEpochs.
  destruct (statusEpochNumber pf) as [c|]; [|apply epochsKept_refl].
  destruct (truthy c); [|apply epochsKept_refl].
  pose proof (epochLoop_kept pf thr (Z.to_nat (c + 1)) c db 0) as H.
  destruct (epochLoop pf thr (Z.to_nat (c + 1)) c db 0) as [[n db'] ev].
  exact (proj1 H).
Qed.

(** X11: an epoch sync never removes an epoch row and never changes
    the number, the start or the multiplier of a stored one; a row it
    adds starts at or after the cutoff.  It leaves the block table and
    the checkpoints alone.  It asks for the epochs from the current one
    downwards, one after the other, never for a negative one, and the
    count it returns is at most the number of epochs asked for. *)
Theorem epoch_sync_keeps_stored_epochs
    (pf : Platform) (thr : nat -> bool) (db : Db) :
  let '(n, db', ev) := syncAllPlatformEpochs pf thr db in
  epochsKept (platformEpochFees db) (platformEpochFees db')
  /\ coreBlockFees db' = coreBlockFees db
  /\ syncState db' = syncState db
  /\ 0 <= n <= Z.of_nat (List.length (fetchedEpochs ev))
  /\ (forall c, statusEpochNumber pf = Some c ->
        fetchedEpochs ev
        = map (fun j => c - j)
              (zrange 0 (Z.of_nat (List.length (fetchedEpochs ev))))
        /\ Forall (fun m => 0 <= m <= c) (fetchedEpochs ev))
  /\ Forall (fun d => d = 200) (delays ev).
Proof.
  unfold syncAllPlatformEpochs.
  assert (Hnone : epochsKept (platformEpochFees db) (platformEpochFees db)
                  /\ coreBlockFees db = coreBlockFees db
                  /\ syncState db = syncState db
                  /\ 0 <= 0 <= Z.of_nat (List.length (fetchedEpochs []))
                  /\ (forall c, statusEpochNumber pf = Some c ->
                        fetchedEpochs []
                        = map (fun j => c - j)
                            (zrange 0 (Z.of_nat
                                         (List.length (fetchedEpochs []))))
                        /\ Forall (fun m => 0 <= m <= c) (fetchedEpochs []))
                  /\ Forall (fun d => d = 200) (delays [])).
  { split; [apply epochsKept_refl|]. simpl.
    repeat split; try lia; constructor. }
  destruct (statusEpochNumber pf) as [c|]; [|exact Hnone].
  destruct (truthy c); [|exact Hnone].
  pose proof (epochLoop_kept pf thr (Z.to_nat (c + 1)) c db 0) as H.
  destruct (epochLoop pf thr (Z.to_nat (c + 1)) c db 0) as [[n db'] ev].
  destruct H as (K & B & Hs & N & F & L & M & D & _).
  split; [exact K|]. split; [exact B|]. split; [exact Hs|].
  split; [lia|]. split; [|exact D].
  intros c' Hc. injection Hc as <-. split; [exact F|].
  rewrite F. apply Forall_forall. intros x Hx.
  apply in_map_iff in Hx. destruct Hx as (j & <- & Hj).
  assert (Hrange : forall k x y, In y (countUp k x) ->
                                 x <= y < x + Z.of_nat k).
  { induction k as [|k IHk]; intros x y Hy; [destruct Hy|].
    destruct Hy as [<-|Hy]; [lia|]. apply IHk in Hy. lia. }
  unfold zrange in Hj. apply Hrange in Hj. lia.
Qed.


Lemma epochLoop_stops (pf : Platform) (thr : nat -> bool) :
  forall fuel m db inserted l1 m' l2,
    fetchedEpochs (snd (epochLoop pf thr fuel m db inserted))
    = l1 ++ m' :: l2 ->
    startsBeforeCutoff pf m' -> l2 = [].
Proof.
  induction fuel as [|fuel IH]; intros m db inserted l1 m' l2 Hsplit Hcut.
  - simpl in Hsplit. destruct l1; discriminate.
  - simpl epochLoop in Hsplit. destruct (m >=? 0);
      [|simpl in Hsplit; destruct l1; discriminate].
    assert (Hgo : forall db1 k,
              fetchedEpochs
                (snd (let '(n, db2, ev) := epochLoop pf thr fuel (m - 1) db1 k in
                      (n, db2, EvFetchEpoch m :: ev)))
              = l1 ++ m' :: l2 ->
              ~ startsBeforeCutoff pf m -> l2 = []).
    { intros db1 k H Hm.
      pose proof (IH (m - 1) db1 k) as IH'.
      destruct (epochLoop pf thr fuel (m - 1) db1 k) as [[n db2] ev].
      simpl in H, IH'.
      destruct l1 as [|x l1]; simpl in H; injection H as Hx Hrest.
      - subst m'. contradiction.
      - exact (IH' l1 m' l2 Hrest Hcut). }
    destruct (fetchPlatformEpoch pf m) as [ep|] eqn:Hep.
    2:{ apply (Hgo db inserted Hsplit).
        intros (ep' & e' & H & _). congruence. }
    destruct (er_epoch ep) as [e|] eqn:He.
    2:{ apply (Hgo db inserted Hsplit).
        intros (ep' & e' & H1 & H2 & _). congruence. }
    destruct (beforeCutoff (ei_startTime e)) eqn:Hb.
    + simpl in Hsplit.
      destruct l1 as [|x l1]; simpl in Hsplit; injection Hsplit as _ Hrest.
      * symmetry. exact Hrest.
      * destruct l1; discriminate.
    + destruct (upsertEpoch thr (epochValues ep e) db) as [ok db1].
      pose proof (Hgo db1 (if ok then inserted + 1 else inserted)) as Hgo'.
      destruct (epochLoop pf thr fuel (m - 1) db1
                  (if ok then inserted + 1 else inserted)) as [[n db2] ev].
      simpl in Hsplit, Hgo'. apply Hgo'; [exact Hsplit|].
      intros (ep' & e' & H1 & H2 & H3). congruence.
Qed.

(** X12: the epoch walk stops at the cutoff: an epoch whose answer
    starts before the cutoff is the last one asked for, and the walk
    writes nothing for it. *)
Theorem epoch_sync_stops_at_the_cutoff
    (pf : Platform) (thr : nat -> bool) (db : Db) (l1 l2 : list Z) (m : Z) :
  fetchedEpochs (snd (syncAllPlatformEpochs pf thr db)) = l1 ++ m :: l2 ->
  startsBeforeCutoff pf m ->
  l2 = []
  /\ Forall (fun r => JAN_1_2026_UNIX * 1000 <= startTime r
                      \/ exists r0, In r0 (platformEpochFees db)
                                    /\ sameEpoch r0 r)
       (platformEpochFees (snd (fst (syncAllPlatformEpochs pf thr db)))).
Proof.
  intros Hsplit Hcut. split.
  - revert Hsplit. unfold syncAllPlatformEpochs.
    destruct (statusEpochNumber pf) as [c|];
      [|simpl; destruct l1; discriminate].
    destruct (truthy c); [|simpl; destruct l1; discriminate].
    intro H. exact (epochLoop_stops pf thr _ _ _ _ _ _ _ H Hcut).
  - pose proof (syncAllPlatformEpochs_kept pf thr db) as K.
    destruct (syncAllPlatformEpochs pf thr db) as [[n db'] ev].
    simpl. apply Forall_forall. intros r Hr.
    destruct (proj2 K r Hr) as [H|H]; [right; exact H | left; exact H].
Qed.

Lemma epoch_sync_stops_at_the_cutoff_witness :
  let pf := mkPlatform (Some 5)
              (fun m => Some (mkEpochResp
                                (Some (mkEpochInfo m (1767000000000 + m * 86400000)
                                         (1767000000000 + (m + 1) * 86400000)
                                         None))
                                (Some 10))) in
  fetchedEpochs (snd (syncAllPlatformEpochs pf (fun _ => false)
                                            (mkDb [] [] [] O)))
  = [5; 4; 3; 2].
Proof.
  intro pf.
  assert (H : fetchedEpochs (snd (syncAllPlatformEpochs pf (fun _ => false)
                                                        (mkDb [] [] [] O)))
              = [5; 4; 3] ++ 2 :: [])
    by (vm_compute; reflexivity).
  pose proof (epoch_sync_stops_at_the_cutoff pf (fun _ => false)
                (mkDb [] [] [] O) [5; 4; 3] [] 2 H) as [_ _].
  - eexists. eexists. split; [reflexivity|]. split; [reflexivity|].
    vm_compute. reflexivity.
  - exact H.
Defined.


Lemma viaDashCentral_cache (m : MnUpstream) (t : Z) counts c :
  viaDashCentral m t = Some (counts, c) ->
  mc_fetchedAt c = t /\ counts = cachedCounts c.
Proof.
  unfold viaDashCentral. destruct (dashCentral m) as [[u w]|]; [|discriminate].
  destruct ((orDefault 0 u >? 0) && (orDefault 0 w >? 0)); [|discriminate].
  intro H. injection H as <- <-. split; reflexivity.
Qed.

Lemma viaRpc_cache (m : MnUpstream) (t : Z) counts c :
  viaRpc m t = Some (counts, c) ->
  mc_fetchedAt c = t /\ counts = cachedCounts c.
Proof.
  unfold viaRpc. destruct (rpcMasternodeCount m) as [cr|]; [|discriminate].
  destruct (rpcProtxList m) as [l|]; [|discriminate].
  intro H. injection H as <- <-. split; reflexivity.
Qed.

Lemma viaCheckpoint_cache (m : MnUpstream) (t : Z) counts c :
  viaCheckpoint m t = Some (counts, c) ->
  mc_fetchedAt c = t /\ counts = cachedCounts c.
Proof.
  unfold viaCheckpoint.
  destruct (checkpoint m) as [[[[total evo]|]|]|]; try discriminate.
  destruct (_ && _); [|discriminate].
  intro H. injection H as <- <-. split; reflexivity.
Qed.

Lemma fresh_cache_is_served (m : MnUpstream) (u : Upstream) (c : MnCache)
    (verdict : option bool) :
  now u - mc_fetchedAt c < MN_COUNT_CACHE_MS ->
  fetchMasternodeCounts m u (Some c) verdict
  = (cachedCounts c, Some c, verdict, []).
Proof.
  intro H. unfold fetchMasternodeCounts.
  replace (now u - mc_fetchedAt c <? MN_COUNT_CACHE_MS) with true
    by (symmetry; apply Z.ltb_lt; exact H).
  reflexivity.
Qed.

(** X13: a call that finds no fresh cache either answers the default
    and leaves the cache as it was, or stores what it answers with the
    time of the call; every call in the next 300000 ms then gives that
    same answer whatever the sources say, asks nothing and changes
    nothing. *)
Theorem masternode_counts_are_served_from_the_cache
    (m : MnUpstream) (u : Upstream) (cache : option MnCache)
    (verdict : option bool) :
  staleAt (now u) cache ->
  let '(counts, cache', _, _) := fetchMasternodeCounts m u cache verdict in
  (counts = defaultMnCounts /\ cache' = cache)
  \/ (exists c, cache' = Some c /\ mc_fetchedAt c = now u
                /\ counts = cachedCounts c
                /\ forall m' u' verdict',
                     now u' - now u < MN_COUNT_CACHE_MS ->
                     fetchMasternodeCounts m' u' cache' verdict'
                     = (counts, cache', verdict', [])).
Proof.
  intro Hstale. unfold fetchMasternodeCounts at 1.
  assert (Hfresh : match cache with
                   | Some c => if now u - mc_fetchedAt c <? MN_COUNT_CACHE_MS
                               then Some c else None
                   | None => None
                   end = None).
  { destruct cache as [c|]; [|reflexivity].
    specialize (Hstale c eq_refl).
    destruct (Z.ltb_spec (now u - mc_fetchedAt c) MN_COUNT_CACHE_MS);
      [lia | reflexivity]. }
  rewrite Hfresh.
  assert (Hstored : forall counts c,
            mc_fetchedAt c = now u /\ counts = cachedCounts c ->
            exists c0, Some c = Some c0 /\ mc_fetchedAt c0 = now u
              /\ counts = cachedCounts c0
              /\ forall m' u' verdict',
                   now u' - now u < MN_COUNT_CACHE_MS ->
                   fetchMasternodeCounts m' u' (Some c) verdict'
                   = (counts, Some c, verdict', [])).
  { intros counts c [Ht Hc]. exists c. repeat split; try assumption.
    intros m' u' verdict' Hlt. subst counts.
    apply fresh_cache_is_served. rewrite Ht. exact Hlt. }
  destruct (viaDashCentral m (now u)) as [[counts c]|] eqn:Hdc.
  { right. apply Hstored. exact (viaDashCentral_cache _ _ _ _ Hdc). }
  destruct (checkRpcAvailability u verdict) as [[useRpc v] ev].
  destruct (if useRpc then viaRpc m (now u) else None) as [[counts c]|] eqn:Hrpc.
  { right. apply Hstored. destruct useRpc; [|discriminate].
    exact (viaRpc_cache _ _ _ _ Hrpc). }
  destruct (viaCheckpoint m (now u)) as [[counts c]|] eqn:Hcp.
  { right. apply Hstored. exact (viaCheckpoint_cache _ _ _ _ Hcp). }
  left. split; reflexivity.
Qed.

Lemma masternode_counts_are_served_from_the_cache_witness :
  let m := mkMnUpstream (Ok (Some 3000, Some 4200)) Threw Threw Threw in
  let m' := mkMnUpstream Threw Threw Threw Threw in
  let u := mkUpstream false false None None None (fun _ _ => None)
             (fun _ => false) 1770000000000 in
  let u' := mkUpstream false false None None None (fun _ _ => None)
              (fun _ => false) 1770000299999 in
  fst (fst (fst (fetchMasternodeCounts m' u'
                   (snd (fst (fst (fetchMasternodeCounts m u None None))))
                   None)))
  = mkMnCounts 3000 400.
Proof.
  intros m m' u u'.
  pose proof (masternode_counts_are_served_from_the_cache m u None None) as H.
  assert (Hs : staleAt (now u) None) by (intros c Hc; discriminate).
  specialize (H Hs).
  destruct (fetchMasternodeCounts m u None None) as [[[counts cache'] v] ev]
    eqn:Hcall.
  destruct H as [[Hd _]|(c & Hc & _ & _ & Hnext)].
  - exfalso. vm_compute in Hcall. injection Hcall as <- _ _ _.
    discriminate.
  - simpl. rewrite (Hnext m' u' None) by (vm_compute; reflexivity).
    simpl. vm_compute in Hcall. injection Hcall as <- _ _ _. reflexivity.
Defined.

Lemma roundThird_bounds (n : Z) :
  3 * roundThird n - 1 <= n <= 3 * roundThird n + 1.
Proof.
  unfold roundThird.
  pose proof (Z.div_mod (2 * n + 3) 6 ltac:(lia)) as E.
  pose proof (Z.mod_pos_bound (2 * n + 3) 6 ltac:(lia)) as B.
  (* 2n + 3 = 6q + r with r odd, since the left side is odd *)
  assert (Hodd : (2 * n + 3) mod 6 <> 0 /\ (2 * n + 3) mod 6 <> 2
                 /\ (2 * n + 3) mod 6 <> 4) by (repeat split; lia).
  lia.
Qed.

Lemma roundThird_exact (e : Z) : roundThird (3 * e) = e.
Proof.
  pose proof (roundThird_bounds (3 * e)). lia.
Qed.

(** X14: the evo count inferred from DashCentral's figures is the
    nearest integer to a third of weighted minus unique; when the
    figures are those of [r] regular nodes of weight 1 and [e] evo
    nodes of weight 4, the call answers exactly [r + e] masternodes
    and [e] evo nodes. *)
Theorem dashcentral_counts_recover_the_evo_nodes
    (m : MnUpstream) (u : Upstream) (cache : option MnCache)
    (verdict : option bool) (unique weighted : Z) :
  staleAt (now u) cache ->
  dashCentral m = Ok (Some unique, Some weighted) ->
  0 < unique -> 0 < weighted ->
  let counts := fst (fst (fst (fetchMasternodeCounts m u cache verdict))) in
  totalMasternodes counts = unique
  /\ 3 * evoNodes counts - 1 <= weighted - unique <= 3 * evoNodes counts + 1
  /\ forall r e, unique = r + e -> weighted = r + 4 * e ->
                 evoNodes counts = e.
Proof.
  intros Hstale Hdc Hu Hw. unfold fetchMasternodeCounts.
  assert (Hfresh : match cache with
                   | Some c => if now u - mc_fetchedAt c <? MN_COUNT_CACHE_MS
                               then Some c else None
                   | None => None
                   end = None).
  { destruct cache as [c|]; [|reflexivity].
    specialize (Hstale c eq_refl).
    destruct (Z.ltb_spec (now u - mc_fetchedAt c) MN_COUNT_CACHE_MS);
      [lia | reflexivity]. }
  rewrite Hfresh. unfold viaDashCentral. rewrite Hdc.
  assert (Eu : orDefault 0 (Some unique) = unique).
  { unfold orDefault, truthy.
    destruct (Z.eqb_spec unique 0); [lia | reflexivity]. }
  assert (Ew : orDefault 0 (Some weighted) = weighted).
  { unfold orDefault, truthy.
    destruct (Z.eqb_spec weighted 0); [lia | reflexivity]. }
  rewrite Eu, Ew.
  replace (unique >? 0) with true by (symmetry; apply Z.gtb_lt; lia).
  replace (weighted >? 0) with true by (symmetry; apply Z.gtb_lt; lia).
  cbn [andb fst snd totalMasternodes evoNodes].
  split; [reflexivity|]. split; [apply roundThird_bounds|].
  intros r e -> ->.
  replace (r + 4 * e - (r + e)) with (3 * e) by lia.
  apply roundThird_exact.
Qed.

Lemma dashcentral_counts_recover_the_evo_nodes_witness :
  let m := mkMnUpstream (Ok (Some 3000, Some 4200)) Threw Threw Threw in
  let u := mkUpstream false false None None None (fun _ _ => None)
             (fun _ => false) 1770000000000 in
  evoNodes (fst (fst (fst (fetchMasternodeCounts m u None None)))) = 400.
Proof.
  intros m u.
  assert (Hs : staleAt (now u) None) by (intros c Hc; discriminate).
  pose proof (dashcentral_counts_recover_the_evo_nodes m u None None
                3000 4200 Hs eq_refl ltac:(lia) ltac:(lia)) as (_ & _ & H).
  exact (H 2600 400 eq_refl eq_refl).
Defined.


Lemma shrinksUpTo_sound (k : nat) :
  forall s, shrinksUpTo k s = true ->
  forall n, (n <= k)%nat ->
  shrinks (Subsidy.loop n s) (Subsidy.reduce (Subsidy.loop n s)) = true.
Proof.
  induction k as [|k IH]; intros s H n Hn; simpl in H;
    apply andb_prop in H; destruct H as [H0 Hk].
  - assert (n = O) by lia. subst n. exact H0.
  - destruct n as [|n]; [exact H0|].
    simpl Subsidy.loop. apply IH; [exact Hk | lia].
Qed.

Lemma shrinks_prefix : shrinksUpTo settle Subsidy.nSubsidyBase = true.
Proof. vm_compute. reflexivity. Qed.

Lemma schedule_shrinks (n : nat) :
  shrinks (Subsidy.loop n Subsidy.nSubsidyBase)
          (Subsidy.loop (S n) Subsidy.nSubsidyBase) = true.
Proof.
  rewrite loop_succ_r.
  destruct (Nat.le_gt_cases n settle) as [Hle|Hgt].
  - apply (shrinksUpTo_sound settle _ shrinks_prefix n Hle).
  - rewrite (settled_from n) by lia.
    apply (shrinksUpTo_sound settle _ shrinks_prefix settle). lia.
Qed.

Lemma loopUnits_step (n : nat) :
  0 < loopUnits (S n) <= loopUnits n.
Proof.
  pose proof (schedule_shrinks n) as H. unfold shrinks in H.
  unfold loopUnits.
  destruct (Subsidy.units (Subsidy.loop n Subsidy.nSubsidyBase)) as [q|];
    [|discriminate].
  destruct (Subsidy.units (Subsidy.loop (S n) Subsidy.nSubsidyBase)) as [q'|];
    [|discriminate].
  apply andb_prop in H. destruct H as [H1 H2].
  apply Z.ltb_lt in H1. apply Z.leb_le in H2. lia.
Qed.

Lemma loopUnits_start : loopUnits O = 5 * Z.shiftl 1 1074.
Proof. vm_compute. reflexivity. Qed.

Lemma loopUnits_mono (n k : nat) :
  0 < loopUnits (n + k) <= loopUnits n.
Proof.
  induction k as [|k IH].
  - rewrite Nat.add_0_r. destruct n as [|n].
    + rewrite loopUnits_start. vm_compute. split; [reflexivity | discriminate].
    + pose proof (loopUnits_step n).
      assert (0 < loopUnits (S n)) by lia. lia.
  - rewrite Nat.add_succ_r. pose proof (loopUnits_step (n + k)). lia.
Qed.

Lemma reductions_mono (h1 h2 : Z) :
  h1 <= h2 ->
  (Z.to_nat (Subsidy.reductions h1) <= Z.to_nat (Subsidy.reductions h2))%nat.
Proof.
  intro H. unfold Subsidy.reductions, Subsidy.reductionInterval.
  pose proof (Z.div_le_mono h1 h2 210240 ltac:(lia) H). lia.
Qed.

(** X15: the block subsidy is a finite positive number at every
    height, never above 5, and never grows with the height; below the
    first reduction interval (negative heights included) it is 5. *)
Theorem subsidy_is_positive_and_never_grows (h1 h2 : Z) :
  h1 <= h2 ->
  0 < subsidyUnits h2 <= subsidyUnits h1
  /\ subsidyUnits h1 <= 5 * Z.shiftl 1 1074
  /\ (h1 < Subsidy.reductionInterval ->
      Subsidy.getBlockSubsidy h1 = 5%float).
Proof.
  intro H.
  assert (E : forall h, subsidyUnits h
                        = loopUnits (Z.to_nat (Subsidy.reductions h)))
    by reflexivity.
  rewrite !E.
  pose proof (reductions_mono h1 h2 H) as Hm.
  set (n1 := Z.to_nat (Subsidy.reductions h1)) in *.
  set (n2 := Z.to_nat (Subsidy.reductions h2)) in *.
  replace n2 with (n1 + (n2 - n1))%nat by lia.
  split; [apply loopUnits_mono|]. split.
  - rewrite <- loopUnits_start. apply (loopUnits_mono O n1).
  - intro Hlt. unfold Subsidy.getBlockSubsidy.
    replace (Z.to_nat (Subsidy.reductions h1)) with O; [reflexivity|].
    unfold Subsidy.reductions, Subsidy.reductionInterval in *.
    assert (h1 / 210240 <= 0).
    { destruct (Z.le_gt_cases 0 h1).
      - rewrite Z.div_small; lia.
      - pose proof (Z.div_lt_upper_bound h1 210240 1 ltac:(lia) ltac:(lia)).
        lia. }
    lia.
Qed.

Lemma subsidy_is_positive_and_never_grows_witness :
  0 < subsidyUnits 2401504 <= subsidyUnits 210240.
Proof.
  exact (proj1 (subsidy_is_positive_and_never_grows 210240 2401504
                  ltac:(lia))).
Defined.


Lemma positive_truthy (x : float) :
  PrimFloat.ltb 0%float x = true -> truthyF x = true.
Proof.
  unfold truthyF. rewrite FloatAxioms.ltb_spec, !FloatAxioms.eqb_spec.
  change (Prim2SF 0%float) with (S754_zero false).
  destruct (Prim2SF x) as [s|s| |s m e]; cbv [SFltb SFeqb SFcompare];
    try discriminate; (destruct s; [discriminate|]); intros _.
  - reflexivity.
  - rewrite Z.compare_refl.
    change (PosDef.Pos.compare_cont Eq m m) with (Pos.compare m m).
    rewrite Pos.compare_refl. reflexivity.
Qed.

Lemma orZeroF_not_nan (x : float) :
  PrimFloat.eqb (orZeroF x) (orZeroF x) = true.
Proof.
  unfold orZeroF. destruct (truthyF x) eqn:E.
  - unfold truthyF in E. apply andb_prop in E. exact (proj2 E).
  - reflexivity.
Qed.

Lemma fetchDashPriceUsd_positive (a : Outcome float) (t : Z)
    (cache : option PriceCache) :
  positivePrice cache ->
  positivePrice (snd (fst (fetchDashPriceUsd a t cache))).
Proof.
  intro H. unfold fetchDashPriceUsd.
  destruct (match cache with
            | Some c => if t - pc_fetchedAt c <? PRICE_CACHE_MS then Some c
                        else None
            | None => None
            end); [exact H|].
  destruct a as [parsed|]; [|exact H].
  destruct (PrimFloat.ltb 0%float (orZeroF parsed)) eqn:E; [|exact H].
  intros c Hc. injection Hc as <-. exact E.
Qed.

Lemma priceCacheAfter_positive (calls : list (Z * Outcome float)) :
  forall cache, positivePrice cache ->
  positivePrice (priceCacheAfter calls cache).
Proof.
  induction calls as [|[t a] rest IH]; intros cache H; [exact H|].
  simpl. apply IH. apply fetchDashPriceUsd_positive. exact H.
Qed.

(** X16: at any point of the service's life (after any sequence of
    calls from the empty cache) the price cache holds a positive
    price; the call never answers NaN; a cache younger than 120000 ms
    is answered without a request; and when the request fails the
    answer is the last price stored, however old, or 0 when none was
    ever stored. *)
Theorem price_cache_serves_the_last_positive_price
    (calls : list (Z * Outcome float)) (a : Outcome float) (t : Z) :
  let cache := priceCacheAfter calls None in
  let '(price, cache', asked) := fetchDashPriceUsd a t cache in
  positivePrice cache
  /\ positivePrice cache'
  /\ PrimFloat.eqb price price = true
  /\ (forall c, cache = Some c -> t - pc_fetchedAt c < PRICE_CACHE_MS ->
        asked = false /\ price = pc_usd c /\ cache' = cache)
  /\ (asked = true -> a = Threw ->
        cache' = cache
        /\ price = match cache with
                   | Some c => pc_usd c
                   | None => 0%float
                   end).
Proof.
  intro cache.
  assert (Hpos : positivePrice cache).
  { apply priceCacheAfter_positive. intros c Hc. discriminate. }
  pose proof (fetchDashPriceUsd_positive a t cache Hpos) as Hpos'.
  destruct (fetchDashPriceUsd a t cache) as [[price cache'] asked] eqn:Hcall.
  simpl in Hpos'.
  split; [exact Hpos|]. split; [exact Hpos'|].
  unfold fetchDashPriceUsd in Hcall.
  destruct cache as [c|].
  - pose proof (Hpos c eq_refl) as Hc.
    pose proof (positive_truthy _ Hc) as Htr.
    destruct (Z.ltb_spec (t - pc_fetchedAt c) PRICE_CACHE_MS) as [Hf|Hf].
    + injection Hcall as <- <- <-.
      split; [|split].
      * unfold truthyF in Htr. apply andb_prop in Htr. exact (proj2 Htr).
      * intros c0 E _. injection E as <-. repeat split.
      * discriminate.
    + destruct a as [parsed|].
      * destruct (PrimFloat.ltb 0%float (orZeroF parsed));
          injection Hcall as <- <- <-;
          (split; [apply orZeroF_not_nan|]);
          (split; [intros c0 E Hlt; injection E as <-; lia | discriminate]).
      * injection Hcall as <- <- <-.
        unfold orZeroF. rewrite Htr.
        split; [|split].
        -- unfold truthyF in Htr. apply andb_prop in Htr. exact (proj2 Htr).
        -- intros c0 E Hlt. injection E as <-. lia.
        -- intros _ _. split; reflexivity.
  - destruct a as [parsed|].
    + destruct (PrimFloat.ltb 0%float (orZeroF parsed));
        injection Hcall as <- <- <-;
        (split; [apply orZeroF_not_nan|]);
        (split; [discriminate | discriminate]).
    + injection Hcall as <- <- <-.
      split; [reflexivity|]. split; [discriminate|].
      intros _ _. split; reflexivity.
Qed.


Lemma fetchCoreStatus_flags (u : Upstream) (sv : Service) :
  let sv' := snd (fst (fetchCoreStatus u sv)) in
  backfillRunning sv' = backfillRunning sv
  /\ backfillProgress sv' = backfillProgress sv.
Proof.
  unfold fetchCoreStatus.
  destruct (checkRpcAvailability u (rpcAvailable sv)) as [[useRpc v] ev].
  destruct (if useRpc then rpcBlockCount u else None) as [h|];
    [split; reflexivity|].
  destruct (insightBlocks u) as [b|]; [destruct (truthy b)|];
    try (split; reflexivity);
    (destruct (blockbookBest u) as [c|]; [destruct (truthy c)|]);
    split; reflexivity.
Qed.

Lemma syncNewCoreBlocks_keeps (u : Upstream) (sv : Service) (db : Db) :
  let '(n, sv', db', ev) := syncNewCoreBlocks u sv db in
  keeps ev db db' /\ 0 <= n
  /\ backfillRunning sv' = backfillRunning sv
  /\ backfillProgress sv' = backfillProgress sv.
Proof.
  pose proof (syncNewCoreBlocks_shape u sv db) as H.
  assert (Hsv : backfillRunning (snd (fst (fst (syncNewCoreBlocks u sv db))))
                = backfillRunning sv
                /\ backfillProgress
                     (snd (fst (fst (syncNewCoreBlocks u sv db))))
                   = backfillProgress sv).
  { unfold syncNewCoreBlocks, stmt.
    destruct (dbThrows u (stmtNo db)); [split; reflexivity|].
    pose proof (fetchCoreStatus_flags u sv) as Hf.
    destruct (fetchCoreStatus u sv) as [[st sv1] ev0]. cbn [fst snd] in Hf.
    destruct st as [cur|]; [|exact Hf].
    destruct (negb (truthy cur)); [exact Hf|].
    destruct (_ && _); [exact Hf|].
    cbv zeta.
    destruct (checkRpcAvailability u (rpcAvailable sv1)) as [[r v'] ev1].
    destruct (forwardLoop _ _ _ _ _ _ _ _ _ _) as [[db2 ins] ev2].
    exact Hf. }
  destruct (syncNewCoreBlocks u sv db) as [[[n sv'] db'] ev].
  cbn [fst snd] in Hsv. destruct Hsv as [Hr Hp].
  destruct H as [(-> & F & I & D & B & P & S)
                |(cur & useRpc & ev2 & db1 & _ & _ & B & P & S & Hloop
                  & F & I & D)].
  - split; [|repeat split; try assumption; lia].
    apply keeps_same_tables; assumption.
  - cbv zeta in Hloop.
    set (toFetch := forwardToFetch (orZero (maxHeight (coreBlockFees db)))
                                   cur) in *.
    pose proof (forwardLoop_keeps u cur toFetch
                  (if useRpc then 10 else 2) (if useRpc then 100 else 2000)
                  (Z.to_nat toFetch) 0 O db1 0) as Hk.
    rewrite Hloop in Hk.
    destruct Hk as ((E & N & P') & S' & Hn & Hl & _).
    split; [|repeat split; try assumption; lia].
    unfold keeps. rewrite I, <- B, <- P. repeat split; assumption.
Qed.

Lemma extends_nonempty (rows t t' : list BlockRow) :
  extends rows t t' -> t <> [] -> t' <> [].
Proof.
  intros (added & -> & _) H. destruct t; [contradiction | discriminate].
Qed.

Lemma insertBlockRow_true_nonempty (thr : nat -> bool) (row : BlockRow)
    (db : Db) :
  fst (insertBlockRow thr row db) = true ->
  coreBlockFees (snd (insertBlockRow thr row db)) <> [].
Proof.
  unfold insertBlockRow, stmt. destruct (thr (stmtNo db)); simpl;
    [discriminate|]. intros _.
  unfold insertOnConflictDoNothing.
  change (hash (storedRow row)) with (hash row).
  destruct (hasKey hash String.eqb (hash row) (coreBlockFees db)) eqn:E.
  - destruct (coreBlockFees db); [discriminate E | discriminate].
  - destruct (coreBlockFees db); discriminate.
Qed.

Lemma storeFetched_counted (thr : nat -> bool)
    (results : list (option BlockData)) (n0 : Z) :
  forall db n,
    (n0 < n -> coreBlockFees db <> []) ->
    let '(db', n', _) := storeFetched thr results db n in
    n0 < n' -> coreBlockFees db' <> [].
Proof.
  induction results as [|[v|] rest IH]; intros db n H; simpl.
  - exact H.
  - pose proof (insertBlockRow_true_nonempty thr (blockDataToRow v) db) as Ht.
    pose proof (insertBlockRow_effect thr (blockDataToRow v) db)
      as (He & _).
    destruct (insertBlockRow thr (blockDataToRow v) db) as [ok db1].
    cbn [fst snd] in Ht, He.
    specialize (IH db1 (if ok then n + 1 else n)).
    destruct (storeFetched thr rest db1 (if ok then n + 1 else n))
      as [[db2 n2] ev].
    apply IH. intro Hlt. destruct ok; [apply Ht; reflexivity|].
    exact (extends_nonempty _ _ _ He (H Hlt)).
  - apply IH. exact H.
Qed.

Lemma forwardLoop_counted (u : Upstream) (cur toFetch size wait n0 : Z) :
  forall fuel i batch db n,
    (n0 < n -> coreBlockFees db <> []) ->
    let '(db', n', _) :=
      forwardLoop u fuel cur toFetch size wait i batch db n in
    n0 < n' -> coreBlockFees db' <> [].
Proof.
  induction fuel as [|fuel IH]; intros i batch db n H; simpl; [exact H|].
  destruct (i <? toFetch); [|exact H].
  set (hs := map (fun j => cur - j) (zrange i (Z.min (i + size) toFetch))).
  pose proof (storeFetched_counted (dbThrows u)
                (map (fetchBlock u batch) hs) n0 db n H) as Hst.
  destruct (storeFetched (dbThrows u) (map (fetchBlock u batch) hs) db n)
    as [[db1 n1] ev1].
  specialize (IH (i + size) (S batch) db1 n1 Hst).
  destruct (forwardLoop u fuel cur toFetch size wait (i + size) (S batch)
              db1 n1) as [[db2 n2] ev2].
  exact IH.
Qed.

Lemma syncNewCoreBlocks_counted (u : Upstream) (sv : Service) (db : Db) :
  let '(n, _, db', _) := syncNewCoreBlocks u sv db in
  0 < n -> coreBlockFees db' <> [].
Proof.
  pose proof (syncNewCoreBlocks_shape u sv db) as H.
  destruct (syncNewCoreBlocks u sv db) as [[[n sv'] db'] ev].
  destruct H as [(-> & _)
                |(cur & useRpc & ev2 & db1 & _ & _ & B & P & S & Hloop & _)].
  - lia.
  - cbv zeta in Hloop.
    set (toFetch := forwardToFetch (orZero (maxHeight (coreBlockFees db)))
                                   cur) in *.
    pose proof (forwardLoop_counted u cur toFetch
                  (if useRpc then 10 else 2) (if useRpc then 100 else 2000)
                  0 (Z.to_nat toFetch) 0 O db1 0 ltac:(lia)) as Hc.
    rewrite Hloop in Hc. exact Hc.
Qed.

Lemma seedLoop_effect (us : nat -> Upstream) :
  forall left attempt sv db,
    let '(cs, ws, sv1, db1, ev) := seedLoop us left attempt sv db in
    ws = seedWaits (Z.of_nat attempt) (List.length ws)
    /\ ((exists c, cs = repeat 0 (List.length ws) ++ [c] /\ 0 < c
                   /\ coreBlockFees db1 <> []
                   /\ (List.length ws < left)%nat)
        \/ (cs = repeat 0 left /\ List.length ws = left))
    /\ keeps ev db db1
    /\ backfillRunning sv1 = backfillRunning sv
    /\ backfillProgress sv1 = backfillProgress sv.
Proof.
  induction left as [|left IH]; intros attempt sv db.
  - simpl. split; [reflexivity|]. split; [right; split; reflexivity|].
    split; [apply keeps_refl | split; reflexivity].
  - cbn [seedLoop].
    pose proof (syncNewCoreBlocks_keeps (us attempt) sv db) as Hk.
    pose proof (syncNewCoreBlocks_counted (us attempt) sv db) as Hc.
    destruct (syncNewCoreBlocks (us attempt) sv db)
      as [[[count sv1] db1] ev].
    destruct Hk as (K & Hn & R & P).
    destruct (Z.gtb_spec count 0) as [Hpos|Hle].
    + simpl. split; [reflexivity|].
      split; [|split; [exact K | split; assumption]].
      left. exists count. repeat split; try lia. apply Hc. lia.
    + assert (count = 0) by lia. subst count.
      specialize (IH (S attempt) sv1 db1).
      destruct (seedLoop us left (S attempt) sv1 db1)
        as [[[[cs ws] sv2] db2] ev'].
      destruct IH as (W & C & K' & R' & P').
      split; [|split; [|split; [|split; congruence]]].
      * cbn [List.length seedWaits countUp map]. f_equal.
        rewrite W at 1. unfold seedWaits. f_equal. f_equal. lia.
      * destruct C as [(c & -> & Hc0 & Hne & Hlt)|[-> Hl]].
        -- left. exists c. cbn [List.length repeat app].
           repeat split; try assumption; lia.
        -- right. cbn [List.length repeat]. split; [reflexivity | lia].
      * exact (keeps_trans _ _ _ _ _ K K').
Qed.



Lemma syncNewCoreBlocks_no_tip (u : Upstream) (sv : Service) (db : Db) :
  fst (fst (fetchCoreStatus u sv)) = None ->
  let '(n, _, db', ev) := syncNewCoreBlocks u sv db in
  n = 0 /\ fetchedHeights ev = [] /\ insertedRows ev = []
  /\ coreBlockFees db' = coreBlockFees db.
Proof.
  intro Hnone.
  pose proof (syncNewCoreBlocks_shape u sv db) as H.
  destruct (syncNewCoreBlocks u sv db) as [[[n sv'] db'] ev].
  destruct H as [(-> & F & I & _ & B & _)|(cur & _ & _ & _ & _ & Hs & _)].
  - repeat split; assumption.
  - congruence.
Qed.

Lemma seedLoop_no_tip (us : nat -> Upstream) :
  forall togo attempt sv db,
    (forall i sv0, fst (fst (fetchCoreStatus (us i) sv0)) = None) ->
    let '(cs, ws, _, db1, ev) := seedLoop us togo attempt sv db in
    cs = repeat 0 togo /\ List.length ws = togo
    /\ fetchedHeights ev = [] /\ insertedRows ev = []
    /\ coreBlockFees db1 = coreBlockFees db.
Proof.
  induction togo as [|togo IH]; intros attempt sv db Hnone.
  - simpl. repeat split.
  - cbn [seedLoop].
    pose proof (syncNewCoreBlocks_no_tip (us attempt) sv db (Hnone _ _)) as H.
    destruct (syncNewCoreBlocks (us attempt) sv db)
      as [[[count sv1] db1] ev].
    destruct H as (-> & F & I & B).
    change (0 >? 0) with false. cbv iota.
    specialize (IH (S attempt) sv1 db1 Hnone).
    destruct (seedLoop us togo (S attempt) sv1 db1)
      as [[[[cs ws] sv2] db2] ev'].
    destruct IH as (-> & L & F' & I' & B').
    rewrite fetchedHeights_app, insertedRows_app, F, I, F', I'.
    cbn [List.length repeat]. repeat split; congruence.
Qed.

(** X18: when no source gives the chain tip during the seeding, the
    task makes its 20 tries, waits 670000 ms in all, asks for no block
    and stores none; called on the still empty table, the backfill
    returns at once without asking for a block; the run flag is down
    and the progress is as it was, or the status is "error" when the
    database refused the first read. *)
Theorem startup_gives_up_without_a_chain_tip
    (us : nat -> Upstream) (ub : Upstream) (fuel : nat)
    (sv : Service) (db : Db) :
  (forall i sv0, fst (fst (fetchCoreStatus (us i) sv0)) = None) ->
  backfillRunning sv = false ->
  coreBlockFees db = [] ->
  let '(cs, ws, returned, sv', db', ev) :=
    seedAndBackfill us ub fuel sv db in
  cs = repeat 0 20
  /\ ws = seedWaits 0 20
  /\ sumZ ws = 670000
  /\ fetchedHeights ev = [] /\ insertedRows ev = []
  /\ coreBlockFees db' = []
  /\ returned = true
  /\ backfillRunning sv' = false
  /\ (backfillProgress sv' = backfillProgress sv
      \/ status (backfillProgress sv') = error).
Proof.
  intros Hnone Hrun Hempty. unfold seedAndBackfill.
  pose proof (seedLoop_no_tip us 20 O sv db Hnone) as H1.
  pose proof (seedLoop_effect us 20 O sv db) as H2.
  destruct (seedLoop us 20 0 sv db) as [[[[cs ws] sv1] db1] ev1].
  destruct H1 as (C & L & F & I & B).
  destruct H2 as (W & _ & _ & R & P).
  rewrite L in W.
  unfold startCoreBackfill, stmt. rewrite R, Hrun.
  destruct (dbThrows ub (stmtNo db1)).
  - cbn [fst snd coreBlockFees]. rewrite app_nil_r, B, Hempty, W.
    repeat split; try assumption. right. reflexivity.
  - cbn [coreBlockFees]. rewrite B, Hempty.
    change (negb (truthy (orZero (minHeight [])))) with true. cbv iota.
    rewrite app_nil_r, W.
    repeat split; try assumption. left. exact P.
Qed.

Lemma startup_gives_up_without_a_chain_tip_witness :
  let down := mkUpstream false false None None None (fun _ _ => None)
                (fun _ => false) 1770000000000 in
  let '(cs, ws, returned, sv', db', ev) :=
    seedAndBackfill (fun _ => down) down 5 initialService
                    (mkDb [] [] [] O) in
  sumZ ws = 670000 /\ fetchedHeights ev = []
  /\ backfillProgress sv' = backfillProgress initialService.
Proof.
  intro down.
  assert (Hnone : forall (i : nat) sv0,
            fst (fst (fetchCoreStatus ((fun _ => down) i) sv0)) = None).
  { intros _ [r p [[|]|]]; reflexivity. }
  pose proof (startup_gives_up_without_a_chain_tip (fun _ => down) down 5
                initialService (mkDb [] [] [] O) Hnone eq_refl eq_refl) as H.
  destruct (seedAndBackfill (fun _ => down) down 5 initialService
              (mkDb [] [] [] O)) as [[[[[cs ws] returned] sv'] db'] ev]
    eqn:E.
  destruct H as (_ & _ & T & F & _ & _ & _ & _ & P).
  split; [exact T|]. split; [exact F|].
  vm_compute in E. injection E as _ _ _ <- _ _. reflexivity.
Defined.


Lemma zrange_cons (lo hi : Z) :
  lo < hi -> zrange lo hi = lo :: zrange (lo + 1) hi.
Proof.
  intro H. unfold zrange.
  replace (Z.to_nat (hi - lo)) with (S (Z.to_nat (hi - (lo + 1)))) by lia.
  reflexivity.
Qed.

Lemma recentBatch_range (c : Z) :
  forall fuel i hi,
    hi - i <= Z.of_nat fuel ->
    recentBatch fuel c i hi
    = map (fun j => c - j) (zrange i (Z.min hi (c + 1))).
Proof.
  induction fuel as [|fuel IH]; intros i hi Hf.
  - rewrite zrange_empty by lia. reflexivity.
  - cbn [recentBatch]. destruct (Z.ltb_spec i hi) as [Hlt|Hge].
    + cbv zeta. destruct (Z.ltb_spec (c - i) 0) as [Hneg|Hok].
      * rewrite zrange_empty by lia. reflexivity.
      * rewrite (zrange_cons i) by lia. cbn [map]. f_equal.
        apply IH. lia.
    + rewrite zrange_empty by lia. reflexivity.
Qed.

Lemma fetchedEpochs_app (a b : list Event) :
  fetchedEpochs (a ++ b) = fetchedEpochs a ++ fetchedEpochs b.
Proof. apply flat_map_app. Qed.

Lemma fetchedEpochs_asks (l : list Z) :
  fetchedEpochs (map EvFetchEpoch l) = l /\ delays (map EvFetchEpoch l) = [].
Proof.
  induction l as [|x l [IH1 IH2]]; [split; reflexivity|].
  simpl. rewrite IH1, IH2. split; reflexivity.
Qed.

Lemma recentLoop_effect (pf : Platform) (c count : Z) :
  forall fuel b,
    count - b <= 5 * Z.of_nat fuel ->
    let '(got, ev) := recentLoop pf fuel c count b in
    let asked := map (fun j => c - j) (zrange b (Z.min count (c + 1))) in
    fetchedEpochs ev = asked
    /\ got = answered pf asked
    /\ delays ev = repeat 200 (Z.to_nat ((count - b + 4) / 5 - 1)).
Proof.
  induction fuel as [|fuel IH]; intros b Hf.
  - simpl. rewrite zrange_empty by lia.
    replace (Z.to_nat ((count - b + 4) / 5 - 1)) with O;
      [repeat split|].
    pose proof (Z.div_le_upper_bound (count - b + 4) 5 1 ltac:(lia)
                  ltac:(lia)). lia.
  - cbn [recentLoop]. destruct (Z.ltb_spec b count) as [Hlt|Hge].
    + rewrite (recentBatch_range c 5 b (Z.min (b + 5) count)) by lia.
      specialize (IH (b + 5) ltac:(lia)).
      destruct (recentLoop pf fuel c count (b + 5)) as [rest ev].
      cbv zeta in IH. destruct IH as (F & G & D).
      cbv zeta.
      set (first := map (fun j => c - j)
                      (zrange b (Z.min (Z.min (b + 5) count) (c + 1)))).
      assert (Hsplit : map (fun j => c - j) (zrange b (Z.min count (c + 1)))
                       = first
                         ++ map (fun j => c - j)
                              (zrange (b + 5) (Z.min count (c + 1)))).
      { unfold first. rewrite <- map_app. f_equal.
        destruct (Z.le_gt_cases (Z.min count (c + 1)) (b + 5)) as [Hs|Hl].
        - rewrite (zrange_empty (b + 5)) by lia. rewrite app_nil_r.
          f_equal. lia.
        - replace (Z.min (Z.min (b + 5) count) (c + 1)) with (b + 5) by lia.
          apply zrange_split. lia. }
      rewrite Hsplit.
      destruct (fetchedEpochs_asks first) as [Fa Da].
      split; [|split].
      * rewrite !fetchedEpochs_app, Fa, F.
        destruct (b + 5 <? count); reflexivity.
      * rewrite G. unfold answered. rewrite flat_map_app. reflexivity.
      * rewrite !delays_app, Da, D. cbn [app].
        destruct (Z.ltb_spec (b + 5) count) as [Hmore|Hlast].
        -- replace (count - b + 4) with (count - (b + 5) + 4 + 1 * 5) by lia.
           rewrite Z.div_add by lia.
           assert (1 <= (count - (b + 5) + 4) / 5)
             by (apply Z.div_le_lower_bound; lia).
           replace (Z.to_nat ((count - (b + 5) + 4) / 5 + 1 - 1))
             with (S (Z.to_nat ((count - (b + 5) + 4) / 5 - 1))) by lia.
           reflexivity.
        -- assert ((count - (b + 5) + 4) / 5 <= 0).
           { pose proof (Z.div_lt_upper_bound (count - (b + 5) + 4) 5 1
                           ltac:(lia) ltac:(lia)). lia. }
           assert ((count - b + 4) / 5 <= 1).
           { pose proof (Z.div_lt_upper_bound (count - b + 4) 5 2
                           ltac:(lia) ltac:(lia)). lia. }
           replace (Z.to_nat ((count - (b + 5) + 4) / 5 - 1)) with O by lia.
           replace (Z.to_nat ((count - b + 4) / 5 - 1)) with O by lia.
           reflexivity.
    + rewrite zrange_empty by lia.
      replace (Z.to_nat ((count - b + 4) / 5 - 1)) with O;
        [repeat split|].
      pose proof (Z.div_lt_upper_bound (count - b + 4) 5 1 ltac:(lia)
                    ltac:(lia)). lia.
Qed.

(** X19: with the current epoch [c > 0], a call for [count] recent
    epochs asks for the epochs [c], [c - 1], ... down to
    [max 0 (c - count + 1)], each once and none below 0, and returns
    the answers that came, in that order; it waits 200 ms between the
    batches of five, [ceil(count / 5) - 1] times, also when the epochs
    ran out before; the epochs route never asks for more than 100. *)
Theorem recent_epochs_are_the_latest_count
    (pf : Platform) (count c : Z) :
  statusEpochNumber pf = Some c -> 0 < c ->
  let '(got, ev) := fetchRecentPlatformEpochs pf count in
  let asked := map (fun j => c - j) (zrange 0 (Z.min count (c + 1))) in
  fetchedEpochs ev = asked
  /\ got = answered pf asked
  /\ Forall (fun n => Z.max 0 (c - count + 1) <= n <= c) asked
  /\ (List.length got <= List.length asked)%nat
  /\ List.length asked = Z.to_nat (Z.min count (c + 1))
  /\ delays ev = repeat 200 (Z.to_nat ((count + 4) / 5 - 1))
  /\ (forall q, count = epochsRouteCount q ->
        (List.length asked <= 100)%nat).
Proof.
  intros Hs Hc. unfold fetchRecentPlatformEpochs. rewrite Hs.
  replace (truthy c) with true
    by (unfold truthy; destruct (Z.eqb_spec c 0); [lia | reflexivity]).
  pose proof (recentLoop_effect pf c count (Z.to_nat count) 0
                ltac:(lia)) as H.
  destruct (recentLoop pf (Z.to_nat count) c count 0) as [got ev].
  cbv zeta in H. destruct H as (F & G & D).
  rewrite Z.sub_0_r in D.
  assert (Hlen : List.length
                   (map (fun j => c - j) (zrange 0 (Z.min count (c + 1))))
                 = Z.to_nat (Z.min count (c + 1))).
  { rewrite length_map. unfold zrange. rewrite countUp_length.
    f_equal. lia. }
  split; [exact F|]. split; [exact G|]. split; [|split; [|split;
    [exact Hlen | split; [exact D|]]]].
  - apply Forall_forall. intros n Hn. apply in_map_iff in Hn.
    destruct Hn as (j & <- & Hj). unfold zrange in Hj.
    assert (Hin : forall k x y, In y (countUp k x)
                                -> x <= y < x + Z.of_nat k).
    { induction k as [|k IH]; intros x y Hy; [destruct Hy|].
      destruct Hy as [<-|Hy]; [lia|]. specialize (IH _ _ Hy). lia. }
    specialize (Hin _ _ _ Hj). lia.
  - rewrite G. unfold answered.
    generalize (map (fun j => c - j) (zrange 0 (Z.min count (c + 1)))).
    induction l as [|x l IH]; [simpl; lia|].
    cbn [flat_map]. rewrite length_app.
    destruct (fetchPlatformEpoch pf x); simpl; lia.
  - intros q ->. rewrite Hlen. unfold epochsRouteCount. lia.
Qed.

Lemma recent_epochs_are_the_latest_count_witness :
  let pf := mkPlatform (Some 2)
              (fun m => if m =? 1 then None
                        else Some (mkEpochResp None (Some m))) in
  fetchedEpochs (snd (fetchRecentPlatformEpochs pf 20)) = [2; 1; 0]
  /\ delays (snd (fetchRecentPlatformEpochs pf 20)) = [200; 200; 200].
Proof.
  intro pf.
  pose proof (recent_epochs_are_the_latest_count pf 20 2 eq_refl
                ltac:(lia)) as H.
  destruct (fetchRecentPlatformEpochs pf 20) as [got ev].
  destruct H as (F & _ & _ & _ & _ & D & _).
  split; [exact F | exact D].
Defined.


Lemma countValidators_from (l : list JsVal) :
  forall e r,
    let acc := fold_left (fun acc v => if isStr "Evo" v
                                       then (fst acc + 1, snd acc)
                                       else (fst acc, snd acc + 1))
                         l (e, r) in
    fst acc + snd acc = e + r + Z.of_nat (List.length l)
    /\ e <= fst acc /\ r <= snd acc.
Proof.
  induction l as [|v l IH]; intros e r; simpl; [lia|].
  destruct (isStr "Evo" v); simpl.
  - specialize (IH (e + 1) r). simpl in IH. lia.
  - specialize (IH e (r + 1)). simpl in IH. lia.
Qed.

Lemma orDefault_zero (d : Z) (x : option Z) :
  orDefault d x = 0 -> d = 0.
Proof.
  unfold orDefault, truthy. destruct x as [v|]; [|tauto].
  destruct (Z.eqb_spec v 0); simpl; [tauto | lia].
Qed.

(** X20: every validator of the reply is counted once, as evo or as
    regular; the reported total is the page total when the reply has a
    non-zero one and the number of validators otherwise, so it is 0
    only for an empty list; a failed request gives zeros and no
    validators. *)
Theorem validators_are_counted_once (answer : Outcome ValidatorsReply) :
  let c := fetchPlatformValidators answer in
  vc_evoCount c + vc_regularCount c = Z.of_nat (List.length (vc_validators c))
  /\ 0 <= vc_evoCount c /\ 0 <= vc_regularCount c
  /\ (vc_total c = 0 -> vc_validators c = [])
  /\ (answer = Threw -> c = mkValidatorCounts 0 0 0 []).
Proof.
  destruct answer as [data|]; simpl.
  - set (validators := match vr_resultSet data with
                       | Some l => l
                       | None => []
                       end).
    pose proof (countValidators_from validators 0 0) as H. simpl in H.
    unfold countValidators.
    split; [lia|]. split; [lia|]. split; [lia|]. split; [|discriminate].
    intro Hz. apply orDefault_zero in Hz.
    destruct validators; [reflexivity | discriminate].
  - repeat split; lia.
Qed.

Lemma aggregate_app (pick : Z -> Z -> Z) (t a : list BlockRow) :
  aggregate pick (t ++ a)
  = fold_left (fun acc r => match acc with
                            | None => Some (height r)
                            | Some x => Some (pick x (height r))
                            end) a (aggregate pick t).
Proof. unfold aggregate. apply fold_left_app. Qed.

Lemma minHeight_from (a : list BlockRow) :
  forall m,
    exists m', fold_left (fun acc r => match acc with
                                       | None => Some (height r)
                                       | Some x => Some (Z.min x (height r))
                                       end) a (Some m) = Some m'
               /\ m' <= m /\ Forall (fun r => m' <= height r) a.
Proof.
  induction a as [|r a IH]; intro m; simpl.
  - exists m. split; [reflexivity|]. split; [lia | constructor].
  - destruct (IH (Z.min m (height r))) as (m' & E & L & F).
    exists m'. split; [exact E|]. split; [lia|].
    constructor; [lia | exact F].
Qed.

Lemma maxHeight_from (a : list BlockRow) :
  forall m,
    exists m', fold_left (fun acc r => match acc with
                                       | None => Some (height r)
                                       | Some x => Some (Z.max x (height r))
                                       end) a (Some m) = Some m'
               /\ m <= m' /\ Forall (fun r => height r <= m') a.
Proof.
  induction a as [|r a IH]; intro m; simpl.
  - exists m. split; [reflexivity|]. split; [lia | constructor].
  - destruct (IH (Z.max m (height r))) as (m' & E & L & F).
    exists m'. split; [exact E|]. split; [lia|].
    constructor; [lia | exact F].
Qed.

Lemma heights_within (t : list BlockRow) :
  t <> [] ->
  exists lo hi, minHeight t = Some lo /\ maxHeight t = Some hi
                /\ Forall (fun r => lo <= height r <= hi) t.
Proof.
  destruct t as [|r t]; [contradiction|]. intros _.
  unfold minHeight, maxHeight, aggregate. simpl.
  destruct (minHeight_from t (height r)) as (lo & E1 & L1 & F1).
  destruct (maxHeight_from t (height r)) as (hi & E2 & L2 & F2).
  exists lo, hi. split; [exact E1|]. split; [exact E2|].
  constructor; [lia|].
  apply Forall_forall. intros x Hx.
  rewrite Forall_forall in F1, F2. split; [apply F1 | apply F2]; exact Hx.
Qed.

Lemma orDefault_zero_some (v : Z) : orDefault 0 (Some v) = v.
Proof.
  unfold orDefault, truthy. destruct (Z.eqb_spec v 0); simpl; congruence.
Qed.

Lemma range_widens (rows t t' : list BlockRow) :
  extends rows t t' -> t <> [] ->
  exists lo hi lo' hi',
    minHeight t = Some lo /\ maxHeight t = Some hi
    /\ minHeight t' = Some lo' /\ maxHeight t' = Some hi'
    /\ lo' <= lo /\ hi <= hi'
    /\ (List.length t <= List.length t')%nat
    /\ Forall (fun r => lo <= height r <= hi) t.
Proof.
  intros (added & -> & _) Hne.
  destruct (heights_within t Hne) as (lo & hi & E1 & E2 & F).
  unfold minHeight, maxHeight in *. rewrite !aggregate_app, E1, E2.
  destruct (minHeight_from added lo) as (lo' & E1' & L1 & _).
  destruct (maxHeight_from added hi) as (hi' & E2' & L2 & _).
  exists lo, hi, lo', hi'. rewrite length_app.
  repeat split; try assumption; lia.
Qed.

(** X21: on a block table that is not empty, the height range read
    back for the sync status lies around every stored height, and a
    forward sync or a backfill call in between can only widen it: the
    minimum does not grow, the maximum and the count do not shrink. *)
Theorem reported_height_range_only_widens
    (u : Upstream) (sv : Service) (db : Db) (fuel : nat)
    (thr thr' : nat -> bool) (lo hi n lo' hi' n' : Z) (db' : Db) :
  coreBlockFees db <> [] ->
  db' = snd (fst (syncNewCoreBlocks u sv db))
  \/ db' = snd (fst (startCoreBackfill u fuel sv db)) ->
  fst (getCoreHeightRange thr db) = Ok (lo, hi, n) ->
  fst (getCoreHeightRange thr' db') = Ok (lo', hi', n') ->
  lo' <= lo /\ hi <= hi' /\ n <= n'
  /\ Forall (fun r => lo <= height r <= hi) (coreBlockFees db)
  /\ n = Z.of_nat (List.length (coreBlockFees db)).
Proof.
  intros Hne Hdb' H1 H2.
  assert (Hext : exists rows,
            extends rows (coreBlockFees db) (coreBlockFees db')).
  { destruct Hdb' as [->| ->].
    - pose proof (syncNewCoreBlocks_keeps u sv db) as H.
      destruct (syncNewCoreBlocks u sv db) as [[[k sv'] db1] ev].
      destruct H as ((E & _) & _). eexists. exact E.
    - pose proof (startCoreBackfill_effect u fuel sv db) as H.
      destruct (startCoreBackfill u fuel sv db) as [[[k sv'] db1] ev].
      destruct H as ((E & _) & _). eexists. exact E. }
  destruct Hext as (rows & Hext).
  destruct (range_widens _ _ _ Hext Hne)
    as (a & b & a' & b' & E1 & E2 & E3 & E4 & L1 & L2 & L3 & F).
  unfold getCoreHeightRange, stmt in H1, H2.
  destruct (thr (stmtNo db)); [discriminate|].
  destruct (thr' (stmtNo db')); [discriminate|].
  cbn [fst coreBlockFees] in H1, H2.
  rewrite E1, E2 in H1. rewrite E3, E4 in H2.
  rewrite !orDefault_zero_some in H1, H2.
  injection H1 as <- <- <-. injection H2 as <- <- <-.
  repeat split; try assumption; lia.
Qed.

Lemma reported_height_range_only_widens_witness :
  let u := mkUpstream false false None (Some 2400003) None
             (fun _ h => Some (mkBlockData
                                 (if h =? 2400001 then "a1"
                                  else if h =? 2400002 then "a2" else "a3")
                                 h 1770000000 3 0.5%float 1.75%float))
             (fun _ => false) 1770000000000 in
  let db := mkDb [blockDataToRow (sampleBlock 2400000)] [] [] O in
  2400000 <= 2400000 /\ 2400000 <= 2400003 /\ 1 <= 4
  /\ Forall (fun r => 2400000 <= height r <= 2400000) (coreBlockFees db)
  /\ 1 = Z.of_nat (List.length (coreBlockFees db)).
Proof.
  intros u db.
  apply (reported_height_range_only_widens u initialService db 0
           (fun _ => false) (fun _ => false)
           2400000 2400000 1 2400000 2400003 4
           (snd (fst (syncNewCoreBlocks u initialService db)))).
  - discriminate.
  - left. reflexivity.
  - vm_compute. reflexivity.
  - vm_compute. reflexivity.
Defined.


Lemma sumZ_app (a b : list Z) : sumZ (a ++ b) = sumZ a + sumZ b.
Proof. induction a as [|x a IH]; simpl; [reflexivity | rewrite IH; lia]. Qed.

Lemma existsb_key_false (k : Z) (bs : list AggregatedBlock) :
  existsb (fun e => ab_t e =? k) bs = false -> ~ In k (map ab_t bs).
Proof.
  induction bs as [|e bs IH]; simpl; [tauto|].
  destruct (Z.eqb_spec (ab_t e) k); simpl; [discriminate|].
  intros H [He|Hin]; [contradiction | exact (IH H Hin)].
Qed.

Lemma addBlock_keys (key : Z -> Z) (bs : list AggregatedBlock)
    (b : BlockRow) :
  NoDup (map ab_t bs) -> NoDup (map ab_t (addBlock key bs b)).
Proof.
  intro H. unfold addBlock.
  destruct (existsb _ bs) eqn:E.
  - rewrite map_map.
    replace (map _ bs) with (map ab_t bs); [exact H|].
    apply map_ext. intro e. destruct (ab_t e =? key (time b)); reflexivity.
  - rewrite map_app. simpl. apply NoDup_app;
      [exact H | repeat constructor; intros [] |].
    intros k Hin [<-|[]]. exact (existsb_key_false _ _ E Hin).
Qed.

Lemma addBlock_summarises (key : Z -> Z) (blocks : list BlockRow)
    (bs : list AggregatedBlock) (b : BlockRow) :
  NoDup (map ab_t bs) ->
  summarises key blocks bs ->
  summarises key (blocks ++ [b]) (addBlock key bs b).
Proof.
  intros Hnd (Hc & Ht & He & Hb). unfold addBlock.
  set (k := key (time b)).
  set (upd := fun existing : AggregatedBlock =>
                if ab_t existing =? k
                then mkAggregatedBlock
                       (ab_t existing)
                       (PrimFloat.add (ab_fees existing) (totalFees b))
                       (PrimFloat.add (ab_reward existing) (reward b))
                       (Z.max (ab_height existing) (height b))
                       (ab_txCount existing + txCount b)
                       (ab_blockCount existing + 1)
                else existing).
  destruct (existsb (fun e => ab_t e =? k) bs) eqn:E.
  - (* one bucket has the key: exactly one, the keys being distinct *)
    assert (Hsum : forall l, NoDup (map ab_t l) ->
              existsb (fun e => ab_t e =? k) l = true ->
              sumZ (map ab_blockCount (map upd l))
              = sumZ (map ab_blockCount l) + 1
              /\ sumZ (map ab_txCount (map upd l))
                 = sumZ (map ab_txCount l) + txCount b).
    { induction l as [|e l IH]; intros Hl Hex; [discriminate|].
      simpl in Hl. inversion Hl as [|? ? Hnotin Hl']; subst.
      simpl in Hex. cbn [map sumZ fold_right].
      change (fold_right Z.add 0) with sumZ.
      unfold upd at 1 3.
      destruct (Z.eqb_spec (ab_t e) k) as [Hk|Hk].
      - cbn [ab_blockCount ab_txCount].
        assert (Hsame : map upd l = l).
        { rewrite <- (map_id l) at 2. apply map_ext_in. intros x Hx.
          unfold upd. destruct (Z.eqb_spec (ab_t x) k) as [Hx'|]; [|reflexivity].
          exfalso. apply Hnotin. rewrite Hk, <- Hx'. apply in_map, Hx. }
        rewrite Hsame. lia.
      - simpl in Hex. destruct (IH Hl' Hex) as [I1 I2]. lia. }
    destruct (Hsum bs Hnd E) as [S1 S2].
    split; [|split; [|split]].
    + rewrite S1, Hc, length_app. simpl. lia.
    + rewrite S2, Ht, map_app, sumZ_app. simpl. lia.
    + intros e' Hin. apply in_map_iff in Hin.
      destruct Hin as (e & <- & Hin).
      destruct (He e Hin) as (Hone & b0 & Hb0 & Hk0 & Hh0).
      unfold upd. destruct (Z.eqb_spec (ab_t e) k) as [Hk|Hk].
      * cbn [ab_blockCount ab_t ab_height]. split; [lia|].
        destruct (Z.max_spec (ab_height e) (height b)) as [[_ Hm]|[_ Hm]].
        -- exists b. split; [apply in_or_app; right; left; reflexivity|].
           split; [symmetry; exact Hk | symmetry; exact Hm].
        -- exists b0. split; [apply in_or_app; left; exact Hb0|].
           split; [exact Hk0 | congruence].
      * split; [exact Hone|]. exists b0.
        split; [apply in_or_app; left; exact Hb0 | split; assumption].
    + intros b1 Hin. apply in_app_or in Hin.
      destruct Hin as [Hin|[<-|[]]].
      * destruct (Hb b1 Hin) as (e & He1 & Hk1 & Hh1).
        exists (upd e). split; [apply in_map, He1|].
        unfold upd. destruct (ab_t e =? k); cbn [ab_t ab_height];
          split; try assumption; lia.
      * apply existsb_exists in E. destruct E as (e & He1 & Hk1).
        apply Z.eqb_eq in Hk1.
        exists (upd e). split; [apply in_map, He1|].
        unfold upd. rewrite (proj2 (Z.eqb_eq _ _) Hk1).
        cbn [ab_t ab_height]. split; [exact Hk1 | lia].
  - split; [|split; [|split]].
    + rewrite map_app, sumZ_app, Hc, length_app. simpl. lia.
    + rewrite !map_app, !sumZ_app, Ht. simpl. lia.
    + intros e Hin. apply in_app_or in Hin.
      destruct Hin as [Hin|[<-|[]]].
      * destruct (He e Hin) as (Hone & b0 & Hb0 & Hk0 & Hh0).
        split; [exact Hone|]. exists b0.
        split; [apply in_or_app; left; exact Hb0 | split; assumption].
      * cbn [ab_blockCount ab_t ab_height]. split; [lia|].
        exists b. split; [apply in_or_app; right; left; reflexivity|].
        split; reflexivity.
    + intros b1 Hin. apply in_app_or in Hin.
      destruct Hin as [Hin|[<-|[]]].
      * destruct (Hb b1 Hin) as (e & He1 & Hk1 & Hh1).
        exists e. split; [apply in_or_app; left; exact He1|].
        split; assumption.
      * eexists. split; [apply in_or_app; right; left; reflexivity|].
        cbn [ab_t ab_height]. split; [reflexivity | lia].
Qed.

Lemma buckets_summarise (key : Z -> Z) (blocks : list BlockRow) :
  forall done bs,
    NoDup (map ab_t bs) -> summarises key done bs ->
    NoDup (map ab_t (fold_left (addBlock key) blocks bs))
    /\ summarises key (done ++ blocks) (fold_left (addBlock key) blocks bs).
Proof.
  induction blocks as [|b blocks IH]; intros done bs Hnd Hs.
  - rewrite app_nil_r. split; assumption.
  - simpl.
    replace (done ++ b :: blocks) with ((done ++ [b]) ++ blocks)
      by (rewrite <- app_assoc; reflexivity).
    apply IH; [apply addBlock_keys, Hnd | apply addBlock_summarises; assumption].
Qed.

Lemma insertByT_in (x : AggregatedBlock) (l : list AggregatedBlock) :
  forall y, In y (insertByT x l) <-> y = x \/ In y l.
Proof.
  induction l as [|z l IH]; intro y; simpl.
  - intuition.
  - destruct (ab_t x <? ab_t z); simpl; [intuition|].
    rewrite IH. intuition.
Qed.

Lemma insertByT_perm (x : AggregatedBlock) (l : list AggregatedBlock) :
  Permutation (insertByT x l) (x :: l).
Proof.
  induction l as [|z l IH]; simpl; [apply Permutation_refl|].
  destruct (ab_t x <? ab_t z); [apply Permutation_refl|].
  apply (Permutation_trans (l' := z :: x :: l));
    [apply perm_skip, IH | apply perm_swap].
Qed.

Lemma insertByT_sum (f : AggregatedBlock -> Z) (x : AggregatedBlock)
    (l : list AggregatedBlock) :
  sumZ (map f (insertByT x l)) = f x + sumZ (map f l).
Proof.
  induction l as [|z l IH]; simpl; [reflexivity|].
  destruct (ab_t x <? ab_t z); simpl; [reflexivity|].
  change (fold_right Z.add 0) with sumZ. rewrite IH. lia.
Qed.

Lemma insertByT_sorted (x : AggregatedBlock) (l : list AggregatedBlock) :
  StronglySorted Z.lt (map ab_t l) -> ~ In (ab_t x) (map ab_t l) ->
  StronglySorted Z.lt (map ab_t (insertByT x l)).
Proof.
  induction l as [|z l IH]; intros Hs Hn; simpl.
  - repeat constructor.
  - simpl in Hs. inversion Hs as [|? ? Hs' Hall]; subst.
    destruct (Z.ltb_spec (ab_t x) (ab_t z)) as [Hlt|Hge]; simpl.
    + constructor; [exact Hs|]. constructor; [exact Hlt|].
      eapply Forall_impl; [|exact Hall]. simpl. intros a Ha. lia.
    + assert (Hne : ab_t x <> ab_t z)
        by (intro E; apply Hn; left; symmetry; exact E).
      constructor.
      * apply IH; [exact Hs'|]. intro Hin. apply Hn. right. exact Hin.
      * apply Forall_forall. intros k Hk. apply in_map_iff in Hk.
        destruct Hk as (y & <- & Hy). apply insertByT_in in Hy.
        destruct Hy as [->|Hy]; [lia|].
        rewrite Forall_forall in Hall. apply Hall, in_map, Hy.
Qed.

Lemma sortByT_effect (l : list AggregatedBlock) :
  forall acc,
    NoDup (map ab_t (acc ++ l)) ->
    StronglySorted Z.lt (map ab_t acc) ->
    let s := fold_left (fun sorted x => insertByT x sorted) l acc in
    StronglySorted Z.lt (map ab_t s)
    /\ (forall y, In y s <-> In y (acc ++ l))
    /\ (forall f, sumZ (map f s) = sumZ (map f (acc ++ l))).
Proof.
  induction l as [|x l IH]; intros acc Hnd Hs; simpl.
  - rewrite app_nil_r. repeat split; tauto.
  - assert (Hperm : forall y, In y (insertByT x acc ++ l)
                              <-> In y (acc ++ x :: l)).
    { intro y. rewrite !in_app_iff, insertByT_in. simpl. intuition. }
    assert (Hnotin : ~ In (ab_t x) (map ab_t acc)).
    { rewrite map_app in Hnd. simpl in Hnd.
      apply NoDup_remove_2 in Hnd. intro Hin. apply Hnd.
      apply in_or_app. left. exact Hin. }
    assert (Hnd' : NoDup (map ab_t (insertByT x acc ++ l))).
    { apply (Permutation_NoDup (l := map ab_t (acc ++ x :: l))); [|exact Hnd].
      apply Permutation_map. apply Permutation_sym.
      apply (Permutation_trans (l' := x :: acc ++ l)).
      - apply (Permutation_app_tail l (insertByT_perm x acc)).
      - apply Permutation_middle. }
    destruct (IH (insertByT x acc) Hnd'
                (insertByT_sorted x acc Hs Hnotin)) as (S1 & S2 & S3).
    split; [exact S1|]. split.
    + intro y. rewrite S2. apply Hperm.
    + intro f. rewrite S3, !map_app, !sumZ_app, insertByT_sum. simpl. lia.
Qed.

(** X22: whatever the bucket function, the aggregated series comes
    out in strictly increasing bucket order (one entry per bucket);
    its block counts add up to the number of blocks given and its
    transaction counts to theirs; every block falls in the entry of
    its bucket; and the height of an entry is the height of one of its
    blocks, the greatest of them. *)
Theorem aggregated_series_loses_no_block
    (bucketKey : Z -> Z) (blocks : list BlockRow) :
  let series := aggregateCoreBlocks bucketKey blocks in
  StronglySorted Z.lt (map ab_t series)
  /\ sumZ (map ab_blockCount series) = Z.of_nat (List.length blocks)
  /\ sumZ (map ab_txCount series) = sumZ (map txCount blocks)
  /\ (forall e, In e series ->
        1 <= ab_blockCount e
        /\ exists b, In b blocks /\ bucketKey (time b) = ab_t e
                     /\ height b = ab_height e)
  /\ (forall b, In b blocks ->
        exists e, In e series /\ ab_t e = bucketKey (time b)
                  /\ height b <= ab_height e).
Proof.
  unfold aggregateCoreBlocks, sortByT.
  assert (H0 : summarises bucketKey [] []).
  { split; [reflexivity | split; [reflexivity | split;
      [intros e [] | intros b []]]]. }
  destruct (buckets_summarise bucketKey blocks [] [] (NoDup_nil _) H0)
    as (Hnd & Hc & Ht & He & Hb).
  simpl in Hc, Ht, He, Hb.
  destruct (sortByT_effect (fold_left (addBlock bucketKey) blocks []) []
              Hnd (SSorted_nil _)) as (S1 & S2 & S3).
  simpl in S2, S3.
  split; [exact S1|]. split; [rewrite S3; exact Hc|].
  split; [rewrite S3; exact Ht|]. split.
  - intros e Hin. apply He, S2, Hin.
  - intros b Hin. destruct (Hb b Hin) as (e & He1 & Hk & Hh).
    exists e. split; [apply S2, He1 | split; assumption].
Qed.


Lemma hasKey_true_in (k : string) (t : list BlockRow) :
  hasKey hash String.eqb k t = true -> In k (map hash t).
Proof.
  unfold hasKey. induction t as [|r t IH]; simpl; [discriminate|].
  destruct (String.eqb_spec (hash r) k) as [E|E]; simpl.
  - intros _. left. exact E.
  - intro H. right. exact (IH H).
Qed.

Lemma insertAll_effect (values : list BlockRow) :
  forall t,
    let t' := fold_left
                (fun t r => insertOnConflictDoNothing hash String.eqb
                              (storedRow r) t)
                values t in
    extends values t t'
    /\ (NoDup (map hash t) -> NoDup (map hash t'))
    /\ Forall (fun r => In (hash r) (map hash t')) values.
Proof.
  induction values as [|r values IH]; intro t; simpl.
  - split; [apply extends_refl|]. split; [tauto | constructor].
  - set (t1 := insertOnConflictDoNothing hash String.eqb (storedRow r) t).
    destruct (IH t1) as (E & N & F).
    assert (H1 : extends [r] t t1
                 /\ (NoDup (map hash t) -> NoDup (map hash t1))
                 /\ In (hash r) (map hash t1)).
    { unfold t1, insertOnConflictDoNothing.
      change (hash (storedRow r)) with (hash r).
      destruct (hasKey hash String.eqb (hash r) t) eqn:Hk.
      - split; [apply extends_refl|]. split; [tauto|].
        exact (hasKey_true_in _ _ Hk).
      - split; [exists [storedRow r]; split;
                  [reflexivity | apply incl_refl]|].
        split.
        + intro Hnd. rewrite map_app. simpl.
          apply NoDup_app; [exact Hnd | repeat constructor; intros [] |].
          intros k Hin [<-|[]]. exact (hasKey_false_notin _ _ Hk Hin).
        + rewrite map_app. apply in_or_app. right. left. reflexivity. }
    destruct H1 as (E1 & N1 & I1).
    split; [|split].
    + exact (extends_trans _ _ _ _ _ E1 E).
    + intro Hnd. exact (N (N1 Hnd)).
    + constructor; [|exact F].
      destruct E as (added & -> & _). rewrite map_app.
      apply in_or_app. left. exact I1.
Qed.

Lemma insertRows_effect (thr : nat -> bool) (values : list BlockRow)
    (db : Db) :
  let '(r, db') := insertRows thr values db in
  extends values (coreBlockFees db) (coreBlockFees db')
  /\ (NoDup (map hash (coreBlockFees db)) ->
      NoDup (map hash (coreBlockFees db')))
  /\ platformEpochFees db' = platformEpochFees db
  /\ syncState db' = syncState db
  /\ (r = Ok tt ->
      Forall (fun x => In (hash x) (map hash (coreBlockFees db'))) values).
Proof.
  unfold insertRows, stmt. destruct (thr (stmtNo db)); simpl.
  - split; [apply extends_refl|]. repeat split; try tauto. discriminate.
  - destruct (insertAll_effect values (coreBlockFees db)) as (E & N & F).
    split; [exact E|]. split; [exact N|]. split; [reflexivity|].
    split; [reflexivity|]. intros _. exact F.
Qed.

Lemma importLoop_effect (thr : nat -> bool) (rows : list BlockRow) :
  forall fuel i db inserted,
    (List.length rows <= i + fuel)%nat ->
    let '(r, db') := importLoop thr fuel rows i db inserted in
    extends (skipn i rows) (coreBlockFees db) (coreBlockFees db')
    /\ (NoDup (map hash (coreBlockFees db)) ->
        NoDup (map hash (coreBlockFees db')))
    /\ platformEpochFees db' = platformEpochFees db
    /\ syncState db' = syncState db
    /\ (forall n, r = Ok n ->
          n = inserted + Z.of_nat (List.length rows - i)
          /\ Forall (fun x => In (hash x) (map hash (coreBlockFees db')))
                    (skipn i rows)).
Proof.
  induction fuel as [|fuel IH]; intros i db inserted Hf.
  - simpl. split; [apply extends_refl|]. repeat split; try tauto.
    + injection H as <-. lia.
    + rewrite skipn_all2 by lia. constructor.
  - cbn [importLoop]. destruct (Nat.ltb_spec i (List.length rows)) as [Hlt|Hge].
    + pose proof (insertRows_effect thr (firstn CHUNK (skipn i rows)) db) as H1.
      destruct (insertRows thr (firstn CHUNK (skipn i rows)) db) as [r db1].
      destruct H1 as (E1 & N1 & P1 & S1 & F1).
      assert (Hincl : incl (firstn CHUNK (skipn i rows)) (skipn i rows)).
      { intros x Hx. rewrite <- (firstn_skipn CHUNK (skipn i rows)).
        apply in_or_app. left. exact Hx. }
      destruct r as [[]|].
      * specialize (IH (i + CHUNK)%nat db1
                       (inserted
                        + Z.of_nat (List.length
                                      (firstn CHUNK (skipn i rows))))
                       ltac:(unfold CHUNK; lia)).
        destruct (importLoop thr fuel rows (i + CHUNK) db1 _) as [r2 db2].
        destruct IH as (E2 & N2 & P2 & S2 & F2).
        assert (Hskip : skipn (i + CHUNK) rows = skipn CHUNK (skipn i rows)).
        { rewrite skipn_skipn. f_equal. lia. }
        split; [|split; [|split; [|split]]].
        -- apply (extends_weaken
                    (firstn CHUNK (skipn i rows) ++ skipn (i + CHUNK) rows)).
           ++ rewrite Hskip, firstn_skipn. apply incl_refl.
           ++ exact (extends_trans _ _ _ _ _ E1 E2).
        -- intro Hnd. exact (N2 (N1 Hnd)).
        -- congruence.
        -- congruence.
        -- intros n Hn. destruct (F2 n Hn) as [Hcount Hall]. split.
           ++ rewrite Hcount, length_firstn, length_skipn. unfold CHUNK. lia.
           ++ rewrite <- (firstn_skipn CHUNK (skipn i rows)).
              apply Forall_app. split; [|rewrite <- Hskip; exact Hall].
              eapply Forall_impl; [|exact (F1 eq_refl)]. simpl.
              intros x Hx. destruct E2 as (added & -> & _).
              rewrite map_app. apply in_or_app. left. exact Hx.
      * split; [exact (extends_weaken _ _ _ _ Hincl E1)|].
        repeat split; try assumption; discriminate.
    + split; [apply extends_refl|]. repeat split; try tauto.
      * injection H as <-. lia.
      * rewrite skipn_all2 by lia. constructor.
Qed.



(** X24: a backfill call that has returned leaves the status
    "complete" or "error", or, on a table with no non-zero lowest
    height, the progress it found: the run flag is only lowered by the
    call itself, so the walk ends below the target and never with the
    status "paused". *)
Theorem backfill_never_ends_paused
    (u : Upstream) (fuel : nat) (sv : Service) (db : Db) :
  backfillRunning sv = false ->
  let '(returned, sv', _, _) := startCoreBackfill u fuel sv db in
  returned = true ->
  status (backfillProgress sv') = complete
  \/ status (backfillProgress sv') = error
  \/ (backfillProgress sv' = backfillProgress sv
      /\ orZero (minHeight (coreBlockFees db)) = 0).
Proof.
  intro Hrun. unfold startCoreBackfill, stmt. rewrite Hrun.
  destruct (dbThrows u (stmtNo db)); [intros _; right; left; reflexivity|].
  cbn [coreBlockFees].
  unfold truthy.
  destruct (Z.eqb_spec (orZero (minHeight (coreBlockFees db))) 0) as [Hz|Hz];
    cbn [negb].
  { intros _. right. right. split; [reflexivity | exact Hz]. }
  destruct (estimateTargetHeight u _) as [[t db2] ev0].
  destruct t as [target|]; [|intros _; right; left; reflexivity].
  destruct (orZero (minHeight (coreBlockFees db)) <=? target);
    [intros _; left; reflexivity|].
  destruct (checkRpcAvailability u _) as [[useRpc v] ev1].
  match goal with
  | |- context [backfillLoop ?a ?b ?c ?d ?e ?f ?g ?h] =>
      pose proof (backfillLoop_effect a b c d e f g h) as Hloop;
      destruct (backfillLoop a b c d e f g h) as [[[[e0 wk] sv3] db3] ev2]
  end.
  destruct Hloop as (_ & R & _ & _ & Hexit). cbn in R.
  destruct e0.
  - destruct (setSyncValue (dbThrows u) "backfill_oldest_height"
                (currentHeight wk) db3) as [r db4].
    destruct r; [|intros _; right; left; reflexivity].
    intros _. left. cbn.
    destruct (Hexit eq_refl) as [Hlt|Hoff]; [|discriminate Hoff].
    destruct (Z.leb_spec (currentHeight wk) target); [reflexivity | lia].
  - intros _. right. left. reflexivity.
  - discriminate.
Qed.

Lemma backfill_never_ends_paused_witness :
  status (backfillProgress
            (snd (fst (fst (startCoreBackfill
                              (mkUpstream false false None None None
                                 (fun _ h => Some (sampleBlock h))
                                 (fun _ => false) 1770000000000)
                              40 initialService
                              (mkDb [blockDataToRow (sampleBlock 2401530)]
                                    []
                                    [("backfill_target_height"%string,
                                      2401520)] O))))))
  = complete.
Proof.
  pose proof (backfill_never_ends_paused
                (mkUpstream false false None None None
                   (fun _ h => Some (sampleBlock h))
                   (fun _ => false) 1770000000000)
                40 initialService
                (mkDb [blockDataToRow (sampleBlock 2401530)] []
                      [("backfill_target_height"%string, 2401520)] O)
                eq_refl) as H.
  vm_compute in H. vm_compute.
  destruct (H eq_refl) as [E|[E|[_ E]]];
    [reflexivity | discriminate E | discriminate E].
Defined.

(** ** The backfill target over the life of the service *)

Lemma setSyncValue_other_key (thr : nat -> bool) (k k' : string) (v : Z)
    (db : Db) :
  k' <> k ->
  storedValue k' (syncState (snd (setSyncValue thr k v db)))
  = storedValue k' (syncState db).
Proof.
  intro Hk. unfold setSyncValue, stmt. destruct (thr (stmtNo db)); simpl;
    [reflexivity|].
  rewrite storedValue_upsert.
  destruct (String.eqb_spec k' k); [contradiction | reflexivity].
Qed.

Lemma estimateTargetHeight_kept (u : Upstream) (db : Db) (n : Z) :
  targetKept n db ->
  targetKept n (snd (fst (estimateTargetHeight u db))).
Proof.
  unfold targetKept. intro H.
  unfold estimateTargetHeight, getSyncValue, stmt. simpl.
  destruct (dbThrows u (stmtNo db)); [exact H|].
  fold (storedValue "backfill_target_height" (syncState db)).
  rewrite H. exact H.
Qed.

Lemma backfillPass_kept (u : Upstream) (useRpc : bool)
    (oldest target : Z) (wk : Walk) (sv : Service) (db : Db) (n : Z) :
  targetKept n db ->
  targetKept n (snd (fst (backfillPass u useRpc oldest target wk sv db))).
Proof.
  unfold targetKept. intro H. unfold backfillPass.
  pose proof (storeBackfilled_keeps (dbThrows u)
                (map (fetchBlock u (batchNo wk))
                     (batchAt useRpc target (currentHeight wk)))
                db 0 false) as Hs.
  destruct (storeBackfilled _ _ db 0 false) as [[[db1 ins] anyFailed] ev1].
  destruct Hs as [_ Hs].
  destruct (anyFailed && (ins =? 0)); [simpl; rewrite Hs; exact H|].
  cbv zeta.
  destruct ((Z.rem (totalInserted wk + ins) 200 =? 0)
            && (totalInserted wk + ins >? 0));
    [|simpl; rewrite Hs; exact H].
  pose proof (setSyncValue_other_key (dbThrows u) "backfill_oldest_height"
                "backfill_target_height"
                (currentHeight wk - BATCH_SIZE useRpc) db1
                ltac:(discriminate)) as Hset.
  destruct (setSyncValue (dbThrows u) "backfill_oldest_height"
              (currentHeight wk - BATCH_SIZE useRpc) db1) as [r db2].
  simpl in Hset. destruct r; simpl; rewrite Hset, Hs; exact H.
Qed.

Lemma backfillLoop_kept (u : Upstream) (useRpc : bool) (oldest target : Z)
    (n : Z) :
  forall fuel wk sv db,
    targetKept n db ->
    targetKept n
      (snd (fst (backfillLoop u useRpc oldest target fuel wk sv db))).
Proof.
  induction fuel as [|fuel IH]; intros wk sv db H; simpl.
  - destruct ((currentHeight wk >=? target) && backfillRunning sv); exact H.
  - destruct ((currentHeight wk >=? target) && backfillRunning sv);
      [|exact H].
    pose proof (backfillPass_kept u useRpc oldest target wk sv db n H) as Hp.
    destruct (backfillPass u useRpc oldest target wk sv db)
      as [[[r sv1] db1] ev1].
    simpl in Hp. destruct r as [wk1|]; [|exact Hp].
    specialize (IH wk1 sv1 db1 Hp).
    destruct (backfillLoop u useRpc oldest target fuel wk1 sv1 db1)
      as [[[[e wk2] sv2] db2] ev2].
    exact IH.
Qed.

Lemma startCoreBackfill_kept (u : Upstream) (fuel : nat) (sv : Service)
    (db : Db) (n : Z) :
  targetKept n db ->
  targetKept n (snd (fst (startCoreBackfill u fuel sv db))).
Proof.
  intro H. unfold startCoreBackfill.
  destruct (backfillRunning sv); [exact H|].
  unfold stmt.
  set (db1 := mkDb (coreBlockFees db) (platformEpochFees db) (syncState db)
                   (S (stmtNo db))).
  assert (H1 : targetKept n db1) by exact H.
  destruct (dbThrows u (stmtNo db)); [exact H1|].
  destruct (negb (truthy (orZero (minHeight (coreBlockFees db1)))));
    [exact H1|].
  pose proof (estimateTargetHeight_kept u db1 n H1) as H2.
  destruct (estimateTargetHeight u db1) as [[t db2] ev0]. simpl in H2.
  destruct t as [target|]; [|exact H2].
  destruct (orZero (minHeight (coreBlockFees db1)) <=? target); [exact H2|].
  destruct (checkRpcAvailability u _) as [[useRpc v] ev1].
  match goal with
  | |- context [backfillLoop ?a ?b ?c ?d ?e ?f ?g ?h] =>
      pose proof (backfillLoop_kept a b c d n e f g h H2) as H3;
      destruct (backfillLoop a b c d e f g h) as [[[[e0 wk] sv3] db3] ev2]
  end.
  simpl in H3. destruct e0; try exact H3.
  pose proof (setSyncValue_other_key (dbThrows u) "backfill_oldest_height"
                "backfill_target_height" (currentHeight wk) db3
                ltac:(discriminate)) as Hset.
  destruct (setSyncValue (dbThrows u) "backfill_oldest_height"
              (currentHeight wk) db3) as [r db4].
  simpl in Hset. unfold targetKept.
  destruct r; simpl; rewrite Hset; exact H3.
Qed.

Lemma syncNewCoreBlocks_syncState (u : Upstream) (sv : Service) (db : Db) :
  syncState (snd (fst (syncNewCoreBlocks u sv db))) = syncState db.
Proof.
  pose proof (syncNewCoreBlocks_shape u sv db) as H.
  destruct (syncNewCoreBlocks u sv db) as [[[k sv'] db'] ev].
  destruct H as [(_ & _ & _ & _ & _ & _ & S)
                |(cur & useRpc & ev2 & db1 & _ & _ & _ & _ & S & Hloop & _)].
  - exact S.
  - cbv zeta in Hloop.
    match type of Hloop with
    | forwardLoop ?a ?b ?c ?d ?e ?f ?g ?h ?i ?j = _ =>
        pose proof (forwardLoop_keeps a c d e f b g h i j) as Hk
    end.
    rewrite Hloop in Hk. destruct Hk as (_ & S' & _).
    simpl. congruence.
Qed.

Lemma syncAllPlatformEpochs_syncState (pf : Platform) (thr : nat -> bool)
    (db : Db) :
  syncState (snd (fst (syncAllPlatformEpochs pf thr db))) = syncState db.
Proof.
  unfold syncAllPlatformEpochs.
  destruct (statusEpochNumber pf) as [c|]; [|reflexivity].
  destruct (truthy c); [|reflexivity].
  pose proof (epochLoop_kept pf thr (Z.to_nat (c + 1)) c db 0) as H.
  destruct (epochLoop pf thr (Z.to_nat (c + 1)) c db 0) as [[k db'] ev].
  destruct H as (_ & _ & S & _). exact S.
Qed.

Lemma importBackfill_syncState (thr : nat -> bool) (rows : list BlockRow)
    (db : Db) :
  syncState (snd (importBackfill thr rows db)) = syncState db.
Proof.
  unfold importBackfill.
  pose proof (importLoop_effect thr rows (List.length rows) O db 0
                ltac:(lia)) as H.
  destruct (importLoop thr (List.length rows) rows 0 db 0) as [r db'].
  destruct H as (_ & _ & _ & S & _). exact S.
Qed.

Lemma later_kept (n : Z) (db db' : Db) :
  later db db' -> targetKept n db -> targetKept n db'.
Proof.
  intros Hl H0. induction Hl as [|u sv d _ IH|u fuel sv d _ IH|u d _ IH
                                |pf thr d _ IH|thr rows d _ IH|thr d _ IH
                                |thr v d _ IH].
  - exact H0.
  - unfold targetKept. rewrite syncNewCoreBlocks_syncState. exact IH.
  - apply startCoreBackfill_kept, IH.
  - apply estimateTargetHeight_kept, IH.
  - unfold targetKept. rewrite syncAllPlatformEpochs_syncState. exact IH.
  - unfold targetKept. rewrite importBackfill_syncState. exact IH.
  - unfold getCoreHeightRange, stmt.
    destruct (thr (stmtNo d)); exact IH.
  - unfold targetKept.
    rewrite setSyncValue_other_key by discriminate. exact IH.
Qed.

Lemma estimateTargetHeight_saves (u : Upstream) (db : Db) (target : Z) :
  fst (fst (estimateTargetHeight u db)) = Ok target ->
  (exists m, maxHeight (coreBlockFees db) = Some m /\ m <> 0) ->
  targetKept target (snd (fst (estimateTargetHeight u db))).
Proof.
  intros Hfirst (m & Hmax & Hm). unfold targetKept.
  remember (estimateTargetHeight u db) as r eqn:Hr.
  unfold estimateTargetHeight, getSyncValue, setSyncValue, stmt in Hr.
  simpl in Hr.
  fold (storedValue "backfill_target_height" (syncState db)) in Hr.
  destruct (dbThrows u (stmtNo db)); [subst r; discriminate|].
  destruct (storedValue "backfill_target_height" (syncState db))
    as [n|] eqn:Hn; simpl in Hr.
  - subst r. simpl in *. injection Hfirst as <-. exact Hn.
  - destruct (dbThrows u (S (stmtNo db))); [subst r; discriminate|].
    rewrite Hmax in Hr.
    assert (Ht : truthy m = true)
      by (unfold truthy; apply negb_true_iff, Z.eqb_neq; exact Hm).
    rewrite Ht in Hr. simpl in Hr.
    destruct (dbThrows u (S (S (stmtNo db)))); [subst r; discriminate|].
    subst r. simpl in *. injection Hfirst as <-.
    rewrite storedValue_upsert, String.eqb_refl. reflexivity.
Qed.

(** X2: the backfill target is computed once.  When a call of
    [estimateTargetHeight] has returned a target on a cache that is not
    empty, a call made after any number of forward syncs, backfills,
    epoch syncs, imports, range reads and saved masternode counts, at
    whatever time, returns that same target whenever its read of the
    stored target succeeds. *)
Theorem estimateTargetHeight_does_not_drift
    (u u' : Upstream) (db db' : Db) (target : Z) :
  fst (fst (estimateTargetHeight u db)) = Ok target ->
  (exists m, maxHeight (coreBlockFees db) = Some m /\ m <> 0) ->
  later (snd (fst (estimateTargetHeight u db))) db' ->
  dbThrows u' (stmtNo db') = false ->
  fst (fst (estimateTargetHeight u' db')) = Ok target.
Proof.
  intros Hfirst Hmax Hlater Hthr.
  pose proof (later_kept target _ _ Hlater
                (estimateTargetHeight_saves u db target Hfirst Hmax))
    as Hsaved.
  unfold estimateTargetHeight. rewrite getSyncValue_reads by exact Hthr.
  unfold targetKept in Hsaved. rewrite Hsaved. reflexivity.
Qed.

Lemma estimateTargetHeight_does_not_drift_witness :
  let u := mkUpstream false false None (Some 2400008) None
             (fun _ h => Some (mkBlockData
                                 (if h =? 2400005 then "a5"
                                  else if h =? 2400004 then "a4"
                                  else if h =? 2400003 then "a3"
                                  else "a2")
                                 h 1767226000 3 0.5%float 1.75%float))
             (fun _ => false) 1767226050000 in
  let u' := mkUpstream false false None None None (fun _ _ => None)
              (fun _ => false) 1780000000000 in
  let db := mkDb [mkBlockRow "a6" 2400006 1767226500 0%float 2%float 1]
                 [] [] O in
  let db1 := snd (fst (estimateTargetHeight u db)) in
  let db2 := snd (fst (startCoreBackfill u 10 initialService db1)) in
  let db' := snd (fst (syncNewCoreBlocks u initialService db2)) in
  fst (fst (estimateTargetHeight u db)) = Ok 2400003
  /\ syncState db' = [("backfill_target_height"%string, 2400003);
                      ("backfill_oldest_height"%string, 2400001)]
  /\ fst (fst (estimateTargetHeight u' db')) = Ok 2400003.
Proof.
  intros u u' db db1 db2 db'.
  assert (H : fst (fst (estimateTargetHeight u db)) = Ok 2400003)
    by (vm_compute; reflexivity).
  split; [exact H|]. split; [vm_compute; reflexivity|].
  apply (estimateTargetHeight_does_not_drift u u' db db' 2400003 H).
  - exists 2400006. split; [reflexivity | discriminate].
  - apply later_forward_sync, later_backfill, later_now.
  - vm_compute. reflexivity.
Defined.
